(** * armsimd: the NEON signal-processing kernels of [obj_detection_util.h]

    A shallow embedding of the nine kernels of the header and the
    properties of their specification.

    - [F32]   : IEEE-754 binary32 values and arithmetic (round to nearest
                even), on the Standard Library's [spec_float].
    - [SizeT] : [size_t] as a 64-bit unsigned integer, wrap-around written
                out.
    - [Neon]  : the intrinsics of [arm_neon.h] the kernels call, lane by
                lane.
    - [Mem]   : the memory effects of a kernel: loads from the read-only
                input arrays, loads and stores on the output array, every
                access recorded; an access outside an array is a fault.
    - [Kernels] : the kernels, statement by statement.

    Input and output arrays are assumed not to overlap. *)

From Stdlib Require Import ZArith NArith Bool Lia.
From Stdlib Require Import Floats.SpecFloat.
From stdpp Require Import base list strings.

Local Open Scope N_scope.

(** [lia] reasons about division and remainder by constants. *)
Ltac Zify.zify_post_hook ::= Z.to_euclidean_division_equations.

(** ** binary32

    The arithmetic of [float] and of the float lanes: IEEE-754 binary32,
    round to nearest even, subnormal numbers kept, one NaN. A scalar
    expression of the source is evaluated operation by operation, as it
    is written; only [vfmaq_f32] fuses a product and a sum. *)
Module F32.

Definition prec : Z := 24.
Definition emax : Z := 128.

Definition F := spec_float.

Definition is_f32 (x : F) : bool := valid_binary prec emax x.

Definition fadd : F -> F -> F := SFadd prec emax.
Definition fsub : F -> F -> F := SFsub prec emax.
Definition fmul : F -> F -> F := SFmul prec emax.
Definition fdiv : F -> F -> F := SFdiv prec emax.
Definition flt : F -> F -> bool := SFltb.
Definition fle : F -> F -> bool := SFleb.
Definition fgt (x y : F) : bool := SFltb y x.

Definition is_nan (x : F) : bool :=
  match x with S754_nan => true | _ => false end.

(** An integer literal or an integer converted to [float]. *)
Definition of_Z (z : Z) : F := binary_normalize prec emax z 0 false.
Definition of_N (n : N) : F := of_Z (Z.of_N n).

Definition zero : F := S754_zero false.
Definition one : F := of_Z 1.
Definition nan : F := S754_nan.
Definition inf (s : bool) : F := S754_infinity s.

(** The sign a floating-point value carries ([false] for NaN). *)
Definition sign (x : F) : bool :=
  match x with
  | S754_zero s | S754_infinity s | S754_finite s _ _ => s
  | S754_nan => false
  end.

(** Fused multiply-add [a + x * y], the lane operation of [vfmaq_f32]:
    the product is exact and the sum is rounded once. *)
Definition fma (a x y : F) : F :=
  match x, y with
  | S754_nan, _ | _, S754_nan => S754_nan
  | S754_infinity _, S754_zero _ | S754_zero _, S754_infinity _ => S754_nan
  | S754_infinity _, _ | _, S754_infinity _ =>
      let s := xorb (sign x) (sign y) in
      match a with
      | S754_nan => S754_nan
      | S754_infinity sa => if Bool.eqb s sa then a else S754_nan
      | _ => S754_infinity s
      end
  | S754_zero _, _ | _, S754_zero _ =>
      let s := xorb (sign x) (sign y) in
      match a with
      | S754_nan => S754_nan
      | S754_zero sa => S754_zero (andb s sa)
      | _ => a
      end
  | S754_finite sx mx ex, S754_finite sy my ey =>
      let s := xorb sx sy in
      let mp := (mx * my)%positive in
      let ep := (ex + ey)%Z in
      match a with
      | S754_nan => S754_nan
      | S754_infinity _ => a
      | S754_zero _ => binary_normalize prec emax (cond_Zopp s (Zpos mp)) ep false
      | S754_finite sa ma ea =>
          let ez := Z.min ep ea in
          binary_normalize prec emax
            (Z.add (cond_Zopp s (Zpos (fst (shl_align mp ep ez))))
                   (cond_Zopp sa (Zpos (fst (shl_align ma ea ez)))))
            ez false
      end
  end.

(** The bit pattern of a binary32 value and back (one quiet NaN). *)
Definition to_bits (x : F) : Z :=
  let sb (s : bool) := if s then 0x80000000%Z else 0%Z in
  match x with
  | S754_zero s => sb s
  | S754_infinity s => (sb s + 0x7F800000)%Z
  | S754_nan => 0x7FC00000%Z
  | S754_finite s m e =>
      if (Zpos (digits2_pos m) =? prec)%Z
      then (sb s + (e + 150) * 0x800000 + (Zpos m - 0x800000))%Z
      else (sb s + Zpos m)%Z
  end.

Definition of_bits (b : Z) : F :=
  let s := Z.testbit b 31 in
  let ex := Z.land (Z.shiftr b 23) 0xFF in
  let mt := Z.land b 0x7FFFFF in
  if (ex =? 0xFF)%Z then (if (mt =? 0)%Z then S754_infinity s else S754_nan)
  else if (ex =? 0)%Z then
    match mt with
    | Zpos m => S754_finite s m (-149)
    | _ => S754_zero s
    end
  else
    match (mt + 0x800000)%Z with
    | Zpos m => S754_finite s m (ex - 150)
    | _ => S754_nan
    end.

End F32.

(** ** size_t and the 32-bit lanes *)
Module SizeT.

Definition modulus : N := 2 ^ 64.

Definition add (a b : N) : N := (a + b) mod modulus.
(** Unsigned subtraction wraps: [a - b] is [a + 2^64 - b] modulo 2^64. *)
Definition sub (a b : N) : N := (a + modulus - b mod modulus) mod modulus.
Definition lnot (a : N) : N := N.lnot a 64.
Definition land (a b : N) : N := N.land a b.

(** [static_cast<uint32_t>(i)]. *)
Definition to_u32 (i : N) : N := i mod 2 ^ 32.

End SizeT.

(** ** The NEON intrinsics used by the kernels *)
Module Neon.
Import F32.

(** A 64-bit register of two lanes, a 128-bit register of four lanes
    (or a 64-bit one of four 16-bit lanes), and eight narrow lanes. *)
Record vec2 (A : Type) := V2 { d0 : A; d1 : A }.
Record vec4 (A : Type) := V4 { q0 : A; q1 : A; q2 : A; q3 : A }.
Record vec8 (A : Type) :=
  V8 { b0 : A; b1 : A; b2 : A; b3 : A; b4 : A; b5 : A; b6 : A; b7 : A }.
Arguments V2 {A}. Arguments d0 {A}. Arguments d1 {A}.
Arguments V4 {A}. Arguments q0 {A}. Arguments q1 {A}.
Arguments q2 {A}. Arguments q3 {A}.
Arguments V8 {A}. Arguments b0 {A}. Arguments b1 {A}. Arguments b2 {A}.
Arguments b3 {A}. Arguments b4 {A}. Arguments b5 {A}. Arguments b6 {A}.
Arguments b7 {A}.

Definition float32x2_t := vec2 F.
Definition float32x4_t := vec4 F.
Definition uint32x4_t := vec4 N.
Definition uint16x4_t := vec4 N.
Definition uint16x8_t := vec8 N.
Definition uint8x8_t := vec8 N.

Definition map4 {A B} (f : A -> B) (v : vec4 A) : vec4 B :=
  V4 (f (q0 v)) (f (q1 v)) (f (q2 v)) (f (q3 v)).
Definition zip4 {A B C} (f : A -> B -> C) (v : vec4 A) (w : vec4 B) : vec4 C :=
  V4 (f (q0 v) (q0 w)) (f (q1 v) (q1 w)) (f (q2 v) (q2 w)) (f (q3 v) (q3 w)).
Definition zip4_3 {A B C D} (f : A -> B -> C -> D)
    (u : vec4 A) (v : vec4 B) (w : vec4 C) : vec4 D :=
  V4 (f (q0 u) (q0 v) (q0 w)) (f (q1 u) (q1 v) (q1 w))
     (f (q2 u) (q2 v) (q2 w)) (f (q3 u) (q3 v) (q3 w)).

(** Lane [i] of a four-lane register, as an array of four would give it. *)
Definition lane4 {A} (v : vec4 A) (i : nat) : A :=
  match i with
  | 0%nat => q0 v | 1%nat => q1 v | 2%nat => q2 v | _ => q3 v
  end.

Definition vdupq_n_f32 (x : F) : float32x4_t := V4 x x x x.
Definition vdup_n_u16 (x : N) : uint16x4_t := V4 x x x x.

Definition vaddq_f32 : float32x4_t -> float32x4_t -> float32x4_t := zip4 fadd.
Definition vsubq_f32 : float32x4_t -> float32x4_t -> float32x4_t := zip4 fsub.
Definition vmulq_f32 : float32x4_t -> float32x4_t -> float32x4_t := zip4 fmul.
(** [vfmaq_f32 a b c] is [a + b * c] in every lane, fused. *)
Definition vfmaq_f32 : float32x4_t -> float32x4_t -> float32x4_t -> float32x4_t :=
  zip4_3 fma.

Definition vget_low_f32 (v : float32x4_t) : float32x2_t := V2 (q0 v) (q1 v).
Definition vget_high_f32 (v : float32x4_t) : float32x2_t := V2 (q2 v) (q3 v).
Definition vadd_f32 (a b : float32x2_t) : float32x2_t :=
  V2 (fadd (d0 a) (d0 b)) (fadd (d1 a) (d1 b)).
(** Pairwise add: the sums of adjacent lanes of [a], then of [b]. *)
Definition vpadd_f32 (a b : float32x2_t) : float32x2_t :=
  V2 (fadd (d0 a) (d1 a)) (fadd (d0 b) (d1 b)).
Definition vget_lane_f32 (v : float32x2_t) (i : nat) : F :=
  match i with 0%nat => d0 v | _ => d1 v end.

(** [vextq_f32 a b n]: four lanes of the eight-lane sequence [a ++ b],
    from lane [n] on. *)
Definition vextq_f32 (a b : float32x4_t) (n : nat) : float32x4_t :=
  match n with
  | 0%nat => a
  | 1%nat => V4 (q1 a) (q2 a) (q3 a) (q0 b)
  | 2%nat => V4 (q2 a) (q3 a) (q0 b) (q1 b)
  | _ => V4 (q3 a) (q0 b) (q1 b) (q2 b)
  end.

(** Comparison masks: all ones where the comparison holds, else zero. *)
Definition ones32 : N := 0xFFFFFFFF.
Definition mask_of (b : bool) : N := if b then ones32 else 0.
Definition vcltq_f32 (a b : float32x4_t) : uint32x4_t :=
  zip4 (fun x y => mask_of (flt x y)) a b.
Definition vcgtq_f32 (a b : float32x4_t) : uint32x4_t :=
  zip4 (fun x y => mask_of (fgt x y)) a b.

(** Bitwise select: each bit from [a] where the mask bit is set, from
    [b] where it is clear. *)
Definition bsl32 (m a b : N) : N :=
  N.lor (N.land m a) (N.land (N.lnot m 32) b).
Definition vbslq_u32 : uint32x4_t -> uint32x4_t -> uint32x4_t -> uint32x4_t :=
  zip4_3 bsl32.
(** On a float lane the select acts on the bit pattern; a mask of all
    ones (all zeros) takes every bit of [a] (of [b]). *)
Definition bsl_f32 (m : N) (a b : F) : F :=
  if m =? ones32 then a
  else if m =? 0 then b
  else of_bits (Z.of_N (bsl32 m (Z.to_N (to_bits a)) (Z.to_N (to_bits b)))).
Definition vbslq_f32 : uint32x4_t -> float32x4_t -> float32x4_t -> float32x4_t :=
  zip4_3 bsl_f32.

(** Narrowing moves keep the low half of every lane. *)
Definition vmovn_u32 (v : uint32x4_t) : uint16x4_t :=
  map4 (fun x => x mod 2 ^ 16) v.
Definition vcombine_u16 (lo hi : uint16x4_t) : uint16x8_t :=
  V8 (q0 lo) (q1 lo) (q2 lo) (q3 lo) (q0 hi) (q1 hi) (q2 hi) (q3 hi).
Definition vmovn_u16 (v : uint16x8_t) : uint8x8_t :=
  V8 (b0 v mod 2 ^ 8) (b1 v mod 2 ^ 8) (b2 v mod 2 ^ 8) (b3 v mod 2 ^ 8)
     (b4 v mod 2 ^ 8) (b5 v mod 2 ^ 8) (b6 v mod 2 ^ 8) (b7 v mod 2 ^ 8).
Definition vget_lane_u8 (v : uint8x8_t) (i : nat) : N :=
  match i with
  | 0%nat => b0 v | 1%nat => b1 v | 2%nat => b2 v | 3%nat => b3 v
  | 4%nat => b4 v | 5%nat => b5 v | 6%nat => b6 v | _ => b7 v
  end.

End Neon.

(** ** Memory effects *)
Module Mem.

Inductive access :=
| Load (buf : string) (i : N)
| Store (buf : string) (i : N).

(** The output array of the running kernel and the accesses made so
    far, oldest first. *)
Record state (T : Type) := State { out : list T; log : list access }.
Arguments State {T}. Arguments out {T}. Arguments log {T}.

(** A computation over an output array of [T]; [None] is a fault: an
    access outside an array. *)
Definition M (T A : Type) : Type := state T -> option (A * state T).

Definition ret {T A} (a : A) : M T A := fun s => Some (a, s).
Definition bind {T A B} (m : M T A) (k : A -> M T B) : M T B :=
  fun s => match m s with
           | Some (a, s') => k a s'
           | None => None
           end.
Definition fault {T A} : M T A := fun _ => None.

Definition record {T} (e : access) (s : state T) : state T :=
  State (out s) (log s ++ [e]).

(** [buf[i]] of a read-only input array. *)
Definition ld {T A} (buf : string) (a : list A) (i : N) : M T A :=
  fun s => match a !! N.to_nat i with
           | Some x => Some (x, record (Load buf i) s)
           | None => None
           end.

(** [buf[i]] of the output array, read and written. *)
Definition ld_out {T} (buf : string) (i : N) : M T T :=
  fun s => match out s !! N.to_nat i with
           | Some x => Some (x, record (Load buf i) s)
           | None => None
           end.
Definition st_out {T} (buf : string) (i : N) (x : T) : M T unit :=
  fun s => if (N.to_nat i <? length (out s))%nat
           then Some (tt, State (<[N.to_nat i := x]> (out s)) (log s ++ [Store buf i]))
           else None.

End Mem.

Declare Scope mem_scope.
Delimit Scope mem_scope with mem.
Notation "x <- m ;; k" := (Mem.bind m (fun x => k))
  (at level 20, m at level 99, k at level 200, only parsing) : mem_scope.
Notation "' p <- m ;; k" := (Mem.bind m (fun x => let 'p := x in k))
  (at level 20, p pattern, m at level 99, k at level 200, only parsing) : mem_scope.
Notation "m ;; k" := (Mem.bind m (fun _ => k))
  (at level 100, k at level 200, only parsing, right associativity) : mem_scope.

Local Open Scope mem_scope.

(** ** Loops and vector loads and stores *)
Module Loop.
Import Mem Neon F32.

(** [for (size_t i = i0; i < bound; i += step) body]: the loop variable
    and the loop-carried values [s]. Running out of [fuel] with the
    guard still true is a fault, so a result is a completed loop. *)
Fixpoint for_fuel {T A} (fuel : nat) (i bound step : N)
    (body : N -> A -> M T A) (s : A) : M T (N * A) :=
  if i <? bound then
    match fuel with
    | O => fault
    | S fuel' =>
        s' <- body i s ;;
        for_fuel fuel' (SizeT.add i step) bound step body s'
    end
  else ret (i, s).

(** A loop that starts below [bound] and advances by at least one makes
    at most [bound] rounds. *)
Definition for_idx {T A} (i bound step : N) (body : N -> A -> M T A) (s : A)
    : M T (N * A) :=
  for_fuel (N.to_nat bound) i bound step body s.

Definition for_loop {T A} (i bound step : N) (body : N -> A -> M T A) (s : A)
    : M T A :=
  '(_, s') <- for_idx i bound step body s ;; ret s'.

(** [vld1q_f32(&buf[i])]: four consecutive elements. *)
Definition vld1q_f32 {T} (buf : string) (a : list F) (i : N) : M T float32x4_t :=
  x0 <- ld buf a i ;;
  x1 <- ld buf a (i + 1) ;;
  x2 <- ld buf a (i + 2) ;;
  x3 <- ld buf a (i + 3) ;;
  ret (V4 x0 x1 x2 x3).

(** [vst1q_f32(&buf[i], v)] on the output array. *)
Definition vst1q_f32 (buf : string) (i : N) (v : float32x4_t) : M F unit :=
  st_out buf i (q0 v) ;;
  st_out buf (i + 1) (q1 v) ;;
  st_out buf (i + 2) (q2 v) ;;
  st_out buf (i + 3) (q3 v).

End Loop.

(** ** The kernels of [obj_detection_util.h] *)
Module Kernels.
Import Mem Neon F32 Loop.

(** [~3] at type [size_t]. *)
Definition not3 : N := SizeT.lnot 3.

Definition vector_distance_squared (x1 y1 x2 y2 : float32x4_t) : float32x4_t :=
  let dx := vsubq_f32 x2 x1 in
  let dy := vsubq_f32 y2 y1 in
  vaddq_f32 (vmulq_f32 dx dx) (vmulq_f32 dy dy).

(** The horizontal sum of four lanes the reductions share:
    [vadd_f32] of the low and high halves, then [vpadd_f32], lane 0. *)
Definition hsum (v : float32x4_t) : F :=
  let pair := vadd_f32 (vget_low_f32 v) (vget_high_f32 v) in
  vget_lane_f32 (vpadd_f32 pair pair) 0.

Definition weighted_average {T} (values weights : list F) (count : N) : M T F :=
  let sum_weighted := vdupq_n_f32 zero in
  let sum_weights := vdupq_n_f32 zero in
  let simd_count := SizeT.land count not3 in
  '(sum_weighted, sum_weights) <-
    for_loop 0 simd_count 4 (fun i '(sum_weighted, sum_weights) =>
      vals <- vld1q_f32 "values" values i ;;
      wts <- vld1q_f32 "weights" weights i ;;
      ret (vfmaq_f32 sum_weighted vals wts, vaddq_f32 sum_weights wts))
      (sum_weighted, sum_weights) ;;
  let weighted_sum := hsum sum_weighted in
  let weight_sum := hsum sum_weights in
  '(weighted_sum, weight_sum) <-
    for_loop simd_count count 1 (fun i '(weighted_sum, weight_sum) =>
      v <- ld "values" values i ;;
      w <- ld "weights" weights i ;;
      let weighted_sum := fadd weighted_sum (fmul v w) in
      w' <- ld "weights" weights i ;;
      ret (weighted_sum, fadd weight_sum w'))
      (weighted_sum, weight_sum) ;;
  ret (if fgt weight_sum zero then fdiv weighted_sum weight_sum else zero).

(** The in-register scan of [cumulative_sum]: three shifted additions,
    then the carry. *)
Definition scan4 (input_vec prev_sum : float32x4_t) : float32x4_t :=
  let result := input_vec in
  let result := vaddq_f32 result (vextq_f32 (vdupq_n_f32 zero) result 3) in
  let result := vaddq_f32 result (vextq_f32 (vdupq_n_f32 zero) result 2) in
  let result := vaddq_f32 result (vextq_f32 (vdupq_n_f32 zero) result 1) in
  vaddq_f32 result prev_sum.

(** The loop of [cumulative_sum]; its [else] branch ends it ([break]). *)
Fixpoint cumulative_sum_loop (fuel : nat) (input : list F) (count simd_count i : N)
    : M F unit :=
  if i <? simd_count then
    match fuel with
    | O => fault
    | S fuel' =>
        let remaining := SizeT.sub count i in
        if 4 <=? remaining then
          input_vec <- vld1q_f32 "input" input i ;;
          p0 <- ld_out "output" (SizeT.sub i 1) ;;
          p1 <- ld_out "output" (SizeT.sub i 1) ;;
          p2 <- ld_out "output" (SizeT.sub i 1) ;;
          p3 <- ld_out "output" (SizeT.sub i 1) ;;
          let prev_sum := V4 p0 p1 p2 p3 in
          vst1q_f32 "output" i (scan4 input_vec prev_sum) ;;
          cumulative_sum_loop fuel' input count simd_count (SizeT.add i 4)
        else
          for_loop i count 1 (fun j _ =>
            p <- ld_out "output" (SizeT.sub j 1) ;;
            x <- ld "input" input j ;;
            st_out "output" j (fadd p x)) tt
    end
  else ret tt.

Definition cumulative_sum (input : list F) (count : N) : M F unit :=
  if count =? 0 then ret tt
  else
    x <- ld "input" input 0 ;;
    st_out "output" 0 x ;;
    let simd_count := SizeT.add (SizeT.land (SizeT.sub count 1) not3) 1 in
    cumulative_sum_loop (N.to_nat simd_count) input count simd_count 1.

Definition speed (positions_prev positions_curr : list F) (count : N)
    (time_delta : F) : M F unit :=
  let time_inv := vdupq_n_f32 (fdiv one time_delta) in
  let simd_count := SizeT.land count not3 in
  for_loop 0 simd_count 4 (fun i _ =>
    prev <- vld1q_f32 "positions_prev" positions_prev i ;;
    curr <- vld1q_f32 "positions_curr" positions_curr i ;;
    let diff := vsubq_f32 curr prev in
    let speed := vmulq_f32 diff time_inv in
    vst1q_f32 "speeds" i speed) tt ;;
  for_loop simd_count count 1 (fun i _ =>
    c <- ld "positions_curr" positions_curr i ;;
    p <- ld "positions_prev" positions_prev i ;;
    st_out "speeds" i (fdiv (fsub c p) time_delta)) tt.

Definition moving_average_filter (input : list F) (count window_size : N)
    : M F unit :=
  if (window_size =? 0) || (count =? 0) then ret tt
  else
    let scale := fdiv one (of_N window_size) in
    let scale_vec := vdupq_n_f32 scale in
    for_loop 0 count 1 (fun i _ =>
      let start :=
        if window_size <=? i then SizeT.add (SizeT.sub i window_size) 1 else 0 in
      let end_ := SizeT.add i 1 in
      let actual_window := SizeT.sub end_ start in
      let sum := vdupq_n_f32 zero in
      let simd_end := SizeT.add start (SizeT.land actual_window not3) in
      '(j, sum) <- for_idx start simd_end 4 (fun j sum =>
                     data <- vld1q_f32 "input" input j ;;
                     ret (vaddq_f32 sum data)) sum ;;
      let total := hsum sum in
      total <- for_loop j end_ 1 (fun j total =>
                 x <- ld "input" input j ;;
                 ret (fadd total x)) total ;;
      st_out "output" i (fdiv total (of_N actual_window))) tt.

(** The scalar pass of [min_index] over the four lane candidates, lane
    0 to lane 3: [values] and [indices] are the stored registers,
    [collapse_body] is one round of the loop. *)
Definition collapse_body (values : float32x4_t) (indices : uint32x4_t)
    (acc : F * N) (i : nat) : F * N :=
  let '(min_val, min_idx) := acc in
  if flt (lane4 values i) min_val
  then (lane4 values i, lane4 indices i)
  else (min_val, min_idx).

Definition collapse (values : float32x4_t) (indices : uint32x4_t)
    (acc : F * N) : F * N :=
  foldl (collapse_body values indices) acc [0; 1; 2; 3]%nat.

Definition min_index {T} (array : list F) (count : N) : M T N :=
  if count =? 0 then ret 0
  else
    min_val <- ld "array" array 0 ;;
    let min_idx := 0 in
    let simd_count := SizeT.land count not3 in
    '(min_val, min_idx) <-
      (if 4 <=? simd_count then
         min_vec <- vld1q_f32 "array" array 0 ;;
         let idx_vec := V4 0 1 2 3 in
         let min_idx_vec := idx_vec in
         '(min_vec, min_idx_vec) <-
           for_loop 4 simd_count 4 (fun i '(min_vec, min_idx_vec) =>
             data <- vld1q_f32 "array" array i ;;
             let curr_idx :=
               V4 (SizeT.to_u32 i) (SizeT.to_u32 (SizeT.add i 1))
                  (SizeT.to_u32 (SizeT.add i 2)) (SizeT.to_u32 (SizeT.add i 3)) in
             let mask := vcltq_f32 data min_vec in
             ret (vbslq_f32 mask data min_vec,
                  vbslq_u32 mask curr_idx min_idx_vec))
             (min_vec, min_idx_vec) ;;
         ret (collapse min_vec min_idx_vec (min_val, min_idx))
       else ret (min_val, min_idx)) ;;
    '(_, min_idx) <-
      for_loop simd_count count 1 (fun i '(min_val, min_idx) =>
        x <- ld "array" array i ;;
        if flt x min_val then
          x' <- ld "array" array i ;;
          ret (x', i)
        else ret (min_val, min_idx))
        (min_val, min_idx) ;;
    ret min_idx.

Definition cross_correlation {T} (signal1 signal2 : list F) (length : N) : M T F :=
  let sum := vdupq_n_f32 zero in
  let simd_count := SizeT.land length not3 in
  sum <- for_loop 0 simd_count 4 (fun i sum =>
           s1 <- vld1q_f32 "signal1" signal1 i ;;
           s2 <- vld1q_f32 "signal2" signal2 i ;;
           ret (vfmaq_f32 sum s1 s2)) sum ;;
  let result := hsum sum in
  for_loop simd_count length 1 (fun i result =>
    x <- ld "signal1" signal1 i ;;
    y <- ld "signal2" signal2 i ;;
    ret (fadd result (fmul x y))) result.

Definition exp_moving_average (input : list F) (count : N) (alpha : F) : M F unit :=
  if count =? 0 then ret tt
  else
    let alpha_vec := vdupq_n_f32 alpha in
    let one_minus_alpha := vdupq_n_f32 (fsub one alpha) in
    x <- ld "input" input 0 ;;
    st_out "output" 0 x ;;
    for_loop 1 count 1 (fun i _ =>
      x <- ld "input" input i ;;
      p <- ld_out "output" (SizeT.sub i 1) ;;
      st_out "output" i (fadd (fmul alpha x) (fmul (fsub one alpha) p))) tt.

(** [lane ? 1 : 0] on a byte lane. *)
Definition flag (x : N) : N := if x =? 0 then 0 else 1.

Definition threshold_detection (sensor_data : list F) (count : N) (threshold : F)
    : M N unit :=
  let thresh_vec := vdupq_n_f32 threshold in
  let simd_count := SizeT.land count not3 in
  for_loop 0 simd_count 4 (fun i _ =>
    data <- vld1q_f32 "sensor_data" sensor_data i ;;
    let mask := vcgtq_f32 data thresh_vec in
    let mask16 := vmovn_u32 mask in
    let mask8 := vmovn_u16 (vcombine_u16 mask16 (vdup_n_u16 0)) in
    st_out "detections" i (flag (vget_lane_u8 mask8 0)) ;;
    st_out "detections" (SizeT.add i 1) (flag (vget_lane_u8 mask8 1)) ;;
    st_out "detections" (SizeT.add i 2) (flag (vget_lane_u8 mask8 2)) ;;
    st_out "detections" (SizeT.add i 3) (flag (vget_lane_u8 mask8 3))) tt ;;
  for_loop simd_count count 1 (fun i _ =>
    x <- ld "sensor_data" sensor_data i ;;
    st_out "detections" i (if fgt x threshold then 1 else 0)) tt.

End Kernels.

(** * The vocabulary of the properties *)
Module Spec.
Import Mem Neon F32 Loop Kernels.

(** [post m s Q]: from [s] the computation [m] ends without a fault, in
    a result and a state that satisfy [Q]. *)
Definition post {T A} (m : M T A) (s : state T) (Q : A -> state T -> Prop) : Prop :=
  exists a s', m s = Some (a, s') /\ Q a s'.

(** The state of a kernel that has no output array. *)
Definition nothing : state unit := State [] [].

(** The outcome of comparing through a middle value. *)
Definition le_lt (c1 c2 : comparison) : comparison :=
  match c1, c2 with Eq, Eq => Eq | _, _ => Lt end.

(** [a[i]] in a statement; outside the array the value is irrelevant. *)
Definition get (a : list F) (i : N) : F := default nan (a !! N.to_nat i).
Definition block (a : list F) (i : N) : float32x4_t :=
  V4 (get a i) (get a (i + 1)) (get a (i + 2)) (get a (i + 3)).

(** [n] rounds of an accumulation over the indices [i], [i + step], ... *)
Fixpoint rounds {A} (f : N -> A -> A) (n : nat) (i step : N) (acc : A) : A :=
  match n with
  | O => acc
  | S n' => rounds f n' (i + step) step (f i acc)
  end.

(** The accumulators of [weighted_average]: four lane sums over the
    full groups, reduced, then the remaining elements one by one. *)
Definition lane_sums (values weights : list F) (count : N)
    : float32x4_t * float32x4_t :=
  rounds (fun i '(sum_weighted, sum_weights) =>
            (vfmaq_f32 sum_weighted (block values i) (block weights i),
             vaddq_f32 sum_weights (block weights i)))
         (N.to_nat (count / 4)) 0 4 (vdupq_n_f32 zero, vdupq_n_f32 zero).

Definition totals (values weights : list F) (count : N) : F * F :=
  let '(sum_weighted, sum_weights) := lane_sums values weights count in
  rounds (fun i '(weighted_sum, weight_sum) =>
            (fadd weighted_sum (fmul (get values i) (get weights i)),
             fadd weight_sum (get weights i)))
         (N.to_nat (count mod 4)) (4 * (count / 4)) 1
         (hsum sum_weighted, hsum sum_weights).

Definition weighted_sum (values weights : list F) (count : N) : F :=
  fst (totals values weights count).
Definition weight_sum (values weights : list F) (count : N) : F :=
  snd (totals values weights count).

(** A register with a NaN in some lane. *)
Definition has_nan (v : float32x4_t) : bool :=
  is_nan (q0 v) || is_nan (q1 v) || is_nan (q2 v) || is_nan (q3 v).

(** The value [weighted_average] returns for given totals. *)
Definition guarded_quotient (weighted_sum weight_sum : F) : F :=
  if fgt weight_sum zero then fdiv weighted_sum weight_sum else zero.

(** What the specification says [weighted_average] returns: 0 for a
    total at most 0, 0 for no elements, otherwise the quotient. *)
Definition zero_fallback_claim (values weights : list F) (count : N) : Prop :=
  forall r s',
    weighted_average values weights count nothing = Some (r, s') ->
    (fle (weight_sum values weights count) zero = true -> r = zero) /\
    (count = 0 -> r = zero) /\
    (fle (weight_sum values weights count) zero = false -> count <> 0 ->
     r = fdiv (weighted_sum values weights count) (weight_sum values weights count)).

(** A 0/1 flag. *)
Definition b2n (b : bool) : N := if b then 1 else 0.

(** No NaN among the first [count] elements. *)
Definition no_nan (a : list F) (count : N) : Prop :=
  forall j x, j < count -> a !! N.to_nat j = Some x -> is_nan x = false.

(** [a[p]] is a minimum of [a[0..count)]. *)
Definition is_min_at (a : list F) (count p : N) : Prop :=
  p < count /\
  exists v, a !! N.to_nat p = Some v /\
            forall j y, j < count -> a !! N.to_nat j = Some y -> fle v y = true.

(** The order in which [min_index] prefers equal candidates: the
    elements below [simd] lane by lane (index modulo 4), then the tail;
    within a lane and within the tail, by index. *)
Definition cls (simd j : N) : N := if j <? simd then j mod 4 else 4.
Definition before (simd p j : N) : Prop :=
  cls simd p < cls simd j \/ (cls simd p = cls simd j /\ p <= j).

(** [p] holds the candidate value [v], and if there is no NaN, [v] is
    least over the positions [S] and [p] is preferred among its equals. *)
Definition best (a : list F) (count simd : N) (S : N -> Prop) (p : N) (v : F)
    : Prop :=
  S p /\ p < count /\ a !! N.to_nat p = Some v /\
  (no_nan a count ->
   forall j y, S j -> a !! N.to_nat j = Some y ->
     fle v y = true /\ (fle y v = true -> before simd p j)).

(** Lane [l] after the groups below [i]: the candidate and its index,
    which the register holds in 32 bits. *)
Definition lane_ok (a : list F) (count simd i l : N) (v : F) (r : N) : Prop :=
  exists p, best a count simd (fun j => j < i /\ j mod 4 = l) p v
            /\ r = SizeT.to_u32 p.

(** A scalar candidate of the pass over the lanes. *)
Definition cand (a : list F) (count simd : N) (S : N -> Prop) (acc : F * N) : Prop :=
  exists p, best a count simd S p (fst acc) /\ snd acc = SizeT.to_u32 p.

(** The index returned for the position [p]: positions found by the
    lanes come back through a 32-bit register. *)
Definition trunc (simd p : N) : N := if p <? simd then SizeT.to_u32 p else p.

(** What the specification says of [min_index]. *)
Definition attains_min_claim (a : list F) (count : N) : Prop :=
  forall r s',
    min_index a count nothing = Some (r, s') -> is_min_at a count r.

Definition tie_break_claim (a : list F) (count : N) : Prop :=
  forall r s',
    min_index a count nothing = Some (r, s') ->
    is_min_at a count r /\ forall j, is_min_at a count j -> r <= j.

(** One step of the recurrence of [exp_moving_average]. *)
Definition ema_step (alpha x p : F) : F :=
  fadd (fmul alpha x) (fmul (fsub one alpha) p).

(** Inputs. *)
Definition floats (l : list Z) : list F := map of_Z l.

(** The array of the demonstration of [cumulative_sum]. *)
Definition demo_input : list F := floats [1; 2; 3; 4; 5; 6; 7; 8; 9; 10]%Z.

(** Two equal minima, the later one in the lower lane. *)
Definition ties_input : list F := floats [5; 1; 5; 5; 1; 5; 5; 5]%Z.

(** [n] ones, a zero at index [n], three more ones. *)
Definition big_array (n : nat) : list F := replicate n one ++ [zero; one; one; one].
Definition bigN : N := 2 ^ 32 + 4.

(** Small inputs: samples around a threshold of 3, a signal to smooth,
    an array with one minimum, values with their weights, and output
    arrays of arbitrary content. *)
Definition samples : list F := floats [1; 5; 2; 6; 3; 4]%Z.
Definition flags0 : state N := State (replicate 6 7) [].
Definition signal : list F := floats [10; 12; 11; 13]%Z.
Definition half : F := fdiv one (of_Z 2).
Definition cells (n : nat) : state F := State (replicate n nan) [].
Definition readings : list F := floats [5; 3; 8; 1; 6; 2; 9; 0; 4]%Z.
Definition marks : list F := floats [2; 4; 6; 8; 10]%Z.
Definition credits : list F := floats [1; 1; 1; 1; 2]%Z.

(** *** Vocabulary of the further properties *)

(** NaN, or a value whose sign bit is clear. *)
Definition not_negative (x : F) : bool := is_nan x || negb (sign x).
Definition all_not_negative (v : float32x4_t) : bool :=
  not_negative (q0 v) && not_negative (q1 v) && not_negative (q2 v) && not_negative (q3 v).

(** A zero or a finite number; an infinity or NaN; a zero of either sign. *)
Definition is_finite (x : F) : bool :=
  match x with S754_infinity _ | S754_nan => false | _ => true end.
Definition all_finite (v : float32x4_t) : bool :=
  is_finite (q0 v) && is_finite (q1 v) && is_finite (q2 v) && is_finite (q3 v).
Definition inf_or_nan (x : F) : bool :=
  match x with S754_infinity _ | S754_nan => true | _ => false end.
Definition is_zero (x : F) : bool :=
  match x with S754_zero _ => true | _ => false end.
Definition all_zero (v : float32x4_t) : bool :=
  is_zero (q0 v) && is_zero (q1 v) && is_zero (q2 v) && is_zero (q3 v).

(** The accumulation of [cross_correlation]: fused lane sums over the
    full groups, reduced, then the remaining products one by one. *)
Definition dot_lanes (signal1 signal2 : list F) (length : N) : float32x4_t :=
  rounds (fun i sum => vfmaq_f32 sum (block signal1 i) (block signal2 i))
         (N.to_nat (length / 4)) 0 4 (vdupq_n_f32 zero).
Definition dot (signal1 signal2 : list F) (length : N) : F :=
  rounds (fun i result => fadd result (fmul (get signal1 i) (get signal2 i)))
         (N.to_nat (length mod 4)) (4 * (length / 4)) 1
         (hsum (dot_lanes signal1 signal2 length)).

(** The window of [moving_average_filter] at index [i]: where it starts,
    the sum over its [actual_window] elements (lanes over the groups of
    four, reduced, then the rest), and the mean stored in [output[i]]. *)
Definition window_start (window_size i : N) : N :=
  if window_size <=? i then i - window_size + 1 else 0.
Definition window_total (input : list F) (start actual_window : N) : F :=
  rounds (fun j total => fadd total (get input j))
         (N.to_nat (actual_window mod 4)) (start + 4 * (actual_window / 4)) 1
         (hsum (rounds (fun j sum => vaddq_f32 sum (block input j))
                       (N.to_nat (actual_window / 4)) start 4 (vdupq_n_f32 zero))).
Definition window_mean (input : list F) (window_size i : N) : F :=
  let start := window_start window_size i in
  let actual_window := i + 1 - start in
  fdiv (window_total input start actual_window) (of_N actual_window).

(** What [speed] stores at index [i]. *)
Definition speed_at (positions_prev positions_curr : list F) (count : N)
    (time_delta : F) (i : N) : F :=
  let diff := fsub (get positions_curr i) (get positions_prev i) in
  if i <? 4 * (count / 4) then fmul diff (fdiv one time_delta)
  else fdiv diff time_delta.

(** The output of [exp_moving_average] at index [n]. *)
Fixpoint ema (alpha : F) (input : list F) (n : nat) : F :=
  match n with
  | O => get input 0
  | S n' => ema_step alpha (get input (N.of_nat n)) (ema alpha input n')
  end.

(** More small inputs: coordinates of four points, a signal with a NaN,
    weights that are all zero, an array that starts with NaN. *)
Definition xs : float32x4_t := V4 (of_Z 0) (of_Z 1) (of_Z 2) (of_Z 3).
Definition ys : float32x4_t := V4 (of_Z 4) (of_Z 5) (of_Z 6) (of_Z 7).
Definition broken : list F := [of_Z 10; nan; of_Z 11; of_Z 13].
Definition no_credits : list F := [zero; S754_zero true; zero; zero; zero].
Definition nan_first : list F := [nan; of_Z 3; of_Z 1; of_Z 2; of_Z 0].

(** A binary32 value that a sum with [+0] and a division by one give
    back: any valid value but [-0]. NaN is among them as the one NaN
    of [F]: the sum of [+0] and a NaN is a NaN, of a payload that [F]
    does not hold. *)
Definition plain (x : F) : bool :=
  is_f32 x && match x with S754_zero true => false | _ => true end.

(** [samples] with other values outside the indices 1 to 3. *)
Definition revised : list F := floats [7; 5; 2; 6; 9; 8]%Z.

End Spec.

(** * Proofs *)

(** ** [size_t] arithmetic that does not wrap *)
Module SizeTFacts.

Lemma add_small (a b : N) : a + b < SizeT.modulus -> SizeT.add a b = a + b.
Proof. intros H. unfold SizeT.add. now apply N.mod_small. Qed.

Lemma sub_small (a b : N) :
  b <= a -> a < SizeT.modulus -> SizeT.sub a b = a - b.
Proof.
  intros Hb Ha. unfold SizeT.sub.
  rewrite (N.mod_small b) by lia.
  replace (a + SizeT.modulus - b) with ((a - b) + 1 * SizeT.modulus) by lia.
  rewrite N.Div0.mod_add. apply N.mod_small. lia.
Qed.

(** [c & ~3] rounds [c] down to a multiple of four. *)
Lemma land_not3 (c : N) :
  c < SizeT.modulus -> SizeT.land c (SizeT.lnot 3) = 4 * (c / 4).
Proof.
  intros Hc. unfold SizeT.land, SizeT.lnot.
  assert (N.log2 c < 64) as Hlog.
  { destruct (N.eq_dec c 0) as [-> | Hz]; [reflexivity |].
    apply N.log2_lt_pow2; [lia | exact Hc]. }
  rewrite <- (N.ldiff_land_low c 3 64 Hlog).
  change 3 with (N.ones 2).
  rewrite N.ldiff_ones_r, N.shiftl_mul_pow2, N.shiftr_div_pow2.
  change (2 ^ 2) with 4. lia.
Qed.

Lemma to_u32_le (i : N) : SizeT.to_u32 i <= i.
Proof. unfold SizeT.to_u32. apply N.Div0.mod_le. Qed.

Lemma to_u32_small (i : N) : i < 2 ^ 32 -> SizeT.to_u32 i = i.
Proof. apply N.mod_small. Qed.

End SizeTFacts.

(** ** A total-correctness rule for every construct of [Mem] *)
Module HoareRules.
Import Mem Loop Spec SizeTFacts.

Lemma post_ret {T A} (a : A) (s : state T) Q : Q a s -> post (ret a) s Q.
Proof. intros H. exists a, s. split; [reflexivity | exact H]. Qed.

Lemma post_bind {T A B} (m : M T A) (k : A -> M T B) s Q :
  post m s (fun a s' => post (k a) s' Q) -> post (bind m k) s Q.
Proof.
  intros (a & s' & Hm & b & s'' & Hk & HQ).
  exists b, s''. unfold bind. rewrite Hm. auto.
Qed.

Lemma post_mono {T A} (m : M T A) s (Q Q' : A -> state T -> Prop) :
  post m s Q -> (forall a s', Q a s' -> Q' a s') -> post m s Q'.
Proof. intros (a & s' & Hm & HQ) H. exists a, s'. auto. Qed.

Lemma post_ld {T A} buf (a : list A) i x (s : state T) Q :
  a !! N.to_nat i = Some x -> Q x (record (Load buf i) s) -> post (ld buf a i) s Q.
Proof.
  intros Hx HQ. exists x, (record (Load buf i) s). unfold ld. rewrite Hx. auto.
Qed.

Lemma post_ld_out {T} buf i x (s : state T) Q :
  out s !! N.to_nat i = Some x -> Q x (record (Load buf i) s) ->
  post (ld_out buf i) s Q.
Proof.
  intros Hx HQ. exists x, (record (Load buf i) s). unfold ld_out. rewrite Hx. auto.
Qed.

Lemma post_st_out {T} buf i (x : T) (s : state T) Q :
  (N.to_nat i < length (out s))%nat ->
  Q tt (State (<[N.to_nat i := x]> (out s)) (log s ++ [Store buf i])) ->
  post (st_out buf i x) s Q.
Proof.
  intros Hi HQ. eexists _, _. unfold st_out.
  apply Nat.ltb_lt in Hi. rewrite Hi. auto.
Qed.

(** The loop rule: an invariant [I] kept by every round, and a loop
    variable that really advances. *)
Lemma post_for_fuel {T A} (I : N -> A -> state T -> Prop) bound step
    (body : N -> A -> M T A) :
  (forall i s st, I i s st -> i < bound ->
     post (body i s) st
          (fun s' st' => I (SizeT.add i step) s' st' /\ i < SizeT.add i step)) ->
  forall fuel i s st,
    I i s st -> (N.to_nat (bound - i) <= fuel)%nat ->
    post (for_fuel fuel i bound step body s) st
         (fun r st' => I (fst r) (snd r) st' /\ bound <= fst r).
Proof.
  intros Hbody fuel. induction fuel as [|fuel IH]; intros i s st HI Hfuel.
  - cbn [for_fuel]. destruct (N.ltb_spec i bound) as [Hlt | Hge]; [lia |].
    apply post_ret. auto.
  - cbn [for_fuel]. destruct (N.ltb_spec i bound) as [Hlt | Hge].
    + apply post_bind.
      eapply post_mono; [apply (Hbody i s st HI Hlt) |].
      intros s' st' [HI' Hadv]. apply IH; [exact HI' | lia].
    + apply post_ret. auto.
Qed.

Lemma post_for_idx {T A} (I : N -> A -> state T -> Prop) i0 bound step
    (body : N -> A -> M T A) s st :
  (forall i s st, I i s st -> i < bound ->
     post (body i s) st
          (fun s' st' => I (SizeT.add i step) s' st' /\ i < SizeT.add i step)) ->
  I i0 s st ->
  post (for_idx i0 bound step body s) st
       (fun r st' => I (fst r) (snd r) st' /\ bound <= fst r).
Proof.
  intros Hbody HI. unfold for_idx.
  apply post_for_fuel; [exact Hbody | exact HI | lia].
Qed.

Lemma post_for_loop {T A} (I : N -> A -> state T -> Prop) i0 bound step
    (body : N -> A -> M T A) s st :
  (forall i s st, I i s st -> i < bound ->
     post (body i s) st
          (fun s' st' => I (SizeT.add i step) s' st' /\ i < SizeT.add i step)) ->
  I i0 s st ->
  post (for_loop i0 bound step body s) st
       (fun s' st' => exists i', I i' s' st' /\ bound <= i').
Proof.
  intros Hbody HI. unfold for_loop. apply post_bind.
  eapply post_mono; [apply (post_for_idx I); eassumption |].
  intros [i' s'] st' [HI' Hge]. apply post_ret. exists i'. auto.
Qed.

(** A loop whose rounds compute [f] returns the [rounds] of [f]; [n]
    counts the rounds left, [R] restricts the loop variable and [P] is
    kept by every round. *)
Lemma post_for_pure {T A} (f : N -> A -> A) (n : N -> nat) (P : state T -> Prop)
    (R : N -> Prop) (body : N -> A -> M T A) bound step :
  (forall i, R i -> i < bound ->
     n i = S (n (i + step)) /\ i + step < SizeT.modulus /\ 0 < step /\ R (i + step)) ->
  (forall i, bound <= i -> n i = 0%nat) ->
  (forall i acc st, P st -> R i -> i < bound ->
     post (body i acc) st (fun acc' st' => acc' = f i acc /\ P st')) ->
  forall i0 acc0 st, P st -> R i0 ->
    post (for_loop i0 bound step body acc0) st
         (fun acc st' => acc = rounds f (n i0) i0 step acc0 /\ P st').
Proof.
  intros Hn Hend Hbody i0 acc0 st HP HR.
  eapply post_mono.
  { apply (post_for_loop
             (fun i acc st' => P st' /\ R i /\
                rounds f (n i) i step acc = rounds f (n i0) i0 step acc0)).
    - intros i acc st1 (HP1 & HR1 & Heq) Hlt.
      destruct (Hn i HR1 Hlt) as (Hs & Hadd & Hstep & HR2).
      eapply post_mono; [apply (Hbody i acc st1 HP1 HR1 Hlt) |].
      intros acc' st' [-> HP']. rewrite add_small by exact Hadd.
      split; [| lia]. split; [exact HP' |]. split; [exact HR2 |].
      rewrite <- Heq, Hs. reflexivity.
    - auto. }
  intros acc st' (i' & (HP' & _ & Heq) & Hge). cbv beta.
  rewrite (Hend i' Hge) in Heq. cbn [rounds] in Heq. auto.
Qed.

(** Four consecutive loads. *)
Lemma post_vld1q {T} buf (a : list F32.F) i x0 x1 x2 x3 (s : state T) Q :
  a !! N.to_nat i = Some x0 -> a !! N.to_nat (i + 1) = Some x1 ->
  a !! N.to_nat (i + 2) = Some x2 -> a !! N.to_nat (i + 3) = Some x3 ->
  (forall s', out s' = out s -> Q (Neon.V4 x0 x1 x2 x3) s') ->
  post (vld1q_f32 buf a i) s Q.
Proof.
  intros H0 H1 H2 H3 HQ. unfold vld1q_f32.
  apply post_bind. eapply post_ld; [exact H0 |].
  apply post_bind. eapply post_ld; [exact H1 |].
  apply post_bind. eapply post_ld; [exact H2 |].
  apply post_bind. eapply post_ld; [exact H3 |].
  apply post_ret. apply HQ. reflexivity.
Qed.

(** Four consecutive stores. *)
Lemma post_vst1q buf i v (s : state F32.F) Q :
  (N.to_nat (i + 3) < length (out s))%nat ->
  (forall lg,
     Q tt (State (<[N.to_nat (i + 3) := Neon.q3 v]>
                    (<[N.to_nat (i + 2) := Neon.q2 v]>
                       (<[N.to_nat (i + 1) := Neon.q1 v]>
                          (<[N.to_nat i := Neon.q0 v]> (out s))))) lg)) ->
  post (vst1q_f32 buf i v) s Q.
Proof.
  intros Hi HQ. unfold vst1q_f32.
  apply post_bind. apply post_st_out; [lia |].
  apply post_bind. apply post_st_out; [cbn [out]; rewrite length_insert; lia |].
  apply post_bind. apply post_st_out; [cbn [out]; rewrite !length_insert; lia |].
  apply post_st_out; [cbn [out]; rewrite !length_insert; lia |].
  cbn [out]. apply HQ.
Qed.

(** An element below the length of an array is there. *)
Lemma lookup_N {A} (a : list A) (i : N) :
  i < N.of_nat (length a) -> exists x, a !! N.to_nat i = Some x.
Proof.
  intros H. destruct (lookup_lt_is_Some_2 a (N.to_nat i)) as [x Hx]; [lia | eauto].
Qed.

Lemma get_lookup (a : list F32.F) (i : N) (x : F32.F) :
  a !! N.to_nat i = Some x -> get a i = x.
Proof. unfold get. intros ->. reflexivity. Qed.

(** A property of every element of a prefix, read by index. *)
Lemma prefix_Forall {A} (P : A -> Prop) (a : list A) (count : N) :
  Forall P (take (N.to_nat count) a) ->
  forall j x, j < count -> a !! N.to_nat j = Some x -> P x.
Proof.
  intros H j x Hj Hx.
  apply (Forall_lookup_1 P (take (N.to_nat count) a) (N.to_nat j) x H).
  rewrite lookup_take_lt by lia. exact Hx.
Qed.

End HoareRules.

(** Reads of an array after stores. *)
Ltac lookups :=
  repeat first
    [ rewrite list_lookup_insert_eq by (rewrite ?length_insert; lia)
    | rewrite list_lookup_insert_ne by lia ].

(** ** The order of binary32 values *)
Module F32Order.
Import F32 Spec.

Ltac cmp_cases :=
  repeat match goal with
    | H : context [(?a ?= ?b)%Z] |- _ => destruct (Z.compare_spec a b); cbn in H
    | H : context [Pos.compare_cont Eq ?a ?b] |- _ =>
        change (Pos.compare_cont Eq a b) with (Pos.compare a b) in H
    | H : context [(?a ?= ?b)%positive] |- _ =>
        destruct (Pos.compare_spec a b); cbn in H
    | |- context [(?a ?= ?b)%Z] => destruct (Z.compare_spec a b); cbn
    | |- context [Pos.compare_cont Eq ?a ?b] =>
        change (Pos.compare_cont Eq a b) with (Pos.compare a b)
    | |- context [(?a ?= ?b)%positive] => destruct (Pos.compare_spec a b); cbn
    end.

Lemma SFcompare_refl (x : F) : is_nan x = false -> SFcompare x x = Some Eq.
Proof.
  destruct x as [[] | [] | | [] m e]; cbn; intros H;
    try reflexivity; try discriminate;
    rewrite Z.compare_refl, Pos.compare_cont_refl; reflexivity.
Qed.

Lemma SFcompare_nan (x y : F) :
  SFcompare x y = None <-> is_nan x = true \/ is_nan y = true.
Proof.
  destruct x as [[] | [] | | [] mx ex], y as [[] | [] | | [] my ey]; cbn;
    split; intros H; try discriminate; auto; destruct H; discriminate.
Qed.

Lemma SFcompare_antisym (x y : F) :
  SFcompare y x = option_map CompOpp (SFcompare x y).
Proof.
  destruct x as [[] | [] | | [] mx ex], y as [[] | [] | | [] my ey]; cbn;
    try reflexivity; cmp_cases; subst; try reflexivity; try lia.
Qed.

Lemma SFcompare_trans (x y z : F) (c1 c2 : comparison) :
  SFcompare x y = Some c1 -> SFcompare y z = Some c2 ->
  c1 <> Gt -> c2 <> Gt -> SFcompare x z = Some (le_lt c1 c2).
Proof.
  destruct x as [[] | [] | | [] mx ex], y as [[] | [] | | [] my ey],
           z as [[] | [] | | [] mz ez]; cbn;
    intros H1 H2 N1 N2; try discriminate;
    try (injection H1 as <-); try (injection H2 as <-); try congruence;
    try reflexivity.
  all: cmp_cases; subst; try congruence; try reflexivity; try lia.
Qed.

(** What the comparison operators say about [SFcompare]. *)
Lemma flt_spec (x y : F) : flt x y = true <-> SFcompare x y = Some Lt.
Proof.
  unfold flt, SFltb. destruct (SFcompare x y) as [[] |];
    split; intros H; congruence.
Qed.

Lemma fle_spec (x y : F) :
  fle x y = true <-> SFcompare x y = Some Lt \/ SFcompare x y = Some Eq.
Proof.
  unfold fle, SFleb. destruct (SFcompare x y) as [[] |];
    split; intros H; try congruence; auto; destruct H; congruence.
Qed.

Lemma flt_irrefl (x : F) : flt x x = false.
Proof.
  destruct (flt x x) eqn:E; [| reflexivity].
  apply flt_spec in E. destruct (is_nan x) eqn:Hn.
  - assert (SFcompare x x = None) by (apply SFcompare_nan; auto). congruence.
  - rewrite (SFcompare_refl x Hn) in E. discriminate.
Qed.

Lemma fle_refl (x : F) : is_nan x = false -> fle x x = true.
Proof. intros H. apply fle_spec. right. now apply SFcompare_refl. Qed.

Lemma flt_fle (x y : F) : flt x y = true -> fle x y = true.
Proof. rewrite flt_spec, fle_spec. auto. Qed.

Lemma flt_not_fle (x y : F) : flt x y = true -> fle y x = false.
Proof.
  rewrite flt_spec. intros H. destruct (fle y x) eqn:E; [| reflexivity].
  apply fle_spec in E. rewrite (SFcompare_antisym x y), H in E.
  destruct E; discriminate.
Qed.

Lemma fle_not_flt (x y : F) : fle x y = true -> flt y x = false.
Proof.
  intros H. destruct (flt y x) eqn:E; [| reflexivity].
  apply flt_not_fle in E. congruence.
Qed.

Lemma not_flt_fle (x y : F) :
  is_nan x = false -> is_nan y = false -> flt x y = false -> fle y x = true.
Proof.
  intros Hx Hy H. apply fle_spec. rewrite (SFcompare_antisym x y).
  destruct (SFcompare x y) as [[] |] eqn:E; cbn; auto.
  - apply flt_spec in E. congruence.
  - apply SFcompare_nan in E. destruct E; congruence.
Qed.

Lemma fle_trans (x y z : F) : fle x y = true -> fle y z = true -> fle x z = true.
Proof.
  rewrite !fle_spec. intros [H1 | H1] [H2 | H2];
    rewrite (SFcompare_trans x y z _ _ H1 H2) by discriminate; cbn; auto.
Qed.

Lemma flt_fle_trans (x y z : F) :
  flt x y = true -> fle y z = true -> flt x z = true.
Proof.
  rewrite !flt_spec, fle_spec. intros H1 [H2 | H2];
    rewrite (SFcompare_trans x y z _ _ H1 H2) by discriminate; reflexivity.
Qed.

(** Values that compare equal are not strictly ordered. *)
Lemma feq_not_gt (x y : F) : SFeqb x y = true -> fgt x y = false.
Proof.
  unfold SFeqb, fgt. intros H.
  destruct (SFcompare x y) as [[] |] eqn:E; try discriminate.
  destruct (SFltb y x) eqn:L; [| reflexivity].
  apply flt_spec in L. rewrite (SFcompare_antisym x y), E in L. discriminate.
Qed.

End F32Order.

(** ** Empty input *)
Module EmptyInput.
Import Mem F32 Kernels.

(** C4. Every kernel called with [count = 0] ends in the state it
    started from: no element is loaded, none is stored, nothing faults;
    [weighted_average] and [cross_correlation] return [+0],
    [min_index] returns the index 0, and the five others return
    nothing. *)
Theorem count_zero_is_noop :
  (forall T values weights (s : state T),
      weighted_average values weights 0 s = Some (zero, s)) /\
  (forall T signal1 signal2 (s : state T),
      cross_correlation signal1 signal2 0 s = Some (zero, s)) /\
  (forall T array (s : state T), min_index array 0 s = Some (0, s)) /\
  (forall input s, cumulative_sum input 0 s = Some (tt, s)) /\
  (forall positions_prev positions_curr time_delta s,
      speed positions_prev positions_curr 0 time_delta s = Some (tt, s)) /\
  (forall input window_size s,
      moving_average_filter input 0 window_size s = Some (tt, s)) /\
  (forall input alpha s, exp_moving_average input 0 alpha s = Some (tt, s)) /\
  (forall sensor_data threshold s,
      threshold_detection sensor_data 0 threshold s = Some (tt, s)).
Proof.
  repeat split; intros; try reflexivity.
  unfold moving_average_filter. rewrite orb_true_r. reflexivity.
Qed.

End EmptyInput.

(** ** [threshold_detection] *)
Module Threshold.
Import Mem Neon F32 Loop Kernels Spec HoareRules SizeTFacts F32Order.

(** The four flags a full group stores. *)
Lemma flag_lanes (x0 x1 x2 x3 t : F) :
  let mask8 := vmovn_u16 (vcombine_u16
                 (vmovn_u32 (vcgtq_f32 (V4 x0 x1 x2 x3) (vdupq_n_f32 t)))
                 (vdup_n_u16 0)) in
  flag (vget_lane_u8 mask8 0) = b2n (fgt x0 t) /\
  flag (vget_lane_u8 mask8 1) = b2n (fgt x1 t) /\
  flag (vget_lane_u8 mask8 2) = b2n (fgt x2 t) /\
  flag (vget_lane_u8 mask8 3) = b2n (fgt x3 t).
Proof.
  cbn. destruct (fgt x0 t), (fgt x1 t), (fgt x2 t), (fgt x3 t);
    repeat split; reflexivity.
Qed.

(** C6. For [count] samples and an output array of at least [count]
    flags, [threshold_detection] ends without a fault and
    [detections[i]] is 1 if [sensor_data[i] > threshold] and 0
    otherwise, for every [i < count], in the groups of four and in the
    tail alike; a sample equal to the threshold gives 0. *)
Theorem threshold_detection_strict
    (sensor_data : list F) (threshold : F) (count : N) (s : state N) :
  count < SizeT.modulus ->
  count <= N.of_nat (length sensor_data) ->
  count <= N.of_nat (length (out s)) ->
  exists s',
    threshold_detection sensor_data count threshold s = Some (tt, s') /\
    length (out s') = length (out s) /\
    forall i x, i < count -> sensor_data !! N.to_nat i = Some x ->
      out s' !! N.to_nat i = Some (if fgt x threshold then 1 else 0) /\
      (SFeqb x threshold = true -> out s' !! N.to_nat i = Some 0).
Proof.
  intros Hc Hin Hout.
  set (written (i : N) (st : state N) :=
         length (out st) = length (out s) /\
         forall j x, j < i -> sensor_data !! N.to_nat j = Some x ->
           out st !! N.to_nat j = Some (b2n (fgt x threshold))).
  assert (post (threshold_detection sensor_data count threshold) s
            (fun _ st => written count st)) as (u & s' & Hrun & Hlen & Hall).
  { unfold threshold_detection, not3. rewrite land_not3 by exact Hc.
    apply post_bind.
    eapply post_mono.
    { apply (post_for_loop
               (fun i (_ : unit) st =>
                  (exists k, i = 4 * k) /\ i <= 4 * (count / 4) /\ written i st)).
      - intros i [] st ([k ->] & Hle & Hl & Hw) Hlt.
        destruct (lookup_N sensor_data (4 * k)) as [x0 H0]; [lia |].
        destruct (lookup_N sensor_data (4 * k + 1)) as [x1 H1]; [lia |].
        destruct (lookup_N sensor_data (4 * k + 2)) as [x2 H2]; [lia |].
        destruct (lookup_N sensor_data (4 * k + 3)) as [x3 H3]; [lia |].
        apply post_bind. eapply post_vld1q; [eassumption .. |].
        intros st1 Hst1.
        destruct (flag_lanes x0 x1 x2 x3 threshold) as (F0 & F1 & F2 & F3).
        cbv zeta in F0, F1, F2, F3. rewrite F0, F1, F2, F3.
        rewrite !add_small by (unfold SizeT.modulus in *; lia).
        apply post_bind. apply post_st_out; [rewrite Hst1; lia |].
        apply post_bind.
        apply post_st_out; [cbn [out]; rewrite length_insert, Hst1; lia |].
        apply post_bind.
        apply post_st_out; [cbn [out]; rewrite !length_insert, Hst1; lia |].
        apply post_st_out; [cbn [out]; rewrite !length_insert, Hst1; lia |].
        split; [| lia].
        split; [exists (k + 1); lia |]. split; [lia |].
        unfold written. cbn [out]. rewrite Hst1.
        split; [rewrite !length_insert; exact Hl |].
        intros j x Hj Hx.
        assert (j < 4 * k \/ j = 4 * k \/ j = 4 * k + 1 \/
                j = 4 * k + 2 \/ j = 4 * k + 3)
          as [Hlo | [-> | [-> | [-> | ->]]]] by lia.
        + lookups. apply Hw; assumption.
        + lookups. congruence.
        + lookups. congruence.
        + lookups. congruence.
        + lookups. congruence.
      - split; [exists 0; lia |]. split; [lia |]. split; [reflexivity |].
        intros j x Hj. lia. }
    intros [] st (i' & ([k ->] & Hle & Hw) & Hge). cbv beta.
    assert (4 * k = 4 * (count / 4)) as Hk by lia. rewrite Hk in Hw.
    eapply post_mono.
    { apply (post_for_loop
               (fun i (_ : unit) st =>
                  4 * (count / 4) <= i /\ i <= count /\ written i st)).
      - intros i [] st1 (Hlo & Hhi & Hl & Hw1) Hlt.
        destruct (lookup_N sensor_data i) as [x Hx]; [lia |].
        apply post_bind. eapply post_ld; [exact Hx |].
        apply post_st_out; [cbn [out record]; lia |].
        rewrite !add_small by (unfold SizeT.modulus in *; lia).
        split; [| lia]. split; [lia |]. split; [lia |].
        unfold written. cbn [out record].
        split; [rewrite length_insert; exact Hl |].
        intros j y Hj Hy.
        assert (j < i \/ j = i) as [Hlo' | ->] by lia.
        + lookups. apply Hw1; assumption.
        + lookups. replace y with x by congruence.
          destruct (fgt x threshold); reflexivity.
      - split; [lia |]. split; [lia |]. exact Hw. }
    intros [] st2 (i2 & (Hlo & Hhi & Hw2) & Hge2). cbv beta.
    assert (i2 = count) as -> by lia. exact Hw2. }
  destruct u. exists s'. split; [exact Hrun |]. split; [exact Hlen |].
  intros i x Hi Hx. rewrite (Hall i x Hi Hx). split; [reflexivity |].
  intros Heq. rewrite (feq_not_gt _ _ Heq). reflexivity.
Qed.

Lemma threshold_detection_strict_witness :
  6 < SizeT.modulus /\
  6 <= N.of_nat (length samples) /\
  6 <= N.of_nat (length (out flags0)) /\
  exists s',
    threshold_detection samples 6 (of_Z 3) flags0 = Some (tt, s') /\
    length (out s') = length (out flags0) /\
    forall i x, i < 6 -> samples !! N.to_nat i = Some x ->
      out s' !! N.to_nat i = Some (if fgt x (of_Z 3) then 1 else 0) /\
      (SFeqb x (of_Z 3) = true -> out s' !! N.to_nat i = Some 0).
Proof.
  split; [reflexivity |].
  split; [vm_compute; discriminate |].
  split; [vm_compute; discriminate |].
  apply (threshold_detection_strict samples (of_Z 3) 6 flags0).
  - reflexivity.
  - vm_compute; discriminate.
  - vm_compute; discriminate.
Defined.

(** The example of the specification: samples 1, 5, 2, 6 against 3. *)
Example threshold_boundary_example :
  exists lg,
    threshold_detection (floats [1; 5; 2; 6]%Z) 4 (of_Z 3) (State [9; 9; 9; 9] [])
    = Some (tt, State [0; 1; 0; 1] lg).
Proof. eexists. vm_compute. reflexivity. Qed.

End Threshold.

(** ** [exp_moving_average] *)
Module Ema.
Import Mem Neon F32 Loop Kernels Spec HoareRules SizeTFacts.

(** C8. For any [alpha] whatever, [exp_moving_average] on no element
    changes nothing, and on [count >= 1] elements it ends without a
    fault with [output[0] = input[0]] and, for [1 <= i < count],
    [output[i] = alpha * input[i] + (1 - alpha) * output[i-1]]. *)
Theorem exp_moving_average_recurrence
    (input : list F) (count : N) (alpha : F) (s : state F) :
  count < SizeT.modulus ->
  count <= N.of_nat (length input) ->
  count <= N.of_nat (length (out s)) ->
  (count = 0 -> exp_moving_average input count alpha s = Some (tt, s)) /\
  (1 <= count ->
   exists s',
     exp_moving_average input count alpha s = Some (tt, s') /\
     length (out s') = length (out s) /\
     out s' !! 0%nat = input !! 0%nat /\
     forall i x p, 1 <= i -> i < count ->
       input !! N.to_nat i = Some x -> out s' !! N.to_nat (i - 1) = Some p ->
       out s' !! N.to_nat i
       = Some (fadd (fmul alpha x) (fmul (fsub one alpha) p))).
Proof.
  intros Hc Hin Hout. split; [intros ->; reflexivity |]. intros Hpos.
  set (filled (i : N) (st : state F) :=
         length (out st) = length (out s) /\
         out st !! 0%nat = input !! 0%nat /\
         forall j x p, 1 <= j -> j < i ->
           input !! N.to_nat j = Some x -> out st !! N.to_nat (j - 1) = Some p ->
           out st !! N.to_nat j = Some (ema_step alpha x p)).
  assert (post (exp_moving_average input count alpha) s
            (fun _ st => filled count st))
    as ([] & s' & Hrun & Hfilled).
  { unfold exp_moving_average. destruct (N.eqb_spec count 0) as [? | _]; [lia |].
    destruct (lookup_N input 0) as [x0 H0]; [lia |].
    apply post_bind. eapply post_ld; [exact H0 |].
    apply post_bind. apply post_st_out; [cbn [out record]; lia |].
    eapply post_mono.
    { apply (post_for_loop
               (fun i (_ : unit) st => 1 <= i /\ i <= count /\ filled i st)).
      - intros i [] st (Hlo & Hhi & Hl & Hz & Hrec) Hlt.
        destruct (lookup_N input i) as [x Hx]; [lia |].
        destruct (lookup_N (out st) (i - 1)) as [p Hp]; [lia |].
        apply post_bind. eapply post_ld; [exact Hx |].
        rewrite sub_small by (unfold SizeT.modulus in *; lia).
        apply post_bind. eapply post_ld_out; [exact Hp |].
        apply post_st_out; [cbn [out record]; lia |].
        rewrite add_small by (unfold SizeT.modulus in *; lia).
        split; [| lia]. split; [lia |]. split; [lia |].
        unfold filled. cbn [out record].
        split; [rewrite length_insert; exact Hl |].
        split; [rewrite list_lookup_insert_ne by lia; exact Hz |].
        intros j y q Hj1 Hj Hy Hq.
        assert (j < i \/ j = i) as [Hji | ->] by lia.
        + rewrite list_lookup_insert_ne in Hq by lia. lookups.
          apply (Hrec j y q); assumption.
        + rewrite list_lookup_insert_ne in Hq by lia. lookups.
          unfold ema_step. congruence.
      - split; [lia |]. split; [lia |].
        unfold filled. cbn [out record].
        split; [rewrite length_insert; reflexivity |].
        split; [change (N.to_nat 0) with 0%nat in *; lookups; congruence |].
        intros j x p Hj1 Hj. lia. }
    intros [] st (i' & (Hlo & Hhi & Hf) & Hge). assert (i' = count) as -> by lia.
    exact Hf. }
  exists s'. split; [exact Hrun |]. exact Hfilled.
Qed.

Lemma exp_moving_average_recurrence_witness :
  4 < SizeT.modulus /\
  4 <= N.of_nat (length signal) /\
  4 <= N.of_nat (length (out (cells 4))) /\
  (4 = 0 -> exp_moving_average signal 4 half (cells 4) = Some (tt, cells 4)) /\
  (1 <= 4 ->
   exists s',
     exp_moving_average signal 4 half (cells 4) = Some (tt, s') /\
     length (out s') = length (out (cells 4)) /\
     out s' !! 0%nat = signal !! 0%nat /\
     forall i x p, 1 <= i -> i < 4 ->
       signal !! N.to_nat i = Some x -> out s' !! N.to_nat (i - 1) = Some p ->
       out s' !! N.to_nat i
       = Some (fadd (fmul half x) (fmul (fsub one half) p))).
Proof.
  split; [reflexivity |].
  split; [vm_compute; discriminate |].
  split; [vm_compute; discriminate |].
  apply (exp_moving_average_recurrence signal 4 half (cells 4)).
  - reflexivity.
  - vm_compute; discriminate.
  - vm_compute; discriminate.
Defined.

(** The signal 10, 12, 11, 13 smoothed with [alpha = 1/2]. *)
Example exp_moving_average_example :
  exists lg,
    exp_moving_average signal 4 half (cells 4)
    = Some (tt, State [of_Z 10; of_Z 11; of_Z 11; of_Z 12] lg).
Proof. eexists. vm_compute. reflexivity. Qed.

End Ema.

(** ** [weighted_average] *)
Module WeightedAverage.
Import Mem Neon F32 Loop Kernels Spec HoareRules SizeTFacts F32Order.

(** The kernel loads only elements below [count], stores nothing, and
    returns the guarded quotient of the totals it accumulated. *)
Lemma weighted_average_result {T}
    (values weights : list F) (count : N) (s : state T) :
  count < SizeT.modulus ->
  count <= N.of_nat (length values) ->
  count <= N.of_nat (length weights) ->
  exists s',
    weighted_average values weights count s
    = Some (guarded_quotient (weighted_sum values weights count)
                             (weight_sum values weights count), s')
    /\ out s' = out s.
Proof.
  intros Hc Hv Hw.
  assert (post (weighted_average values weights count) s
            (fun r st => r = guarded_quotient (weighted_sum values weights count)
                                              (weight_sum values weights count)
                         /\ out st = out s))
    as (r & s' & Hrun & -> & Hout); [| eauto].
  unfold weighted_average, not3. rewrite land_not3 by exact Hc.
  apply post_bind. eapply post_mono.
  { apply (post_for_pure
             (fun i '(sum_weighted, sum_weights) =>
                (vfmaq_f32 sum_weighted (block values i) (block weights i),
                 vaddq_f32 sum_weights (block weights i)))
             (fun i => N.to_nat ((4 * (count / 4) - i + 3) / 4))
             (fun st => out st = out s) (fun i => i mod 4 = 0)).
    - intros i Hi Hlt. unfold SizeT.modulus in *. lia.
    - intros i Hge. lia.
    - intros i [sw ws] st Ho Hi Hlt.
      destruct (lookup_N values i) as [x0 X0]; [lia |].
      destruct (lookup_N values (i + 1)) as [x1 X1]; [lia |].
      destruct (lookup_N values (i + 2)) as [x2 X2]; [lia |].
      destruct (lookup_N values (i + 3)) as [x3 X3]; [lia |].
      destruct (lookup_N weights i) as [w0 W0]; [lia |].
      destruct (lookup_N weights (i + 1)) as [w1 W1]; [lia |].
      destruct (lookup_N weights (i + 2)) as [w2 W2]; [lia |].
      destruct (lookup_N weights (i + 3)) as [w3 W3]; [lia |].
      apply post_bind. eapply post_vld1q; [eassumption .. |]. intros st1 H1.
      apply post_bind. eapply post_vld1q; [eassumption .. |]. intros st2 H2.
      apply post_ret. unfold block.
      rewrite (get_lookup _ _ _ X0), (get_lookup _ _ _ X1), (get_lookup _ _ _ X2),
        (get_lookup _ _ _ X3), (get_lookup _ _ _ W0), (get_lookup _ _ _ W1),
        (get_lookup _ _ _ W2), (get_lookup _ _ _ W3).
      split; [reflexivity | congruence].
    - reflexivity.
    - reflexivity. }
  intros [sw ws] st1 [Hacc Ho1]. cbv beta.
  replace (N.to_nat ((4 * (count / 4) - 0 + 3) / 4))
    with (N.to_nat (count / 4)) in Hacc by lia.
  apply post_bind. eapply post_mono.
  { apply (post_for_pure
             (fun i '(weighted_sum, weight_sum) =>
                (fadd weighted_sum (fmul (get values i) (get weights i)),
                 fadd weight_sum (get weights i)))
             (fun i => N.to_nat (count - i))
             (fun st => out st = out s) (fun i => 4 * (count / 4) <= i)).
    - intros i Hi Hlt. unfold SizeT.modulus in *. lia.
    - intros i Hge. lia.
    - intros i [a b] st Ho Hi Hlt.
      destruct (lookup_N values i) as [x X]; [lia |].
      destruct (lookup_N weights i) as [w W]; [lia |].
      apply post_bind. eapply post_ld; [exact X |].
      apply post_bind. eapply post_ld; [exact W |].
      apply post_bind. eapply post_ld; [exact W |].
      apply post_ret. rewrite (get_lookup _ _ _ X), (get_lookup _ _ _ W).
      split; [reflexivity | exact Ho].
    - exact Ho1.
    - lia. }
  intros [a b] st2 [Hacc2 Ho2]. cbv beta. apply post_ret.
  split; [| exact Ho2].
  replace (N.to_nat (count - 4 * (count / 4)))
    with (N.to_nat (count mod 4)) in Hacc2 by lia.
  unfold guarded_quotient, weight_sum, weighted_sum, totals, lane_sums.
  fold (hsum sw) in Hacc2. fold (hsum ws) in Hacc2.
  rewrite <- Hacc. rewrite <- Hacc2. reflexivity.
Qed.

(** C5, amended. [weighted_average] ends without a fault; it returns
    the weighted sum divided by the weight total when the total is
    greater than 0, and 0 whenever the total is not greater than 0: a
    total at most 0, a NaN total, or no element at all. *)
Theorem weighted_average_fallback {T}
    (values weights : list F) (count : N) (s : state T) :
  count < SizeT.modulus ->
  count <= N.of_nat (length values) ->
  count <= N.of_nat (length weights) ->
  exists r s',
    weighted_average values weights count s = Some (r, s') /\
    (fgt (weight_sum values weights count) zero = true ->
     r = fdiv (weighted_sum values weights count) (weight_sum values weights count)) /\
    (fgt (weight_sum values weights count) zero = false -> r = zero) /\
    (fle (weight_sum values weights count) zero = true -> r = zero) /\
    (count = 0 -> r = zero).
Proof.
  intros Hc Hv Hw.
  destruct (weighted_average_result values weights count s Hc Hv Hw)
    as (s' & Hrun & _).
  eexists _, s'. split; [exact Hrun |]. unfold guarded_quotient.
  split; [intros ->; reflexivity |].
  split; [intros ->; reflexivity |].
  split.
  - intros Hle. unfold fgt. fold (flt zero (weight_sum values weights count)).
    rewrite (fle_not_flt _ _ Hle). reflexivity.
  - intros ->. reflexivity.
Qed.

Lemma weighted_average_fallback_witness :
  5 < SizeT.modulus /\
  5 <= N.of_nat (length marks) /\
  5 <= N.of_nat (length credits) /\
  exists r s',
    weighted_average marks credits 5 nothing = Some (r, s') /\
    (fgt (weight_sum marks credits 5) zero = true ->
     r = fdiv (weighted_sum marks credits 5) (weight_sum marks credits 5)) /\
    (fgt (weight_sum marks credits 5) zero = false -> r = zero) /\
    (fle (weight_sum marks credits 5) zero = true -> r = zero) /\
    (5 = 0 -> r = zero).
Proof.
  split; [reflexivity |].
  split; [vm_compute; discriminate |].
  split; [vm_compute; discriminate |].
  apply (weighted_average_fallback marks credits 5 nothing).
  - reflexivity.
  - vm_compute; discriminate.
  - vm_compute; discriminate.
Defined.

(** C5 as the specification states it fails on a NaN total: the total
    of the single weight NaN is neither at most 0 nor is the array
    empty, yet the kernel returns 0 and not the quotient, which is
    NaN. *)
Lemma weighted_average_nan_not_quotient : ~ zero_fallback_claim [one] [nan] 1.
Proof.
  intros Hclaim.
  destruct (weighted_average [one] [nan] 1 nothing) as [[r s'] |] eqn:E;
    [| vm_compute in E; discriminate].
  destruct (Hclaim r s' E) as (_ & _ & Hq).
  specialize (Hq ltac:(reflexivity) ltac:(discriminate)).
  vm_compute in E. injection E as <- _.
  vm_compute in Hq. discriminate.
Qed.

(** C10. When the accumulated weight total is NaN, [weighted_average]
    returns 0. *)
Theorem weighted_average_nan_total {T}
    (values weights : list F) (count : N) (s : state T) :
  count < SizeT.modulus ->
  count <= N.of_nat (length values) ->
  count <= N.of_nat (length weights) ->
  is_nan (weight_sum values weights count) = true ->
  exists s', weighted_average values weights count s = Some (zero, s').
Proof.
  intros Hc Hv Hw Hnan.
  destruct (weighted_average_result values weights count s Hc Hv Hw)
    as (s' & Hrun & _).
  exists s'. rewrite Hrun. unfold guarded_quotient.
  destruct (weight_sum values weights count); try discriminate.
  reflexivity.
Qed.

Lemma weighted_average_nan_total_witness :
  1 < SizeT.modulus /\
  1 <= N.of_nat (length [one]) /\
  1 <= N.of_nat (length [nan]) /\
  is_nan (weight_sum [one] [nan] 1) = true /\
  exists s', weighted_average [one] [nan] 1 nothing = Some (zero, s').
Proof.
  split; [reflexivity |].
  split; [vm_compute; discriminate |].
  split; [vm_compute; discriminate |].
  split; [reflexivity |].
  apply (weighted_average_nan_total [one] [nan] 1 nothing).
  - reflexivity.
  - vm_compute; discriminate.
  - vm_compute; discriminate.
  - reflexivity.
Defined.

(** *** A NaN weight makes the total NaN *)
Lemma fadd_nan (x y : F) :
  is_nan x = true \/ is_nan y = true -> is_nan (fadd x y) = true.
Proof.
  intros [H | H]; destruct x, y; try discriminate; reflexivity.
Qed.

Lemma hsum_nan (v : float32x4_t) : has_nan v = true -> is_nan (hsum v) = true.
Proof.
  destruct v as [x0 x1 x2 x3]. unfold has_nan, hsum. cbn.
  rewrite !orb_true_iff. intros [[[H | H] | H] | H];
    apply fadd_nan; [left | right | left | right]; apply fadd_nan; auto.
Qed.

Lemma vaddq_nan (v w : float32x4_t) :
  has_nan v = true \/ has_nan w = true -> has_nan (vaddq_f32 v w) = true.
Proof.
  destruct v as [x0 x1 x2 x3], w as [y0 y1 y2 y3]. unfold has_nan. cbn.
  rewrite !orb_true_iff.
  intros [[[[H | H] | H] | H] | [[[H | H] | H] | H]];
    [ left; left; left | left; left; right | left; right | right
    | left; left; left | left; left; right | left; right | right ];
    apply fadd_nan; auto.
Qed.

Lemma block_nan (a : list F) (i j : N) :
  i <= j -> j < i + 4 -> is_nan (get a j) = true -> has_nan (block a i) = true.
Proof.
  intros Hlo Hhi Hn. unfold has_nan, block. cbn. rewrite !orb_true_iff.
  assert (j = i \/ j = i + 1 \/ j = i + 2 \/ j = i + 3)
    as [-> | [-> | [-> | ->]]] by lia; auto.
Qed.

Section Totals.
Variables (values weights : list F).

Local Abbreviation lane_f :=
  (fun (i : N) '((sum_weighted, sum_weights) : float32x4_t * float32x4_t) =>
     (vfmaq_f32 sum_weighted (block values i) (block weights i),
      vaddq_f32 sum_weights (block weights i))).
Local Abbreviation tail_f :=
  (fun (i : N) '((weighted_sum, weight_sum) : F * F) =>
     (fadd weighted_sum (fmul (get values i) (get weights i)),
      fadd weight_sum (get weights i))).

Lemma lanes_keep_nan (n : nat) : forall i acc,
  has_nan (snd acc) = true -> has_nan (snd (rounds lane_f n i 4 acc)) = true.
Proof.
  induction n as [| n IH]; intros i [sw ws] H; [exact H |].
  cbn [rounds]. apply IH. cbn. apply vaddq_nan. auto.
Qed.

Lemma lanes_find_nan (n : nat) : forall i acc j,
  i <= j -> j < i + 4 * N.of_nat n -> is_nan (get weights j) = true ->
  has_nan (snd (rounds lane_f n i 4 acc)) = true.
Proof.
  induction n as [| n IH]; intros i [sw ws] j Hlo Hhi Hn; [lia |].
  cbn [rounds]. destruct (N.lt_ge_cases j (i + 4)) as [Hj | Hj].
  - apply lanes_keep_nan. cbn. apply vaddq_nan. right.
    now apply (block_nan weights i j).
  - apply (IH _ _ j); [exact Hj | lia | exact Hn].
Qed.

Lemma tail_keep_nan (n : nat) : forall i acc,
  is_nan (snd acc) = true -> is_nan (snd (rounds tail_f n i 1 acc)) = true.
Proof.
  induction n as [| n IH]; intros i [a b] H; [exact H |].
  cbn [rounds]. apply IH. cbn. apply fadd_nan. auto.
Qed.

Lemma tail_find_nan (n : nat) : forall i acc j,
  i <= j -> j < i + N.of_nat n -> is_nan (get weights j) = true ->
  is_nan (snd (rounds tail_f n i 1 acc)) = true.
Proof.
  induction n as [| n IH]; intros i [a b] j Hlo Hhi Hn; [lia |].
  cbn [rounds]. destruct (N.eq_dec j i) as [-> | Hne].
  - apply tail_keep_nan. cbn. apply fadd_nan. auto.
  - apply (IH _ _ j); [lia | lia | exact Hn].
Qed.

(** One NaN among the first [count] weights and the total is NaN. *)
Lemma nan_weight_nan_total (count j : N) :
  j < count -> is_nan (get weights j) = true ->
  is_nan (weight_sum values weights count) = true.
Proof.
  intros Hj Hn. unfold weight_sum, totals, lane_sums.
  destruct (rounds lane_f (N.to_nat (count / 4)) 0 4
              (vdupq_n_f32 zero, vdupq_n_f32 zero)) as [sw ws] eqn:E.
  destruct (N.lt_ge_cases j (4 * (count / 4))) as [Hlane | Htail].
  - apply tail_keep_nan. cbn [snd]. apply hsum_nan.
    replace ws with (snd (rounds lane_f (N.to_nat (count / 4)) 0 4
                            (vdupq_n_f32 zero, vdupq_n_f32 zero)))
      by (rewrite E; reflexivity).
    apply (lanes_find_nan _ _ _ j); [lia | lia | exact Hn].
  - apply (tail_find_nan _ _ _ j); [exact Htail | lia | exact Hn].
Qed.
End Totals.

(** So a NaN weight makes [weighted_average] return 0. *)
Lemma weighted_average_nan_weight {T}
    (values weights : list F) (count j : N) (s : state T) :
  count < SizeT.modulus ->
  count <= N.of_nat (length values) ->
  count <= N.of_nat (length weights) ->
  j < count -> weights !! N.to_nat j = Some nan ->
  exists s', weighted_average values weights count s = Some (zero, s').
Proof.
  intros Hc Hv Hw Hj Hnan.
  destruct (weighted_average_result values weights count s Hc Hv Hw)
    as (s' & Hrun & _).
  exists s'. rewrite Hrun. unfold guarded_quotient.
  pose proof (nan_weight_nan_total values weights count j Hj) as Htot.
  rewrite (get_lookup _ _ _ Hnan) in Htot. specialize (Htot eq_refl).
  destruct (weight_sum values weights count); try discriminate.
  reflexivity.
Qed.

(** Weights holding both infinities: the total is NaN and the result 0,
    in the tail and in the lanes. *)
Example opposite_infinities_tail :
  is_nan (weight_sum [one; one] [inf false; inf true] 2) = true /\
  exists lg, weighted_average [one; one] [inf false; inf true] 2 nothing
             = Some (zero, State [] lg).
Proof. split; [reflexivity |]. eexists. vm_compute. reflexivity. Qed.

Example opposite_infinities_lanes :
  is_nan (weight_sum [one; one; one; one] [inf false; one; one; inf true] 4) = true /\
  exists lg, weighted_average [one; one; one; one]
               [inf false; one; one; inf true] 4 nothing
             = Some (zero, State [] lg).
Proof. split; [reflexivity |]. eexists. vm_compute. reflexivity. Qed.

(** Equal positive weights give the mean: 2, 4, 6, 8 average to 5. *)
Example weighted_mean_example :
  exists lg, weighted_average (floats [2; 4; 6; 8]%Z) (floats [1; 1; 1; 1]%Z) 4 nothing
             = Some (of_Z 5, State [] lg).
Proof. eexists. vm_compute. reflexivity. Qed.

End WeightedAverage.

(** ** [min_index] *)
Module MinIndex.
Import Mem Neon F32 Loop Kernels Spec HoareRules SizeTFacts F32Order.

Lemma bsl_f32_mask (b : bool) (x y : F) :
  bsl_f32 (mask_of b) x y = if b then x else y.
Proof. destruct b; reflexivity. Qed.

Lemma bsl32_mask (b : bool) (x y : N) :
  bsl32 (mask_of b) (SizeT.to_u32 x) (SizeT.to_u32 y)
  = SizeT.to_u32 (if b then x else y).
Proof.
  unfold bsl32, SizeT.to_u32. destruct b; cbn [mask_of].
  - change (N.lnot ones32 32) with 0. rewrite N.land_0_l, N.lor_0_r.
    change ones32 with (N.ones 32). rewrite N.land_comm, N.land_ones.
    apply N.Div0.mod_mod.
  - rewrite N.land_0_l, N.lor_0_l.
    change (N.lnot 0 32) with (N.ones 32). rewrite N.land_comm, N.land_ones.
    apply N.Div0.mod_mod.
Qed.

Lemma trunc_le (simd p : N) : trunc simd p <= p.
Proof. unfold trunc. destruct (p <? simd); [apply to_u32_le | lia]. Qed.

Lemma trunc_small (simd p : N) : simd <= 2 ^ 32 -> trunc simd p = p.
Proof.
  intros H. unfold trunc. destruct (N.ltb_spec p simd); [| reflexivity].
  apply to_u32_small. lia.
Qed.

Section Scan.
Variables (a : list F) (count : N).
Hypothesis Hpos : 0 < count.
Hypothesis Hc : count < SizeT.modulus.
Hypothesis Hlen : count <= N.of_nat (length a).

Local Abbreviation simd := (4 * (count / 4)).
Local Abbreviation lok := (lane_ok a count simd).
Local Abbreviation cnd := (cand a count simd).

(** A candidate over [S] meets a candidate over positions [S2] that
    all come later in the order of preference: the strict comparison
    keeps the right one. *)
Lemma best_merge (S S2 S3 : N -> Prop) p v q w :
  best a count simd S p v -> best a count simd S2 q w ->
  (forall j, S3 j <-> S j \/ S2 j) ->
  (forall j j2, S j -> S2 j2 -> before simd j j2) ->
  best a count simd S3 (if flt w v then q else p) (if flt w v then w else v).
Proof.
  intros (Sp & Hp & Lp & Bp) (Sq & Hq & Lq & Bq) Heq Hord.
  destruct (flt w v) eqn:E.
  - split; [apply Heq; auto |]. split; [exact Hq |]. split; [exact Lq |].
    intros Hn j y Hj Ly. apply Heq in Hj. destruct Hj as [Hj | Hj].
    + destruct (Bp Hn j y Hj Ly) as [Hle _].
      pose proof (flt_fle_trans _ _ _ E Hle) as Hlt.
      split; [now apply flt_fle |].
      rewrite (flt_not_fle _ _ Hlt). discriminate.
    + exact (Bq Hn j y Hj Ly).
  - split; [apply Heq; auto |]. split; [exact Hp |]. split; [exact Lp |].
    intros Hn j y Hj Ly. apply Heq in Hj. destruct Hj as [Hj | Hj].
    + exact (Bp Hn j y Hj Ly).
    + destruct (Bq Hn j y Hj Ly) as [Hle _].
      assert (fle v w = true) as Hvw.
      { apply not_flt_fle;
          [exact (Hn q w Hq Lq) | exact (Hn p v Hp Lp) | exact E]. }
      split; [exact (fle_trans _ _ _ Hvw Hle) |].
      intros _. apply Hord; assumption.
Qed.

Lemma best_single (i : N) (x : F) :
  i < count -> a !! N.to_nat i = Some x ->
  best a count simd (fun j => j = i) i x.
Proof.
  intros Hi Hx. split; [reflexivity |]. split; [exact Hi |]. split; [exact Hx |].
  intros Hn j y -> Hy. replace y with x by congruence.
  split; [apply fle_refl; exact (Hn i x Hi Hx) |].
  intros _. right. split; [reflexivity | lia].
Qed.

(** The registers after the first load. *)
Lemma lane_init (l : N) (x : F) :
  l < 4 -> 4 <= simd -> a !! N.to_nat l = Some x -> lok 4 l x l.
Proof.
  intros Hl Hs Hx. exists l. split.
  - destruct (best_single l x) as (_ & H1 & H2 & H3); [lia | exact Hx |].
    split; [lia |]. split; [exact H1 |]. split; [exact H2 |].
    intros Hn j y [Hj Hm] Hy. assert (j = l) as -> by lia. now apply H3.
  - symmetry. apply to_u32_small. lia.
Qed.

(** One round of the lane loop, in one lane. *)
Lemma lane_step (i l n : N) (v x : F) (r : N) :
  i mod 4 = 0 -> l < 4 -> n = i + l -> i + 4 <= simd ->
  lok i l v r -> a !! N.to_nat n = Some x ->
  lok (i + 4) l (bsl_f32 (mask_of (flt x v)) x v)
      (bsl32 (mask_of (flt x v)) (SizeT.to_u32 n) r).
Proof.
  intros Hi Hl -> Hs (p & Hb & ->) Hx.
  rewrite bsl_f32_mask, bsl32_mask.
  exists (if flt x v then i + l else p). split; [| reflexivity].
  apply (best_merge (fun j => j < i /\ j mod 4 = l) (fun j => j = i + l)).
  - exact Hb.
  - apply best_single; [lia | exact Hx].
  - intros j. lia.
  - intros j j2 [Hj Hm] ->. right. unfold cls.
    destruct (N.ltb_spec j simd), (N.ltb_spec (i + l) simd); lia.
Qed.

(** One round of the pass over the lanes. *)
Lemma collapse_step (S S3 : N -> Prop) (k : N) (kn : nat) values indices acc :
  cnd S acc ->
  lok simd k (lane4 values kn) (lane4 indices kn) ->
  (forall j, S3 j <-> S j \/ (j < simd /\ j mod 4 = k)) ->
  (forall j, S j -> j = 0 \/ (j < simd /\ j mod 4 < k)) ->
  cnd S3 (collapse_body values indices acc kn).
Proof.
  intros (p & Hb & Hr) (q & Hq & Hi) Heq Hlow.
  destruct acc as [v r]. cbn [fst snd] in *. unfold collapse_body.
  exists (if flt (lane4 values kn) v then q else p). split.
  - replace (fst (if flt (lane4 values kn) v
                  then (lane4 values kn, lane4 indices kn) else (v, r)))
      with (if flt (lane4 values kn) v then lane4 values kn else v)
      by (destruct (flt (lane4 values kn) v); reflexivity).
    apply (best_merge S (fun j => j < simd /\ j mod 4 = k)); try assumption.
    intros j j2 Hj [Hj2 Hm]. unfold before, cls.
    destruct (Hlow j Hj) as [-> | [Hjs Hjm]].
    + destruct (N.ltb_spec 0 simd), (N.ltb_spec j2 simd); lia.
    + destruct (N.ltb_spec j simd), (N.ltb_spec j2 simd); lia.
  - destruct (flt (lane4 values kn) v); cbn [snd]; congruence.
Qed.

Lemma collapse_ok values indices (v0 : F) :
  4 <= simd -> a !! N.to_nat 0 = Some v0 ->
  lok simd 0 (q0 values) (q0 indices) ->
  lok simd 1 (q1 values) (q1 indices) ->
  lok simd 2 (q2 values) (q2 indices) ->
  lok simd 3 (q3 values) (q3 indices) ->
  cnd (fun j => j < simd) (collapse values indices (v0, 0)).
Proof.
  intros Hs H0 L0 L1 L2 L3. unfold collapse. cbn [foldl].
  assert (cnd (fun j => j = 0) (v0, 0)) as C0.
  { exists 0. split; [apply best_single; [exact Hpos | exact H0] | reflexivity]. }
  apply (collapse_step (fun j => j < simd /\ j mod 4 < 3) _ 3 3%nat);
    [| exact L3 | lia | lia].
  apply (collapse_step (fun j => j < simd /\ j mod 4 < 2) _ 2 2%nat);
    [| exact L2 | lia | lia].
  apply (collapse_step (fun j => j < simd /\ j mod 4 < 1) _ 1 1%nat);
    [| exact L1 | lia | lia].
  apply (collapse_step (fun j => j = 0) _ 0 0%nat); [exact C0 | exact L0 | lia | lia].
Qed.

(** One round of the tail loop. *)
Lemma tail_step (i : N) (x : F) (acc : F * N) :
  simd <= i -> i < count -> a !! N.to_nat i = Some x ->
  (exists p, best a count simd (fun j => j < i \/ j = 0) p (fst acc)
             /\ snd acc = trunc simd p) ->
  exists p, best a count simd (fun j => j < i + 1 \/ j = 0) p
              (fst (if flt x (fst acc) then (x, i) else acc))
            /\ snd (if flt x (fst acc) then (x, i) else acc) = trunc simd p.
Proof.
  intros Hlo Hhi Hx (p & Hb & Hr).
  exists (if flt x (fst acc) then i else p). split.
  - replace (fst (if flt x (fst acc) then (x, i) else acc))
      with (if flt x (fst acc) then x else fst acc)
      by (destruct (flt x (fst acc)); reflexivity).
    apply (best_merge (fun j => j < i \/ j = 0) (fun j => j = i)).
    + exact Hb.
    + apply best_single; assumption.
    + intros j. lia.
    + intros j j2 Hj ->. unfold before, cls.
      destruct (N.ltb_spec j simd), (N.ltb_spec i simd); lia.
  - destruct (flt x (fst acc)); cbn [snd]; [| exact Hr].
    unfold trunc. destruct (N.ltb_spec i simd); [lia | reflexivity].
Qed.

(** [min_index] ends without a fault and without a store, in the
    index of a position [p] below [count]; without NaN, [a[p]] is a
    minimum and [p] is the preferred one among the minima. *)
Lemma min_index_post {T} (s : state T) :
  post (min_index a count) s
       (fun r s' => out s' = out s /\
                    exists p v, r = trunc simd p /\
                                best a count simd (fun j => j < count) p v).
Proof.
  unfold min_index. destruct (N.eqb_spec count 0) as [? | _]; [lia |].
  unfold not3. rewrite land_not3 by exact Hc.
  destruct (lookup_N a 0) as [v0 H0]; [lia |].
  apply post_bind. eapply post_ld; [exact H0 |].
  apply post_bind.
  apply post_mono with
    (Q := fun acc s' => out s' = out s /\
            exists p, best a count simd (fun j => j < simd \/ j = 0) p (fst acc)
                      /\ snd acc = trunc simd p).
  - destruct (N.leb_spec 4 simd) as [Hs | Hs].
    + destruct (lookup_N a 1) as [v1 H1]; [lia |].
      destruct (lookup_N a 2) as [v2 H2]; [lia |].
      destruct (lookup_N a 3) as [v3 H3]; [lia |].
      apply post_bind. eapply (post_vld1q _ _ 0); [eassumption .. |].
      intros s1 Hs1. apply post_bind.
      eapply post_mono.
      { apply (post_for_loop
           (fun i (acc : float32x4_t * uint32x4_t) st =>
              out st = out s /\ i mod 4 = 0 /\ 4 <= i /\ i <= simd /\
              lok i 0 (q0 (fst acc)) (q0 (snd acc)) /\
              lok i 1 (q1 (fst acc)) (q1 (snd acc)) /\
              lok i 2 (q2 (fst acc)) (q2 (snd acc)) /\
              lok i 3 (q3 (fst acc)) (q3 (snd acc)))).
        - intros i [mv iv] st (Ho & Hm & Hi4 & His & L0 & L1 & L2 & L3) Hlt.
          cbn [fst snd] in *.
          assert (i + 4 <= simd) as Hnext by lia.
          destruct (lookup_N a i) as [x0 X0]; [lia |].
          destruct (lookup_N a (i + 1)) as [x1 X1]; [lia |].
          destruct (lookup_N a (i + 2)) as [x2 X2]; [lia |].
          destruct (lookup_N a (i + 3)) as [x3 X3]; [lia |].
          apply post_bind. eapply post_vld1q; [eassumption .. |].
          intros st1 Hst1. apply post_ret.
          rewrite !add_small by (unfold SizeT.modulus in *; lia).
          split; [| lia].
          cbn [fst snd vcltq_f32 vbslq_f32 vbslq_u32 zip4 zip4_3 q0 q1 q2 q3].
          split; [congruence |]. split; [lia |]. split; [lia |]. split; [lia |].
          split; [apply (lane_step i 0 i); auto; lia |].
          split; [apply (lane_step i 1 (i + 1)); auto; lia |].
          split; [apply (lane_step i 2 (i + 2)); auto; lia |].
          apply (lane_step i 3 (i + 3)); auto; lia.
        - cbn [fst snd q0 q1 q2 q3].
          split; [exact Hs1 |]. split; [reflexivity |]. split; [lia |].
          split; [exact Hs |].
          split; [apply (lane_init 0); auto; lia |].
          split; [apply (lane_init 1); auto; lia |].
          split; [apply (lane_init 2); auto; lia |].
          apply (lane_init 3); auto; lia. }
      intros [mv iv] st (i' & (Ho & Hm & Hi4 & His & L0 & L1 & L2 & L3) & Hge).
      cbn [fst snd] in *. assert (i' = simd) as -> by lia.
      apply post_ret. split; [exact Ho |].
      destruct (collapse_ok mv iv v0 Hs H0 L0 L1 L2 L3) as (p & Hb & Hr).
      exists p. split.
      * destruct Hb as (Sp & Hp & Lp & Bp).
        split; [auto |]. split; [exact Hp |]. split; [exact Lp |].
        intros Hn j y Hj Ly. apply (Bp Hn j y); [lia | exact Ly].
      * rewrite Hr. unfold trunc. destruct Hb as (Sp & _).
        destruct (N.ltb_spec p simd); [reflexivity | lia].
    + apply post_ret. split; [reflexivity |]. exists 0. cbn [fst snd]. split.
      * destruct (best_single 0 v0 Hpos H0) as (_ & B1 & B2 & B3).
        split; [auto |]. split; [exact B1 |]. split; [exact B2 |].
        intros Hn j y Hj Ly. apply (B3 Hn j y); [lia | exact Ly].
      * unfold trunc. destruct (N.ltb_spec 0 simd); [lia | reflexivity].
  - intros [v r] s1 (Ho & Hcand). cbn [fst snd] in Hcand.
    apply post_bind.
    eapply post_mono.
    { apply (post_for_loop
         (fun i (acc : F * N) st =>
            out st = out s /\ simd <= i /\ i <= count /\
            exists p, best a count simd (fun j => j < i \/ j = 0) p (fst acc)
                      /\ snd acc = trunc simd p)).
      - intros i [v' r'] st (Ho' & Hlo & Hhi & Hcand') Hlt.
        destruct (lookup_N a i) as [x Hx]; [lia |].
        apply post_bind. eapply post_ld; [exact Hx |].
        rewrite add_small by (unfold SizeT.modulus in *; lia).
        pose proof (tail_step i x (v', r') Hlo Hlt Hx Hcand') as Hstep.
        cbn [fst snd] in Hstep.
        destruct (flt x v') eqn:E.
        + apply post_bind. eapply post_ld; [exact Hx |]. apply post_ret.
          split; [| lia]. split; [exact Ho' |]. split; [lia |]. split; [lia |].
          exact Hstep.
        + apply post_ret.
          split; [| lia]. split; [exact Ho' |]. split; [lia |]. split; [lia |].
          exact Hstep.
      - split; [exact Ho |]. split; [lia |]. split; [lia |].
        exact Hcand. }
    intros [v' r'] st (i' & (Ho' & Hlo & Hhi & (p & Hb & Hr)) & Hge).
    cbn [fst snd] in *. assert (i' = count) as -> by lia.
    apply post_ret. split; [exact Ho' |]. exists p, v'. split; [exact Hr |].
    destruct Hb as (Sp & Hp & Lp & Bp).
    split; [exact Hp |]. split; [exact Hp |]. split; [exact Lp |].
    intros Hn j y Hj Ly. apply (Bp Hn j y); [lia | exact Ly].
Qed.
End Scan.

Lemma best_is_min (a : list F) (count simd p : N) (v : F) :
  no_nan a count -> best a count simd (fun j => j < count) p v ->
  is_min_at a count p /\ forall j, is_min_at a count j -> before simd p j.
Proof.
  intros Hn (_ & Hp & Lp & Bp). split.
  - split; [exact Hp |]. exists v. split; [exact Lp |].
    intros j y Hj Ly. now apply (Bp Hn j y).
  - intros j (Hj & y & Ly & Hy). apply (Bp Hn j y Hj Ly).
    now apply (Hy p v).
Qed.

(** A check of [no_nan] by evaluation. *)
Lemma no_nan_check (a : list F) (count : N) :
  forallb (fun x => negb (is_nan x)) (take (N.to_nat count) a) = true ->
  no_nan a count.
Proof.
  intros H. unfold no_nan.
  apply (prefix_Forall (fun x => is_nan x = false) a count).
  apply Forall_forall. intros x Hx.
  rewrite forallb_forall in H. apply negb_true_iff. apply H.
  apply list_elem_of_In. exact Hx.
Qed.

End MinIndex.

(** ** What [min_index] returns *)
Module MinIndexClaims.
Import Mem Neon F32 Loop Kernels Spec HoareRules SizeTFacts F32Order MinIndex.

(** C9. On a non-empty array [min_index] ends without a fault and
    returns an index below [count], whatever the values are. *)
Theorem min_index_in_range {T} (array : list F) (count : N) (s : state T) :
  0 < count -> count < SizeT.modulus -> count <= N.of_nat (length array) ->
  exists r s', min_index array count s = Some (r, s') /\ r < count.
Proof.
  intros Hpos Hc Hlen.
  destruct (min_index_post array count Hpos Hc Hlen s)
    as (r & s' & Hrun & _ & p & v & -> & _ & Hp & _).
  exists (trunc (4 * (count / 4)) p), s'. split; [exact Hrun |].
  pose proof (trunc_le (4 * (count / 4)) p). lia.
Qed.

Lemma min_index_in_range_witness :
  0 < 9 /\ 9 < SizeT.modulus /\ 9 <= N.of_nat (length readings) /\
  exists r s', min_index readings 9 nothing = Some (r, s') /\ r < 9.
Proof.
  split; [reflexivity |]. split; [reflexivity |].
  split; [vm_compute; discriminate |].
  apply (min_index_in_range readings 9 nothing).
  - reflexivity.
  - reflexivity.
  - vm_compute; discriminate.
Defined.

(** X26. On a non-empty array of fewer than [2^32 + 4] elements
    without NaN, the index [min_index] returns holds a minimum:
    [array[r] <= array[j]] for every [j < count]. Below that size every
    index the lanes can hold fits in their 32 bits. *)
Theorem min_index_attains_min {T} (array : list F) (count : N) (s : state T) :
  0 < count -> count < 2 ^ 32 + 4 -> count <= N.of_nat (length array) ->
  no_nan array count ->
  exists r s' v,
    min_index array count s = Some (r, s') /\
    r < count /\ array !! N.to_nat r = Some v /\
    forall j y, j < count -> array !! N.to_nat j = Some y -> fle v y = true.
Proof.
  intros Hpos Hc Hlen Hn.
  assert (count < SizeT.modulus) as Hc' by (unfold SizeT.modulus; lia).
  destruct (min_index_post array count Hpos Hc' Hlen s)
    as (r & s' & Hrun & _ & p & v & -> & Hb).
  rewrite trunc_small in Hrun by lia.
  destruct (best_is_min _ _ _ _ _ Hn Hb) as [(Hp & v' & Lv & Hmin) _].
  exists p, s', v'. auto.
Qed.

Lemma min_index_attains_min_witness :
  0 < 9 /\ 9 < 2 ^ 32 + 4 /\ 9 <= N.of_nat (length readings) /\
  no_nan readings 9 /\
  exists r s' v,
    min_index readings 9 nothing = Some (r, s') /\
    r < 9 /\ readings !! N.to_nat r = Some v /\
    forall j y, j < 9 -> readings !! N.to_nat j = Some y -> fle v y = true.
Proof.
  split; [reflexivity |]. split; [reflexivity |].
  split; [vm_compute; discriminate |].
  split; [apply no_nan_check; reflexivity |].
  apply (min_index_attains_min readings 9 nothing).
  - reflexivity.
  - reflexivity.
  - vm_compute; discriminate.
  - apply no_nan_check; reflexivity.
Defined.

(** C2, amended. On a non-empty array of fewer than [2^32 + 4] elements
    without NaN, [min_index] returns a position of the minimum, and
    among the positions of the minimum the one that comes first in
    this order: the elements below [count & ~3] lane by lane (index
    modulo 4), then the tail; within one lane and within the tail, the
    smallest index. *)
Theorem min_index_tie_break {T} (array : list F) (count : N) (s : state T) :
  0 < count -> count < 2 ^ 32 + 4 -> count <= N.of_nat (length array) ->
  no_nan array count ->
  exists r s',
    min_index array count s = Some (r, s') /\
    is_min_at array count r /\
    forall j, is_min_at array count j -> before (4 * (count / 4)) r j.
Proof.
  intros Hpos Hc Hlen Hn.
  assert (count < SizeT.modulus) as Hc' by (unfold SizeT.modulus; lia).
  destruct (min_index_post array count Hpos Hc' Hlen s)
    as (r & s' & Hrun & _ & p & v & -> & Hb).
  rewrite trunc_small in Hrun by lia.
  exists p, s'. split; [exact Hrun |]. exact (best_is_min _ _ _ _ _ Hn Hb).
Qed.

Lemma min_index_tie_break_witness :
  0 < 8 /\ 8 < 2 ^ 32 + 4 /\ 8 <= N.of_nat (length ties_input) /\
  no_nan ties_input 8 /\
  exists r s',
    min_index ties_input 8 nothing = Some (r, s') /\
    is_min_at ties_input 8 r /\
    forall j, is_min_at ties_input 8 j -> before (4 * (8 / 4)) r j.
Proof.
  split; [reflexivity |]. split; [reflexivity |].
  split; [vm_compute; discriminate |].
  split; [apply no_nan_check; reflexivity |].
  apply (min_index_tie_break ties_input 8 nothing).
  - reflexivity.
  - reflexivity.
  - vm_compute; discriminate.
  - apply no_nan_check; reflexivity.
Defined.

(** In 5, 1, 5, 5, 1, 5, 5, 5 the minimum 1 stands at the indices 1
    and 4. *)
Lemma ties_minima : is_min_at ties_input 8 1 /\ is_min_at ties_input 8 4.
Proof.
  split; (split; [reflexivity |]); exists (of_Z 1); (split; [reflexivity |]);
    apply (prefix_Forall (fun y => fle (of_Z 1) y = true) ties_input 8);
    repeat constructor.
Qed.

(** C2 as the specification states it fails there: index 4 is in lane
    0, index 1 in lane 1, and the pass over the lanes keeps lane 0. *)
Lemma min_index_prefers_lower_lane : ~ tie_break_claim ties_input 8.
Proof.
  intros Hclaim.
  destruct (min_index ties_input 8 nothing) as [[r s'] |] eqn:E;
    [| vm_compute in E; discriminate].
  pose proof (proj2 (Hclaim r s' E) 1 (proj1 ties_minima)) as Hle.
  vm_compute in E. injection E as <- _. lia.
Qed.

(** *** An array of more than [2^32] elements *)
Section Big.
Variable n : nat.
Hypothesis Hn : N.of_nat n = bigN.

Lemma big_length : N.of_nat (length (big_array n)) = bigN + 4.
Proof.
  unfold big_array. rewrite length_app, length_replicate. cbn [length]. lia.
Qed.

Lemma big_values j x :
  big_array n !! j = Some x -> x = one \/ (x = zero /\ j = n).
Proof.
  unfold big_array. intros H. apply lookup_app_Some in H.
  destruct H as [H | [Hge H]].
  - apply lookup_replicate in H. left. tauto.
  - rewrite length_replicate in *.
    destruct (j - n)%nat as [| [| [| [| k]]]] eqn:E; cbn in H; try discriminate;
      injection H as <-; auto. right. split; [reflexivity | lia].
Qed.

Lemma big_at_n : big_array n !! n = Some zero.
Proof.
  unfold big_array. rewrite lookup_app_r by (rewrite length_replicate; lia).
  rewrite length_replicate, Nat.sub_diag. reflexivity.
Qed.

Lemma big_at_4 : big_array n !! 4%nat = Some one.
Proof.
  unfold big_array.
  rewrite lookup_app_l by (rewrite length_replicate; unfold bigN in *; lia).
  apply lookup_replicate_2. unfold bigN in *. lia.
Qed.

Lemma big_no_nan : no_nan (big_array n) (bigN + 4).
Proof.
  intros j x _ H. destruct (big_values _ _ H) as [-> | [-> _]]; reflexivity.
Qed.

(** The only minimum is the zero at index [2^32 + 4]; the lane that
    finds it keeps the index in 32 bits, and index 4 holds a one. *)
Lemma big_refutes : ~ attains_min_claim (big_array n) (bigN + 4).
Proof.
  intros Hclaim.
  assert (0 < bigN + 4) as Hpos by (unfold bigN; lia).
  assert (bigN + 4 < SizeT.modulus) as Hc by (unfold bigN, SizeT.modulus; lia).
  assert (bigN + 4 <= N.of_nat (length (big_array n))) as Hlen
    by (rewrite big_length; lia).
  destruct (min_index_post (big_array n) (bigN + 4) Hpos Hc Hlen nothing)
    as (r & s' & Hrun & _ & p & v & -> & Hb).
  destruct (best_is_min _ _ _ _ _ big_no_nan Hb) as [(Hp & v' & Lv & Hmin) _].
  assert (p = bigN) as ->.
  { destruct (big_values _ _ Lv) as [-> | [_ E]]; [| lia].
    specialize (Hmin bigN zero). rewrite <- Hn, Nat2N.id in Hmin.
    specialize (Hmin ltac:(lia) big_at_n). discriminate Hmin. }
  specialize (Hclaim _ _ Hrun).
  change (trunc (4 * ((bigN + 4) / 4)) bigN) with 4 in Hclaim.
  destruct Hclaim as (_ & w & Lw & Hw).
  change (N.to_nat 4) with 4%nat in Lw. rewrite big_at_4 in Lw. injection Lw as <-.
  specialize (Hw bigN zero). rewrite <- Hn, Nat2N.id in Hw.
  specialize (Hw ltac:(lia) big_at_n). discriminate Hw.
Qed.
End Big.

(** The array of the counterexample is a legitimate input: [2^32 + 8]
    binary32 values, none of them NaN. *)
Lemma big_array_is_input :
  0 < bigN + 4 /\ bigN + 4 < SizeT.modulus /\
  N.of_nat (length (big_array (N.to_nat bigN))) = bigN + 4 /\
  no_nan (big_array (N.to_nat bigN)) (bigN + 4) /\
  Forall (fun x => is_f32 x = true) (big_array (N.to_nat bigN)).
Proof.
  pose proof (N2Nat.id bigN) as Hn.
  split. { reflexivity. }
  split. { reflexivity. }
  split. { apply big_length. exact Hn. }
  split. { apply big_no_nan. exact Hn. }
  apply Forall_app. split.
  - apply Forall_replicate. reflexivity.
  - repeat constructor.
Qed.

(** The property that the index returned holds a minimum fails on that
    array: the index returned is 4, and [array[4] = 1] is above
    [array[2^32 + 4] = 0]. *)
Lemma min_index_index_truncated :
  ~ attains_min_claim (big_array (N.to_nat bigN)) (bigN + 4).
Proof. apply big_refutes. apply N2Nat.id. Qed.

(** What the kernel returns on an array of [bigN + 4] ones with one
    zero at index [bigN]: the lane that finds the zero holds its index
    in 32 bits. *)
Lemma big_returns (n : nat) :
  N.of_nat n = bigN ->
  exists s', min_index (big_array n) (bigN + 4) nothing = Some (4, s').
Proof.
  intros Hn.
  assert (0 < bigN + 4) as Hpos by (unfold bigN; lia).
  assert (bigN + 4 < SizeT.modulus) as Hc by (unfold bigN, SizeT.modulus; lia).
  assert (bigN + 4 <= N.of_nat (length (big_array n))) as Hlen
    by (rewrite (big_length n Hn); lia).
  destruct (min_index_post (big_array n) (bigN + 4) Hpos Hc Hlen nothing)
    as (r & s' & Hrun & _ & p & v & -> & Hb).
  destruct (best_is_min _ _ _ _ _ (big_no_nan n Hn) Hb) as [(Hp & v' & Lv & Hmin) _].
  assert (p = bigN) as ->.
  { destruct (big_values n Hn _ _ Lv) as [-> | [_ E]]; [| lia].
    specialize (Hmin bigN zero). rewrite <- Hn, Nat2N.id in Hmin.
    specialize (Hmin ltac:(lia) (big_at_n n Hn)). discriminate Hmin. }
  change (trunc (4 * ((bigN + 4) / 4)) bigN) with 4 in Hrun.
  exists s'. exact Hrun.
Qed.

(** C7. The code departs from the claim, and from its own
    [@return Index of minimum value], on an array of [2^32 + 8] floats:
    ones everywhere and one zero at index [2^32 + 4]. The zero is the
    only minimum; lane 0 finds it and keeps its index through
    [static_cast<uint32_t>(i)], so [min_index] returns 4, where the
    array holds a one, and [1 <= 0] does not hold. The tail loop of the
    same function keeps the full [size_t] index. *)
Theorem min_index_wide_array :
  (exists s',
     min_index (big_array (N.to_nat bigN)) (bigN + 4) nothing = Some (4, s')) /\
  big_array (N.to_nat bigN) !! 4%nat = Some one /\
  big_array (N.to_nat bigN) !! N.to_nat bigN = Some zero /\
  bigN < bigN + 4 /\
  fle one zero = false.
Proof.
  pose proof (N2Nat.id bigN) as Hn.
  split; [exact (big_returns _ Hn) |].
  split; [exact (big_at_4 _ Hn) |].
  split; [exact (big_at_n _ Hn) |].
  split; [reflexivity | reflexivity].
Qed.

End MinIndexClaims.

(** ** [speed] *)
Module Speed.
Import Mem Neon F32 Loop Kernels Spec HoareRules SizeTFacts.

(** What [speed] stores: in the groups of four the difference times
    the reciprocal of [time_delta], in the tail the difference divided
    by [time_delta]. *)
Lemma speed_result
    (positions_prev positions_curr : list F) (count : N) (time_delta : F)
    (s : state F) :
  count < SizeT.modulus ->
  count <= N.of_nat (length positions_prev) ->
  count <= N.of_nat (length positions_curr) ->
  count <= N.of_nat (length (out s)) ->
  exists s',
    speed positions_prev positions_curr count time_delta s = Some (tt, s') /\
    length (out s') = length (out s) /\
    forall i c p, i < count ->
      positions_curr !! N.to_nat i = Some c ->
      positions_prev !! N.to_nat i = Some p ->
      out s' !! N.to_nat i
      = Some (if i <? 4 * (count / 4)
              then fmul (fsub c p) (fdiv one time_delta)
              else fdiv (fsub c p) time_delta).
Proof.
  intros Hc Hp Hcu Hout.
  set (val (i : N) (c p : F) :=
         if i <? 4 * (count / 4)
         then fmul (fsub c p) (fdiv one time_delta)
         else fdiv (fsub c p) time_delta).
  set (written (i : N) (st : state F) :=
         length (out st) = length (out s) /\
         forall j c p, j < i ->
           positions_curr !! N.to_nat j = Some c ->
           positions_prev !! N.to_nat j = Some p ->
           out st !! N.to_nat j = Some (val j c p)).
  assert (post (speed positions_prev positions_curr count time_delta) s
            (fun _ st => written count st)) as ([] & s' & Hrun & Hw); [| eauto].
  unfold speed, not3. rewrite land_not3 by exact Hc.
  apply post_bind.
  eapply post_mono.
  { apply (post_for_loop
             (fun i (_ : unit) st =>
                i mod 4 = 0 /\ i <= 4 * (count / 4) /\ written i st)).
    - intros i [] st (Hm & Hle & Hl & Hw) Hlt.
      destruct (lookup_N positions_prev i) as [p0 P0]; [lia |].
      destruct (lookup_N positions_prev (i + 1)) as [p1 P1]; [lia |].
      destruct (lookup_N positions_prev (i + 2)) as [p2 P2]; [lia |].
      destruct (lookup_N positions_prev (i + 3)) as [p3 P3]; [lia |].
      destruct (lookup_N positions_curr i) as [c0 C0]; [lia |].
      destruct (lookup_N positions_curr (i + 1)) as [c1 C1]; [lia |].
      destruct (lookup_N positions_curr (i + 2)) as [c2 C2]; [lia |].
      destruct (lookup_N positions_curr (i + 3)) as [c3 C3]; [lia |].
      apply post_bind. eapply post_vld1q; [eassumption .. |]. intros st1 H1.
      apply post_bind. eapply post_vld1q; [eassumption .. |]. intros st2 H2.
      apply post_vst1q; [rewrite H2, H1; lia |]. intros lg.
      rewrite add_small by (unfold SizeT.modulus in *; lia).
      split; [| lia]. split; [lia |]. split; [lia |].
      unfold written. cbn [out]. rewrite H2, H1.
      split; [rewrite !length_insert; exact Hl |].
      intros j c p Hj Hcj Hpj.
      assert (j < i \/ j = i \/ j = i + 1 \/ j = i + 2 \/ j = i + 3)
        as [Hlo | [-> | [-> | [-> | ->]]]] by lia.
      + lookups. apply Hw; assumption.
      + lookups. unfold val. destruct (N.ltb_spec i (4 * (count / 4))); [| lia].
        cbn. congruence.
      + lookups. unfold val. destruct (N.ltb_spec (i + 1) (4 * (count / 4))); [| lia].
        cbn. congruence.
      + lookups. unfold val. destruct (N.ltb_spec (i + 2) (4 * (count / 4))); [| lia].
        cbn. congruence.
      + lookups. unfold val. destruct (N.ltb_spec (i + 3) (4 * (count / 4))); [| lia].
        cbn. congruence.
    - split; [reflexivity |]. split; [lia |]. split; [reflexivity |].
      intros j c p Hj. lia. }
  intros [] st (i' & (Hm & Hle & Hw) & Hge). cbv beta.
  assert (i' = 4 * (count / 4)) as -> by lia.
  eapply post_mono.
  { apply (post_for_loop
             (fun i (_ : unit) st =>
                4 * (count / 4) <= i /\ i <= count /\ written i st)).
    - intros i [] st1 (Hlo & Hhi & Hl & Hw1) Hlt.
      destruct (lookup_N positions_curr i) as [c C]; [lia |].
      destruct (lookup_N positions_prev i) as [p P]; [lia |].
      apply post_bind. eapply post_ld; [exact C |].
      apply post_bind. eapply post_ld; [exact P |].
      apply post_st_out; [cbn [out record]; lia |].
      rewrite add_small by (unfold SizeT.modulus in *; lia).
      split; [| lia]. split; [lia |]. split; [lia |].
      unfold written. cbn [out record].
      split; [rewrite length_insert; exact Hl |].
      intros j c' p' Hj Hcj Hpj.
      assert (j < i \/ j = i) as [Hlo' | ->] by lia.
      + lookups. apply Hw1; assumption.
      + lookups. unfold val. destruct (N.ltb_spec i (4 * (count / 4))); [lia |].
        congruence.
    - split; [lia |]. split; [lia |]. exact Hw. }
  intros [] st2 (i2 & (Hlo & Hhi & Hw2) & Hge2). cbv beta.
  assert (i2 = count) as -> by lia. exact Hw2.
Qed.

(** C3. The code departs from the claim in the tail. For one position
    moving from 0 to 5 in [time_delta = 3], [speed] stores [5 / 3],
    which is not [5 * (1 / 3)]: the bit patterns are 0x3FD55555 and
    0x3FD55556. *)
Theorem speed_tail_divides :
  (exists lg,
     speed [of_Z 0] [of_Z 5] 1 (of_Z 3) (cells 1)
     = Some (tt, State [fdiv (of_Z 5) (of_Z 3)] lg)) /\
  fdiv (of_Z 5) (of_Z 3) <> fmul (fsub (of_Z 5) (of_Z 0)) (fdiv one (of_Z 3)) /\
  to_bits (fdiv (of_Z 5) (of_Z 3)) = 0x3FD55555%Z /\
  to_bits (fmul (fsub (of_Z 5) (of_Z 0)) (fdiv one (of_Z 3))) = 0x3FD55556%Z.
Proof.
  split; [eexists; vm_compute; reflexivity |].
  split; [vm_compute; discriminate |].
  split; reflexivity.
Qed.

(** Five equal moves: the four of the group and the one of the tail
    get different speeds. *)
Example speed_lanes_and_tail :
  exists lg v w,
    speed (floats [0; 0; 0; 0; 0]%Z) (floats [5; 5; 5; 5; 5]%Z) 5 (of_Z 3) (cells 5)
    = Some (tt, State [v; v; v; v; w] lg) /\ v <> w.
Proof. eexists _, _, _. split; [vm_compute; reflexivity | discriminate]. Qed.

End Speed.

(** ** [cumulative_sum] *)
Module CumulativeSum.
Import Mem Neon F32 Loop Kernels Spec HoareRules SizeTFacts.

(** The last lane of the scan in a register: after the additions
    shifted by one and by two lanes the lane holds the sum of the four
    elements, and the third addition adds the first element again. *)
Lemma scan4_last_lane (a b c d p : F) :
  q3 (scan4 (V4 a b c d) (V4 p p p p))
  = fadd (fadd (fadd (fadd d c) (fadd b a)) (fadd (fadd a zero) zero)) p.
Proof. reflexivity. Qed.

Section Loop.
Variables (input : list F) (count : N) (s : state F).
Hypothesis Hpos : 1 <= count.
Hypothesis Hc : count < SizeT.modulus.
Hypothesis Hin : count <= N.of_nat (length input).
Hypothesis Hout : count <= N.of_nat (length (out s)).

Local Abbreviation simd_count := (4 * ((count - 1) / 4) + 1).

(** The loop ends at [simd_count] without ever taking its [else]
    branch; it leaves alone element 0 and every element from
    [simd_count] on. *)
Lemma loop_post (fuel : nat) :
  forall i st,
    i mod 4 = 1 -> i <= simd_count -> (N.to_nat (simd_count - i) <= fuel)%nat ->
    length (out st) = length (out s) ->
    post (cumulative_sum_loop fuel input count simd_count i) st
         (fun _ st' =>
            length (out st') = length (out s) /\
            out st' !! 0%nat = out st !! 0%nat /\
            forall j, simd_count <= j ->
              out st' !! N.to_nat j = out st !! N.to_nat j).
Proof.
  induction fuel as [| fuel IH]; intros i st Hm Hle Hfuel Hl.
  - cbn [cumulative_sum_loop].
    destruct (N.ltb_spec i simd_count) as [Hlt | Hge]; [lia |].
    apply post_ret. auto.
  - cbn [cumulative_sum_loop].
    destruct (N.ltb_spec i simd_count) as [Hlt | Hge]; [| apply post_ret; auto].
    rewrite (sub_small count i) by lia.
    destruct (N.leb_spec 4 (count - i)) as [Hrem | Hrem]; [| lia].
    destruct (lookup_N input i) as [x0 X0]; [lia |].
    destruct (lookup_N input (i + 1)) as [x1 X1]; [lia |].
    destruct (lookup_N input (i + 2)) as [x2 X2]; [lia |].
    destruct (lookup_N input (i + 3)) as [x3 X3]; [lia |].
    destruct (lookup_N (out st) (i - 1)) as [p P]; [lia |].
    apply post_bind. eapply post_vld1q; [eassumption .. |]. intros st1 H1.
    rewrite (sub_small i 1) by lia.
    rewrite <- H1 in P.
    apply post_bind. eapply post_ld_out; [exact P |].
    apply post_bind. eapply post_ld_out; [exact P |].
    apply post_bind. eapply post_ld_out; [exact P |].
    apply post_bind. eapply post_ld_out; [exact P |].
    apply post_bind. apply post_vst1q; [cbn [out record]; rewrite H1; lia |].
    intros lg. cbn [out record]. rewrite H1.
    rewrite add_small by (unfold SizeT.modulus in *; lia).
    eapply post_mono.
    { apply IH; [lia | lia | lia |]. cbn [out]. rewrite !length_insert. exact Hl. }
    intros [] st' (Hl' & H0 & Hrest). cbn [out] in *.
    split; [exact Hl' |]. split.
    + rewrite H0. change 0%nat with (N.to_nat 0). lookups. reflexivity.
    + intros j Hj. rewrite (Hrest j Hj). lookups. reflexivity.
Qed.

(** On every input [cumulative_sum] ends without a fault, stores
    [input[0]] in [output[0]], and never stores into the elements
    after the last full group of four: from index
    [4 * ((count - 1) / 4) + 1] on, the output array keeps what it
    held before the call. *)
Lemma cumulative_sum_tail_untouched :
  exists s',
    cumulative_sum input count s = Some (tt, s') /\
    length (out s') = length (out s) /\
    out s' !! 0%nat = input !! 0%nat /\
    forall j, 4 * ((count - 1) / 4) < j ->
      out s' !! N.to_nat j = out s !! N.to_nat j.
Proof.
  assert (post (cumulative_sum input count) s
            (fun _ st => length (out st) = length (out s) /\
                         out st !! 0%nat = input !! 0%nat /\
                         forall j, 4 * ((count - 1) / 4) < j ->
                           out st !! N.to_nat j = out s !! N.to_nat j))
    as ([] & s' & Hrun & Hw); [| eauto].
  unfold cumulative_sum. destruct (N.eqb_spec count 0) as [? | _]; [lia |].
  destruct (lookup_N input 0) as [x0 X0]; [lia |].
  apply post_bind. eapply post_ld; [exact X0 |].
  apply post_bind. apply post_st_out; [cbn [out record]; lia |].
  unfold not3. rewrite (sub_small count 1) by lia.
  rewrite land_not3 by lia.
  rewrite add_small by (unfold SizeT.modulus in *; lia).
  eapply post_mono.
  { apply loop_post; [reflexivity | lia | lia |].
    cbn [out record]. rewrite length_insert. reflexivity. }
  intros [] st' (Hl & H0 & Hrest). cbn [out record] in *.
  split; [exact Hl |]. split.
  - rewrite H0. change (N.to_nat 0) with 0%nat in *. lookups. congruence.
  - intros j Hj. rewrite (Hrest j) by lia. lookups. reflexivity.
Qed.
End Loop.

(** C1. The code departs from the claim on the array of the
    demonstration. For 1, 2, ..., 10 the prefix sums are 1, 3, 6, 10,
    15, 21, 28, 36, 45, 55; [cumulative_sum] stores 1, 3, 6, 10, 17, 23,
    30, 38, 53 and leaves [output[9]] as it was. *)
Theorem cumulative_sum_demo_output (o0 o1 o2 o3 o4 o5 o6 o7 o8 o9 : F) :
  (exists lg,
     cumulative_sum demo_input 10 (State [o0; o1; o2; o3; o4; o5; o6; o7; o8; o9] [])
     = Some (tt, State (floats [1; 3; 6; 10; 17; 23; 30; 38; 53]%Z ++ [o9]) lg)) /\
  of_Z 17 <> of_Z 15.
Proof. split; [eexists; vm_compute; reflexivity | discriminate]. Qed.

(** Two, three or four elements: only [output[0]] is stored. *)
Example cumulative_sum_short (o0 o1 o2 o3 : F) :
  exists lg,
    cumulative_sum (floats [1; 2; 3; 4]%Z) 4 (State [o0; o1; o2; o3] [])
    = Some (tt, State [of_Z 1; o1; o2; o3] lg).
Proof. eexists. vm_compute. reflexivity. Qed.

End CumulativeSum.


(** * Further properties of the kernels *)

(** ** More binary32 arithmetic *)
Module F32Arith.
Import F32 Spec.

Lemma round_aux_sign (s : bool) (m e : Z) (l : location) :
  binary_round_aux prec emax s m e l = S754_nan \/
  sign (binary_round_aux prec emax s m e l) = s.
Proof.
  unfold binary_round_aux.
  destruct (shr_fexp prec emax m e l) as [mrs' e'].
  destruct (shr_fexp prec emax _ e' loc_Exact) as [mrs'' e''].
  destruct (shr_m mrs'') as [| p | p]; auto.
  destruct (e'' <=? emax - prec)%Z; auto.
Qed.

Lemma round_aux_opp (s : bool) (m e : Z) (l : location) :
  SFopp (binary_round_aux prec emax s m e l)
  = binary_round_aux prec emax (negb s) m e l.
Proof.
  unfold binary_round_aux.
  destruct (shr_fexp prec emax m e l) as [mrs' e'].
  destruct (shr_fexp prec emax _ e' loc_Exact) as [mrs'' e''].
  destruct (shr_m mrs'') as [| p | p]; try reflexivity.
  destruct (e'' <=? emax - prec)%Z; reflexivity.
Qed.

Lemma round_sign (s : bool) (m : positive) (e : Z) :
  binary_round prec emax s m e = S754_nan \/ sign (binary_round prec emax s m e) = s.
Proof.
  unfold binary_round. destruct (shl_align m e _) as [mz ez]. apply round_aux_sign.
Qed.

Lemma round_opp (s : bool) (m : positive) (e : Z) :
  SFopp (binary_round prec emax s m e) = binary_round prec emax (negb s) m e.
Proof.
  unfold binary_round. destruct (shl_align m e _) as [mz ez]. apply round_aux_opp.
Qed.

Lemma normalize_opp (m e : Z) :
  m <> 0%Z ->
  binary_normalize prec emax (- m) e false = SFopp (binary_normalize prec emax m e false).
Proof.
  intros Hm. destruct m as [| p | p]; [congruence | |]; cbn [Z.opp binary_normalize].
  - rewrite round_opp. reflexivity.
  - rewrite round_opp. reflexivity.
Qed.

Lemma not_negative_spec (x : F) :
  not_negative x = true <-> x = S754_nan \/ sign x = false.
Proof.
  unfold not_negative. destruct x as [[] | [] | | [] m e]; cbn; intuition congruence.
Qed.

Lemma not_negative_flt (x : F) : not_negative x = true -> flt x zero = false.
Proof. destruct x as [[] | [] | | [] m e]; cbn; congruence. Qed.

Lemma fmul_square_not_negative (x : F) : not_negative (fmul x x) = true.
Proof.
  apply not_negative_spec.
  destruct x as [[] | [] | | s m e]; cbn; auto.
  replace (xorb s s) with false by (destruct s; reflexivity).
  apply round_aux_sign.
Qed.

Lemma fadd_not_negative (x y : F) :
  not_negative x = true -> not_negative y = true -> not_negative (fadd x y) = true.
Proof.
  rewrite !not_negative_spec.
  intros [-> | Hx] [-> | Hy]; try (left; destruct x; reflexivity); auto.
  destruct x as [sx | sx | | sx mx ex], y as [sy | sy | | sy my ey];
    cbn in Hx, Hy; subst; cbn; auto.
  destruct (shl_align mx ex _) as [a ea], (shl_align my ey _) as [b eb]. cbn.
  apply round_sign.
Qed.

Lemma fma_square_not_negative (a x : F) :
  not_negative a = true -> not_negative (fma a x x) = true.
Proof.
  rewrite !not_negative_spec. intros [-> | Ha].
  - left. destruct x as [[] | [] | | [] m e]; reflexivity.
  - destruct x as [sx | sx | | sx mx ex]; cbn; auto.
    + destruct a as [sa | sa | | sa ma ea]; cbn in *; auto.
      rewrite xorb_nilpotent. cbn. auto.
    + rewrite xorb_nilpotent.
      destruct a as [sa | sa | | sa ma ea]; cbn in *; subst; auto.
    + rewrite xorb_nilpotent.
      destruct a as [sa | sa | | sa ma ea]; cbn in *; subst; auto.
      * apply round_sign.
      * destruct (shl_align (mx * mx) _ _) as [p ep], (shl_align ma ea _) as [q eq].
        cbn. apply round_sign.
Qed.

Lemma fmul_opp_square (d : F) : fmul (SFopp d) (SFopp d) = fmul d d.
Proof. destruct d as [[] | [] | | [] m e]; reflexivity. Qed.

(** The square of a difference does not depend on its direction. *)
Lemma fsub_swap_square (a b : F) :
  fmul (fsub a b) (fsub a b) = fmul (fsub b a) (fsub b a).
Proof.
  destruct a as [sa | sa | | sa ma ea], b as [sb | sb | | sb mb eb];
    try reflexivity;
    try (destruct sa, sb; reflexivity);
    try (destruct sa; reflexivity); try (destruct sb; reflexivity).
  unfold fsub. cbn [SFsub]. rewrite (Z.min_comm eb ea).
  set (A := cond_Zopp sa (Z.pos (fst (shl_align ma ea (Z.min ea eb))))).
  set (B := cond_Zopp sb (Z.pos (fst (shl_align mb eb (Z.min ea eb))))).
  destruct (Z.eq_dec (A - B)%Z 0%Z) as [E | E].
  - rewrite E. replace (B - A)%Z with 0%Z by lia. reflexivity.
  - replace (B - A)%Z with (- (A - B))%Z by lia.
    rewrite (normalize_opp _ _ E). symmetry. apply fmul_opp_square.
Qed.

Lemma fsub_self (x : F) : is_finite x = true -> fsub x x = zero.
Proof.
  destruct x as [[] | [] | | s m e]; cbn; try discriminate; intros _; try reflexivity.
  rewrite Z.sub_diag. reflexivity.
Qed.

Lemma fmul_comm (x y : F) : fmul x y = fmul y x.
Proof.
  destruct x as [sx | sx | | sx mx ex], y as [sy | sy | | sy my ey]; cbn;
    try reflexivity; try (rewrite (xorb_comm sx sy); reflexivity).
  rewrite (xorb_comm sx sy), (Pos.mul_comm mx my), (Z.add_comm ex ey). reflexivity.
Qed.

Lemma fma_comm (a x y : F) : fma a x y = fma a y x.
Proof.
  destruct x as [sx | sx | | sx mx ex], y as [sy | sy | | sy my ey]; cbn;
    try reflexivity; try (rewrite (xorb_comm sx sy); reflexivity).
  rewrite (xorb_comm sx sy), (Pos.mul_comm mx my), (Z.add_comm ex ey). reflexivity.
Qed.

Lemma fma_nan (a x y : F) :
  is_nan a = true \/ is_nan x = true \/ is_nan y = true -> is_nan (fma a x y) = true.
Proof.
  intros [H | [H | H]];
    destruct a as [sa | sa | | sa ma ea]; try discriminate;
    destruct x as [sx | sx | | sx mx ex]; try discriminate;
    destruct y as [sy | sy | | sy my ey]; try discriminate; reflexivity.
Qed.

Lemma fmul_nan (x y : F) :
  is_nan x = true \/ is_nan y = true -> is_nan (fmul x y) = true.
Proof.
  intros [H | H]; destruct x as [sx | sx | | sx mx ex]; try discriminate;
    destruct y as [sy | sy | | sy my ey]; try discriminate; reflexivity.
Qed.

Lemma is_nan_eq (x : F) : is_nan x = true -> x = nan.
Proof. destruct x; try discriminate; reflexivity. Qed.

Lemma flt_nan_r (x : F) : flt x nan = false.
Proof. destruct x as [[] | [] | | [] m e]; reflexivity. Qed.

Lemma fgt_nan_l (y : F) : fgt nan y = false.
Proof. destruct y as [[] | [] | | [] m e]; reflexivity. Qed.

Lemma fgt_nan_r (x : F) : fgt x nan = false.
Proof. reflexivity. Qed.

Lemma fadd_zeros (x y : F) :
  is_zero x = true -> is_zero y = true -> is_zero (fadd x y) = true.
Proof. destruct x as [[] | | |], y as [[] | | |]; try discriminate; reflexivity. Qed.

Lemma fgt_zero (x : F) : is_zero x = true -> fgt x zero = false.
Proof. destruct x as [[] | | |]; try discriminate; reflexivity. Qed.

(** Adding to [+0] changes nothing but the sign of [-0]. *)
Lemma fadd_zero_l (x : F) : x <> S754_zero true -> fadd zero x = x.
Proof. destruct x as [[] | [] | | [] m e]; intros H; try reflexivity. congruence. Qed.

Lemma div_eucl_pair (a b : Z) : Z.div_eucl a b = ((a / b)%Z, (a mod b)%Z).
Proof. unfold Z.div, Z.modulo. destruct (Z.div_eucl a b). reflexivity. Qed.

(** Dividing a binary32 value by one returns it. *)
Lemma fdiv_one (x : F) : is_f32 x = true -> fdiv x one = x.
Proof.
  destruct x as [[] | [] | | s m e]; try reflexivity.
  unfold is_f32, valid_binary, bounded, canonical_mantissa, fexp, emin, prec, emax.
  rewrite andb_true_iff, Z.eqb_eq, Z.leb_le. intros [Hcan Hmax].
  change one with (S754_finite false 8388608 (-23)).
  unfold fdiv, SFdiv, SFdiv_core_binary, fexp, emin, prec, emax.
  rewrite xorb_false_r.
  change (Zdigits2 8388608) with 24%Z. cbn [Zdigits2].
  set (d := Z.pos (digits2_pos m)) in *.
  assert (0 < d)%Z as Hd by (unfold d; lia).
  destruct (Z.eq_dec (Z.max (d + e - (24 + -23) - 24) (3 - 128 - 24)) e) as [E | E].
  - (* the quotient is computed at the exponent of [x] *)
    rewrite E. replace (Z.min e (e - -23)) with e by lia.
    replace (e - -23 - e)%Z with 23%Z by lia.
    rewrite Z.shiftl_mul_pow2 by lia. rewrite div_eucl_pair.
    change (2 ^ 23)%Z with 8388608%Z.
    rewrite Z.div_mul by lia. rewrite Z.mod_mul by lia.
    cbn [new_location Z.even new_location_even Z.eqb].
    unfold binary_round_aux, shr_fexp, fexp, emin, prec, emax. cbn [Zdigits2]. fold d.
    rewrite Hcan, Z.sub_diag. cbn [shr shr_record_of_loc shr_m loc_of_shr_record
                                       round_nearest_even Zdigits2].
    fold d. rewrite Hcan, Z.sub_diag. cbn [shr shr_m shr_record_of_loc].
    apply Z.leb_le in Hmax. rewrite Hmax. reflexivity.
  - (* one more bit of quotient, dropped again by the rounding *)
    assert (Z.max (d + e - (24 + -23) - 24) (3 - 128 - 24) = e - 1)%Z as E1 by lia.
    rewrite E1. replace (Z.min (e - 1) (e - -23)) with (e - 1)%Z by lia.
    replace (e - -23 - (e - 1))%Z with 24%Z by lia.
    rewrite Z.shiftl_mul_pow2 by lia. rewrite div_eucl_pair.
    change (2 ^ 24)%Z with (2 * 8388608)%Z. rewrite Z.mul_assoc.
    rewrite Z.div_mul by lia. rewrite Z.mod_mul by lia.
    cbn [new_location Z.even new_location_even Z.eqb].
    replace (Z.pos m * 2)%Z with (Z.pos m~0) by lia.
    unfold binary_round_aux, shr_fexp, fexp, emin, prec, emax.
    cbn [Zdigits2 digits2_pos]. rewrite Pos2Z.inj_succ. fold d.
    replace (Z.max (Z.succ d + (e - 1) - 24) (3 - 128 - 24) - (e - 1))%Z with 1%Z by lia.
    cbn [shr shr_record_of_loc iter_pos shr_1 shr_m loc_of_shr_record orb
         round_nearest_even Zdigits2].
    cbv [SpecFloat.iter_pos].
    cbn [shr_1 shr_m loc_of_shr_record orb round_nearest_even Zdigits2].
    fold d. replace (e - 1 + 1)%Z with e by lia.
    rewrite Hcan, Z.sub_diag. cbn [shr shr_m shr_record_of_loc].
    apply Z.leb_le in Hmax. rewrite Hmax. reflexivity.
Qed.

(** A mean over one element: [(+0 + x) / 1] is [x]. *)
Lemma mean_of_one (x : F) :
  is_f32 x = true -> x <> S754_zero true -> fdiv (fadd zero x) one = x.
Proof. intros Hv Hz. rewrite (fadd_zero_l x Hz). now apply fdiv_one. Qed.

End F32Arith.

(** ** Accumulations *)
Module RoundsFacts.
Import Spec.

(** Rounds of two functions that agree on the indices visited. *)
Lemma rounds_ext {A} (f g : N -> A -> A) (n : nat) : forall i step acc,
  (forall k acc', (k < n)%nat ->
     f (i + N.of_nat k * step) acc' = g (i + N.of_nat k * step) acc') ->
  rounds f n i step acc = rounds g n i step acc.
Proof.
  induction n as [| n IH]; intros i step acc H; [reflexivity |].
  cbn [rounds].
  assert (f i acc = g i acc) as ->.
  { pose proof (H 0%nat acc ltac:(lia)) as H0.
    replace (i + N.of_nat 0 * step) with i in H0 by lia. exact H0. }
  apply IH. intros k acc' Hk.
  replace (i + step + N.of_nat k * step) with (i + N.of_nat (S k) * step) by lia.
  apply H. lia.
Qed.

(** A property kept by every round. *)
Lemma rounds_inv {A} (P : A -> Prop) (f : N -> A -> A) (n : nat) : forall i step acc,
  P acc ->
  (forall k acc', (k < n)%nat -> P acc' -> P (f (i + N.of_nat k * step) acc')) ->
  P (rounds f n i step acc).
Proof.
  induction n as [| n IH]; intros i step acc Hacc H; [exact Hacc |].
  cbn [rounds]. apply IH.
  - pose proof (H 0%nat acc ltac:(lia) Hacc) as H0.
    replace (i + N.of_nat 0 * step) with i in H0 by lia. exact H0.
  - intros k acc' Hk HP.
    replace (i + step + N.of_nat k * step) with (i + N.of_nat (S k) * step) by lia.
    apply H; [lia | exact HP].
Qed.

(** Two accumulations carried side by side. *)
Lemma rounds_pair {A B} (f : N -> A -> A) (g : N -> B -> B) (n : nat) :
  forall i step a b,
    rounds (fun i '(a, b) => (f i a, g i b)) n i step (a, b)
    = (rounds f n i step a, rounds g n i step b).
Proof.
  induction n as [| n IH]; intros i step a b; [reflexivity |].
  cbn [rounds]. apply IH.
Qed.

End RoundsFacts.

(** ** The split into groups of four and a tail *)
Module Lanes.
Import Kernels SizeTFacts.

(** X4. [count & ~3], the bound of every lane loop, is a multiple of
    four, is at most [count], and leaves fewer than four elements to the
    tail. *)
Theorem lane_split (count : N) :
  count < SizeT.modulus ->
  SizeT.land count not3 mod 4 = 0 /\
  SizeT.land count not3 <= count /\
  count < SizeT.land count not3 + 4.
Proof. intros Hc. unfold not3. rewrite land_not3 by exact Hc. lia. Qed.

Lemma lane_split_witness :
  10 < SizeT.modulus /\
  SizeT.land 10 not3 mod 4 = 0 /\
  SizeT.land 10 not3 <= 10 /\
  10 < SizeT.land 10 not3 + 4.
Proof. split; [reflexivity |]. apply (lane_split 10). reflexivity. Defined.

End Lanes.

(** ** [vector_distance_squared] *)
Module Distance.
Import Neon F32 Kernels Spec F32Arith.

(** X1. No lane of [vector_distance_squared] is negative: each lane is
    NaN or has a clear sign bit, and so never compares below zero. *)
Theorem distance_squared_not_negative (x1 y1 x2 y2 : float32x4_t) (l : nat) :
  not_negative (lane4 (vector_distance_squared x1 y1 x2 y2) l) = true /\
  flt (lane4 (vector_distance_squared x1 y1 x2 y2) l) zero = false.
Proof.
  assert (not_negative (lane4 (vector_distance_squared x1 y1 x2 y2) l) = true) as H.
  { destruct l as [| [| [| l]]]; cbn;
      apply fadd_not_negative; apply fmul_square_not_negative. }
  split; [exact H | now apply not_negative_flt].
Qed.

(** X2. The squared distance does not depend on the order of the two
    points: exchanging [(x1, y1)] and [(x2, y2)] gives the same value in
    every lane. A lane that is not NaN has the same sign, exponent and
    mantissa in both orders; a lane that is NaN in one order is NaN in
    the other. [F] has a single NaN, so nothing is said of the payload
    of a NaN lane. *)
Theorem distance_squared_symmetric (x1 y1 x2 y2 : float32x4_t) :
  vector_distance_squared x1 y1 x2 y2 = vector_distance_squared x2 y2 x1 y1.
Proof.
  unfold vector_distance_squared, vaddq_f32, vmulq_f32, vsubq_f32, zip4. cbn.
  rewrite (fsub_swap_square (q0 x2) (q0 x1)), (fsub_swap_square (q1 x2) (q1 x1)),
    (fsub_swap_square (q2 x2) (q2 x1)), (fsub_swap_square (q3 x2) (q3 x1)),
    (fsub_swap_square (q0 y2) (q0 y1)), (fsub_swap_square (q1 y2) (q1 y1)),
    (fsub_swap_square (q2 y2) (q2 y1)), (fsub_swap_square (q3 y2) (q3 y1)).
  reflexivity.
Qed.

(** X3. Four points with finite coordinates are at squared distance
    [+0] from themselves, in every lane. *)
Theorem distance_squared_same_point (x y : float32x4_t) :
  all_finite x = true -> all_finite y = true ->
  vector_distance_squared x y x y = vdupq_n_f32 zero.
Proof.
  destruct x as [x0 x1 x2 x3], y as [y0 y1 y2 y3]. unfold all_finite. cbn.
  rewrite !andb_true_iff. intros [[[X0 X1] X2] X3] [[[Y0 Y1] Y2] Y3].
  unfold vector_distance_squared, vaddq_f32, vmulq_f32, vsubq_f32, zip4. cbn.
  rewrite !fsub_self by assumption. reflexivity.
Qed.

Lemma distance_squared_same_point_witness :
  all_finite xs = true /\ all_finite ys = true /\
  vector_distance_squared xs ys xs ys = vdupq_n_f32 zero.
Proof.
  split; [reflexivity |]. split; [reflexivity |].
  apply (distance_squared_same_point xs ys); reflexivity.
Defined.

(** The points of the demonstration: (0,0)-(3,4), (1,1)-(4,5),
    (2,2)-(5,6), (3,3)-(6,7) are all at squared distance 25. *)
Example distance_squared_example :
  vector_distance_squared
    (V4 (of_Z 0) (of_Z 1) (of_Z 2) (of_Z 3)) (V4 (of_Z 0) (of_Z 1) (of_Z 2) (of_Z 3))
    (V4 (of_Z 3) (of_Z 4) (of_Z 5) (of_Z 6)) (V4 (of_Z 4) (of_Z 5) (of_Z 6) (of_Z 7))
  = vdupq_n_f32 (of_Z 25).
Proof. reflexivity. Qed.

End Distance.

(** ** [cross_correlation] *)
Module CrossCorrelation.
Import Mem Neon F32 Loop Kernels Spec HoareRules SizeTFacts F32Order.
Import F32Arith RoundsFacts.

(** The kernel loads only elements below [length], stores nothing, and
    returns the sum it accumulated: four fused lane sums over the full
    groups, reduced, then the remaining products one by one. *)
Lemma cross_correlation_result {T}
    (signal1 signal2 : list F) (length : N) (s : state T) :
  length < SizeT.modulus ->
  length <= N.of_nat (List.length signal1) ->
  length <= N.of_nat (List.length signal2) ->
  exists s',
    cross_correlation signal1 signal2 length s = Some (dot signal1 signal2 length, s')
    /\ out s' = out s.
Proof.
  intros Hc H1 H2.
  assert (post (cross_correlation signal1 signal2 length) s
            (fun r st => r = dot signal1 signal2 length /\ out st = out s))
    as (r & s' & Hrun & -> & Hout); [| eauto].
  unfold cross_correlation, not3. rewrite land_not3 by exact Hc.
  apply post_bind. eapply post_mono.
  { apply (post_for_pure
             (fun i sum => vfmaq_f32 sum (block signal1 i) (block signal2 i))
             (fun i => N.to_nat ((4 * (length / 4) - i + 3) / 4))
             (fun st => out st = out s) (fun i => i mod 4 = 0)).
    - intros i Hi Hlt. unfold SizeT.modulus in *. lia.
    - intros i Hge. lia.
    - intros i sum st Ho Hi Hlt.
      destruct (lookup_N signal1 i) as [x0 X0]; [lia |].
      destruct (lookup_N signal1 (i + 1)) as [x1 X1]; [lia |].
      destruct (lookup_N signal1 (i + 2)) as [x2 X2]; [lia |].
      destruct (lookup_N signal1 (i + 3)) as [x3 X3]; [lia |].
      destruct (lookup_N signal2 i) as [w0 W0]; [lia |].
      destruct (lookup_N signal2 (i + 1)) as [w1 W1]; [lia |].
      destruct (lookup_N signal2 (i + 2)) as [w2 W2]; [lia |].
      destruct (lookup_N signal2 (i + 3)) as [w3 W3]; [lia |].
      apply post_bind. eapply post_vld1q; [eassumption .. |]. intros st1 E1.
      apply post_bind. eapply post_vld1q; [eassumption .. |]. intros st2 E2.
      apply post_ret. unfold block.
      rewrite (get_lookup _ _ _ X0), (get_lookup _ _ _ X1), (get_lookup _ _ _ X2),
        (get_lookup _ _ _ X3), (get_lookup _ _ _ W0), (get_lookup _ _ _ W1),
        (get_lookup _ _ _ W2), (get_lookup _ _ _ W3).
      split; [reflexivity | congruence].
    - reflexivity.
    - reflexivity. }
  intros sum st1 [Hacc Ho1]. cbv beta.
  replace (N.to_nat ((4 * (length / 4) - 0 + 3) / 4))
    with (N.to_nat (length / 4)) in Hacc by lia.
  eapply post_mono.
  { apply (post_for_pure
             (fun i result => fadd result (fmul (get signal1 i) (get signal2 i)))
             (fun i => N.to_nat (length - i))
             (fun st => out st = out s) (fun i => 4 * (length / 4) <= i)).
    - intros i Hi Hlt. unfold SizeT.modulus in *. lia.
    - intros i Hge. lia.
    - intros i r st Ho Hi Hlt.
      destruct (lookup_N signal1 i) as [x X]; [lia |].
      destruct (lookup_N signal2 i) as [w W]; [lia |].
      apply post_bind. eapply post_ld; [exact X |].
      apply post_bind. eapply post_ld; [exact W |].
      apply post_ret. rewrite (get_lookup _ _ _ X), (get_lookup _ _ _ W).
      split; [reflexivity | exact Ho].
    - exact Ho1.
    - lia. }
  intros r st2 [Hacc2 Ho2]. cbv beta. split; [| exact Ho2].
  replace (N.to_nat (length - 4 * (length / 4)))
    with (N.to_nat (length mod 4)) in Hacc2 by lia.
  unfold dot, dot_lanes. fold (hsum sum) in Hacc2. rewrite <- Hacc. exact Hacc2.
Qed.

Lemma dot_comm (signal1 signal2 : list F) (length : N) :
  dot signal1 signal2 length = dot signal2 signal1 length.
Proof.
  unfold dot, dot_lanes.
  rewrite (rounds_ext
             (fun i sum => vfmaq_f32 sum (block signal1 i) (block signal2 i))
             (fun i sum => vfmaq_f32 sum (block signal2 i) (block signal1 i))).
  - apply rounds_ext. intros k acc _. rewrite fmul_comm. reflexivity.
  - intros k [a0 a1 a2 a3] _. unfold vfmaq_f32, zip4_3. cbn.
    rewrite (fma_comm a0), (fma_comm a1), (fma_comm a2), (fma_comm a3). reflexivity.
Qed.

Lemma hsum_not_negative (v : float32x4_t) :
  all_not_negative v = true -> not_negative (hsum v) = true.
Proof.
  destruct v as [x0 x1 x2 x3]. unfold all_not_negative, hsum. cbn.
  rewrite !andb_true_iff. intros [[[H0 H1] H2] H3].
  repeat apply fadd_not_negative; assumption.
Qed.

Lemma vfmaq_nan (a v w : float32x4_t) :
  has_nan a = true \/ has_nan v = true \/ has_nan w = true ->
  has_nan (vfmaq_f32 a v w) = true.
Proof.
  destruct a as [a0 a1 a2 a3], v as [x0 x1 x2 x3], w as [y0 y1 y2 y3].
  unfold has_nan. cbn. rewrite !orb_true_iff.
  intros [[[[H | H] | H] | H] | [[[[H | H] | H] | H] | [[[H | H] | H] | H]]];
    [ left; left; left | left; left; right | left; right | right
    | left; left; left | left; left; right | left; right | right
    | left; left; left | left; left; right | left; right | right ];
    apply fma_nan; auto.
Qed.

Section Dot.
Variables (signal1 signal2 : list F).

Local Abbreviation lane_f :=
  (fun (i : N) (sum : float32x4_t) => vfmaq_f32 sum (block signal1 i) (block signal2 i)).
Local Abbreviation tail_f :=
  (fun (i : N) (result : F) => fadd result (fmul (get signal1 i) (get signal2 i))).

Lemma dot_lanes_keep_nan (n : nat) : forall i acc,
  has_nan acc = true -> has_nan (rounds lane_f n i 4 acc) = true.
Proof.
  induction n as [| n IH]; intros i acc H; [exact H |].
  cbn [rounds]. apply IH. apply vfmaq_nan. auto.
Qed.

Lemma dot_lanes_find_nan (n : nat) : forall i acc j,
  i <= j -> j < i + 4 * N.of_nat n ->
  is_nan (get signal1 j) = true \/ is_nan (get signal2 j) = true ->
  has_nan (rounds lane_f n i 4 acc) = true.
Proof.
  induction n as [| n IH]; intros i acc j Hlo Hhi Hn; [lia |].
  cbn [rounds]. destruct (N.lt_ge_cases j (i + 4)) as [Hj | Hj].
  - apply dot_lanes_keep_nan. apply vfmaq_nan. right.
    destruct Hn as [Hn | Hn]; [left | right]; now apply (WeightedAverage.block_nan _ i j).
  - apply (IH _ _ j); [exact Hj | lia | exact Hn].
Qed.

Lemma dot_tail_keep_nan (n : nat) : forall i acc,
  is_nan acc = true -> is_nan (rounds tail_f n i 1 acc) = true.
Proof.
  induction n as [| n IH]; intros i acc H; [exact H |].
  cbn [rounds]. apply IH. apply WeightedAverage.fadd_nan. auto.
Qed.

Lemma dot_tail_find_nan (n : nat) : forall i acc j,
  i <= j -> j < i + N.of_nat n ->
  is_nan (get signal1 j) = true \/ is_nan (get signal2 j) = true ->
  is_nan (rounds tail_f n i 1 acc) = true.
Proof.
  induction n as [| n IH]; intros i acc j Hlo Hhi Hn; [lia |].
  cbn [rounds]. destruct (N.eq_dec j i) as [-> | Hne].
  - apply dot_tail_keep_nan. apply WeightedAverage.fadd_nan. right. apply fmul_nan. exact Hn.
  - apply (IH _ _ j); [lia | lia | exact Hn].
Qed.

Lemma dot_nan (length j : N) :
  j < length ->
  is_nan (get signal1 j) = true \/ is_nan (get signal2 j) = true ->
  is_nan (dot signal1 signal2 length) = true.
Proof.
  intros Hj Hn. unfold dot, dot_lanes.
  destruct (N.lt_ge_cases j (4 * (length / 4))) as [Hlane | Htail].
  - apply dot_tail_keep_nan. apply WeightedAverage.hsum_nan.
    apply (dot_lanes_find_nan _ _ _ j); [lia | lia | exact Hn].
  - apply (dot_tail_find_nan _ _ _ j); [exact Htail | lia | exact Hn].
Qed.
End Dot.

Section Energy.
Variable signal : list F.

Lemma energy_lanes (n : nat) : forall i acc,
  all_not_negative acc = true ->
  all_not_negative
    (rounds (fun i sum => vfmaq_f32 sum (block signal i) (block signal i)) n i 4 acc)
  = true.
Proof.
  induction n as [| n IH]; intros i acc H; [exact H |].
  cbn [rounds]. apply IH. destruct acc as [a0 a1 a2 a3].
  unfold all_not_negative in *. cbn in *.
  rewrite !andb_true_iff in *. destruct H as [[[H0 H1] H2] H3].
  repeat split; apply fma_square_not_negative; assumption.
Qed.

Lemma energy_tail (n : nat) : forall i acc,
  not_negative acc = true ->
  not_negative
    (rounds (fun i result => fadd result (fmul (get signal i) (get signal i))) n i 1 acc)
  = true.
Proof.
  induction n as [| n IH]; intros i acc H; [exact H |].
  cbn [rounds]. apply IH. apply fadd_not_negative; [exact H |].
  apply fmul_square_not_negative.
Qed.

Lemma dot_self_not_negative (length : N) :
  not_negative (dot signal signal length) = true.
Proof.
  unfold dot, dot_lanes. apply energy_tail. apply hsum_not_negative.
  apply energy_lanes. reflexivity.
Qed.
End Energy.

(** The weighted sum of [weighted_average] is this very sum. *)
Lemma weighted_sum_dot (values weights : list F) (count : N) :
  weighted_sum values weights count = dot values weights count.
Proof.
  unfold weighted_sum, totals, lane_sums, dot, dot_lanes.
  rewrite (rounds_pair
             (fun i sum => vfmaq_f32 sum (block values i) (block weights i))
             (fun i sum => vaddq_f32 sum (block weights i))).
  rewrite (rounds_pair
             (fun i r => fadd r (fmul (get values i) (get weights i)))
             (fun i r => fadd r (get weights i))).
  reflexivity.
Qed.

(** X5. [cross_correlation] does not depend on the order of its two
    signals: both orders run without a fault, store nothing, and return
    the same value. A result that is not NaN has the same sign,
    exponent and mantissa in both orders; a result that is NaN in one
    order is NaN in the other. [F] has a single NaN, so nothing is said
    of the payload of a NaN result. *)
Theorem cross_correlation_commutes {T}
    (signal1 signal2 : list F) (length : N) (s : state T) :
  length < SizeT.modulus ->
  length <= N.of_nat (List.length signal1) ->
  length <= N.of_nat (List.length signal2) ->
  exists r s1 s2,
    cross_correlation signal1 signal2 length s = Some (r, s1) /\
    cross_correlation signal2 signal1 length s = Some (r, s2) /\
    out s1 = out s /\ out s2 = out s.
Proof.
  intros Hc H1 H2.
  destruct (cross_correlation_result signal1 signal2 length s Hc H1 H2)
    as (s1 & R1 & O1).
  destruct (cross_correlation_result signal2 signal1 length s Hc H2 H1)
    as (s2 & R2 & O2).
  exists (dot signal1 signal2 length), s1, s2.
  rewrite R1, R2, (dot_comm signal2 signal1). auto.
Qed.

Lemma cross_correlation_commutes_witness :
  4 < SizeT.modulus /\
  4 <= N.of_nat (List.length signal) /\
  4 <= N.of_nat (List.length marks) /\
  exists r s1 s2,
    cross_correlation signal marks 4 nothing = Some (r, s1) /\
    cross_correlation marks signal 4 nothing = Some (r, s2) /\
    out s1 = out nothing /\ out s2 = out nothing.
Proof.
  split; [reflexivity |].
  split; [vm_compute; discriminate |].
  split; [vm_compute; discriminate |].
  apply (cross_correlation_commutes signal marks 4 nothing).
  - reflexivity.
  - vm_compute; discriminate.
  - vm_compute; discriminate.
Defined.

(** X6. A NaN sample below [length], in either signal, makes
    [cross_correlation] return NaN, whether the lanes or the tail meet
    it. *)
Theorem cross_correlation_nan {T}
    (signal1 signal2 : list F) (length j : N) (s : state T) :
  length < SizeT.modulus ->
  length <= N.of_nat (List.length signal1) ->
  length <= N.of_nat (List.length signal2) ->
  j < length ->
  signal1 !! N.to_nat j = Some nan \/ signal2 !! N.to_nat j = Some nan ->
  exists s', cross_correlation signal1 signal2 length s = Some (nan, s').
Proof.
  intros Hc H1 H2 Hj Hn.
  destruct (cross_correlation_result signal1 signal2 length s Hc H1 H2)
    as (s' & Hrun & _).
  exists s'. rewrite Hrun. f_equal. f_equal. apply is_nan_eq.
  apply (dot_nan signal1 signal2 length j Hj).
  destruct Hn as [Hn | Hn]; [left | right]; rewrite (get_lookup _ _ _ Hn); reflexivity.
Qed.

Lemma cross_correlation_nan_witness :
  4 < SizeT.modulus /\
  4 <= N.of_nat (List.length signal) /\
  4 <= N.of_nat (List.length broken) /\
  1 < 4 /\
  (signal !! N.to_nat 1 = Some nan \/ broken !! N.to_nat 1 = Some nan) /\
  exists s', cross_correlation signal broken 4 nothing = Some (nan, s').
Proof.
  split; [reflexivity |].
  split; [vm_compute; discriminate |].
  split; [vm_compute; discriminate |].
  split; [reflexivity |].
  split; [right; reflexivity |].
  apply (cross_correlation_nan signal broken 4 1 nothing).
  - reflexivity.
  - vm_compute; discriminate.
  - vm_compute; discriminate.
  - reflexivity.
  - right; reflexivity.
Defined.

(** X7. The correlation of a signal with itself is never negative: the
    result is NaN or has a clear sign bit, and never compares below
    zero, whatever the samples (infinities and overflow included). *)
Theorem cross_correlation_self_not_negative {T}
    (signal1 : list F) (length : N) (s : state T) :
  length < SizeT.modulus ->
  length <= N.of_nat (List.length signal1) ->
  exists r s',
    cross_correlation signal1 signal1 length s = Some (r, s') /\
    not_negative r = true /\ flt r zero = false.
Proof.
  intros Hc H1.
  destruct (cross_correlation_result signal1 signal1 length s Hc H1 H1)
    as (s' & Hrun & _).
  exists (dot signal1 signal1 length), s'.
  pose proof (dot_self_not_negative signal1 length) as H.
  split; [exact Hrun |]. split; [exact H | now apply not_negative_flt].
Qed.

Lemma cross_correlation_self_not_negative_witness :
  9 < SizeT.modulus /\
  9 <= N.of_nat (List.length readings) /\
  exists r s',
    cross_correlation readings readings 9 nothing = Some (r, s') /\
    not_negative r = true /\ flt r zero = false.
Proof.
  split; [reflexivity |].
  split; [vm_compute; discriminate |].
  apply (cross_correlation_self_not_negative readings 9 nothing).
  - reflexivity.
  - vm_compute; discriminate.
Defined.

End CrossCorrelation.

(** ** [weighted_average] in terms of its inputs *)
Module Weights.
Import Mem Neon F32 Loop Kernels Spec HoareRules SizeTFacts F32Order.
Import F32Arith RoundsFacts.

Lemma weight_sum_rounds (values weights : list F) (count : N) :
  weight_sum values weights count
  = rounds (fun i r => fadd r (get weights i))
      (N.to_nat (count mod 4)) (4 * (count / 4)) 1
      (hsum (rounds (fun i sum => vaddq_f32 sum (block weights i))
               (N.to_nat (count / 4)) 0 4 (vdupq_n_f32 zero))).
Proof.
  unfold weight_sum, totals, lane_sums.
  rewrite (rounds_pair
             (fun i sum => vfmaq_f32 sum (block values i) (block weights i))
             (fun i sum => vaddq_f32 sum (block weights i))).
  rewrite (rounds_pair
             (fun i r => fadd r (fmul (get values i) (get weights i)))
             (fun i r => fadd r (get weights i))).
  reflexivity.
Qed.

Lemma hsum_zeros (v : float32x4_t) : all_zero v = true -> is_zero (hsum v) = true.
Proof.
  destruct v as [x0 x1 x2 x3]. unfold all_zero, hsum. cbn.
  rewrite !andb_true_iff. intros [[[H0 H1] H2] H3].
  repeat apply fadd_zeros; assumption.
Qed.

Lemma vaddq_zeros (v w : float32x4_t) :
  all_zero v = true -> all_zero w = true -> all_zero (vaddq_f32 v w) = true.
Proof.
  destruct v as [x0 x1 x2 x3], w as [y0 y1 y2 y3]. unfold all_zero. cbn.
  rewrite !andb_true_iff. intros [[[H0 H1] H2] H3] [[[G0 G1] G2] G3].
  repeat split; apply fadd_zeros; assumption.
Qed.

(** Weights that are all zero add up to zero. *)
Lemma zero_weights_zero_total (values weights : list F) (count : N) :
  (forall j, j < count -> is_zero (get weights j) = true) ->
  is_zero (weight_sum values weights count) = true.
Proof.
  intros Hz. rewrite weight_sum_rounds.
  apply (rounds_inv (fun r => is_zero r = true)).
  - apply hsum_zeros. apply (rounds_inv (fun v => all_zero v = true)).
    + reflexivity.
    + intros k acc Hk Hacc. apply vaddq_zeros; [exact Hacc |].
      unfold all_zero, block. cbn. rewrite !andb_true_iff.
      repeat split; apply Hz; lia.
  - intros k acc Hk Hacc. apply fadd_zeros; [exact Hacc |]. apply Hz. lia.
Qed.

(** X8. [weighted_average] is [cross_correlation] of the values with
    the weights, divided by the weight total under the guard: both
    kernels accumulate the same sum of products, bit for bit. *)
Theorem weighted_average_is_correlation {T}
    (values weights : list F) (count : N) (s : state T) :
  count < SizeT.modulus ->
  count <= N.of_nat (length values) ->
  count <= N.of_nat (length weights) ->
  exists c s1 s2,
    cross_correlation values weights count s = Some (c, s1) /\
    weighted_average values weights count s
    = Some (guarded_quotient c (weight_sum values weights count), s2).
Proof.
  intros Hc Hv Hw.
  destruct (CrossCorrelation.cross_correlation_result values weights count s Hc Hv Hw)
    as (s1 & R1 & _).
  destruct (WeightedAverage.weighted_average_result values weights count s Hc Hv Hw)
    as (s2 & R2 & _).
  exists (dot values weights count), s1, s2.
  rewrite R1, R2, CrossCorrelation.weighted_sum_dot. auto.
Qed.

Lemma weighted_average_is_correlation_witness :
  5 < SizeT.modulus /\
  5 <= N.of_nat (length marks) /\
  5 <= N.of_nat (length credits) /\
  exists c s1 s2,
    cross_correlation marks credits 5 nothing = Some (c, s1) /\
    weighted_average marks credits 5 nothing
    = Some (guarded_quotient c (weight_sum marks credits 5), s2).
Proof.
  split; [reflexivity |].
  split; [vm_compute; discriminate |].
  split; [vm_compute; discriminate |].
  apply (weighted_average_is_correlation marks credits 5 nothing).
  - reflexivity.
  - vm_compute; discriminate.
  - vm_compute; discriminate.
Defined.

(** X9. One NaN among the first [count] weights, at any index, makes
    [weighted_average] return [+0]: the kernel ends without a fault and
    stores nothing. *)
Theorem weighted_average_one_nan_weight {T}
    (values weights : list F) (count j : N) (s : state T) :
  count < SizeT.modulus ->
  count <= N.of_nat (length values) ->
  count <= N.of_nat (length weights) ->
  j < count -> weights !! N.to_nat j = Some nan ->
  exists s',
    weighted_average values weights count s = Some (zero, s') /\ out s' = out s.
Proof.
  intros Hc Hv Hw Hj Hnan.
  destruct (WeightedAverage.weighted_average_result values weights count s Hc Hv Hw)
    as (s' & Hrun & Hout).
  exists s'. split; [| exact Hout]. rewrite Hrun. unfold guarded_quotient.
  pose proof (WeightedAverage.nan_weight_nan_total values weights count j Hj) as Htot.
  rewrite (get_lookup _ _ _ Hnan) in Htot. specialize (Htot eq_refl).
  destruct (weight_sum values weights count); try discriminate.
  reflexivity.
Qed.

Lemma weighted_average_one_nan_weight_witness :
  4 < SizeT.modulus /\
  4 <= N.of_nat (length signal) /\
  4 <= N.of_nat (length broken) /\
  1 < 4 /\ broken !! N.to_nat 1 = Some nan /\
  exists s',
    weighted_average signal broken 4 nothing = Some (zero, s') /\
    out s' = out nothing.
Proof.
  split; [reflexivity |].
  split; [vm_compute; discriminate |].
  split; [vm_compute; discriminate |].
  split; [reflexivity |].
  split; [reflexivity |].
  apply (weighted_average_one_nan_weight signal broken 4 1 nothing).
  - reflexivity.
  - vm_compute; discriminate.
  - vm_compute; discriminate.
  - reflexivity.
  - reflexivity.
Defined.

(** X10. When each of the first [count] weights is a zero, of either
    sign, [weighted_average] returns [+0] whatever the values are: the
    quotient 0/0 is never formed. *)
Theorem weighted_average_zero_weights {T}
    (values weights : list F) (count : N) (s : state T) :
  count < SizeT.modulus ->
  count <= N.of_nat (length values) ->
  count <= N.of_nat (length weights) ->
  (forall j w, j < count -> weights !! N.to_nat j = Some w -> is_zero w = true) ->
  exists s',
    weighted_average values weights count s = Some (zero, s') /\ out s' = out s.
Proof.
  intros Hc Hv Hw Hz.
  destruct (WeightedAverage.weighted_average_result values weights count s Hc Hv Hw)
    as (s' & Hrun & Hout).
  exists s'. split; [| exact Hout]. rewrite Hrun. unfold guarded_quotient.
  rewrite fgt_zero; [reflexivity |].
  apply zero_weights_zero_total. intros j Hj.
  destruct (lookup_N weights j) as [w W]; [lia |].
  rewrite (get_lookup _ _ _ W). exact (Hz j w Hj W).
Qed.

Lemma weighted_average_zero_weights_witness :
  5 < SizeT.modulus /\
  5 <= N.of_nat (length marks) /\
  5 <= N.of_nat (length no_credits) /\
  (forall j w, j < 5 -> no_credits !! N.to_nat j = Some w -> is_zero w = true) /\
  exists s',
    weighted_average marks no_credits 5 nothing = Some (zero, s') /\
    out s' = out nothing.
Proof.
  assert (forall j w, j < 5 -> no_credits !! N.to_nat j = Some w -> is_zero w = true)
    as Hz.
  { intros j w Hj.
    assert (j = 0 \/ j = 1 \/ j = 2 \/ j = 3 \/ j = 4)
      as [-> | [-> | [-> | [-> | ->]]]] by lia;
      cbn; intros [= <-]; reflexivity. }
  split; [reflexivity |].
  split; [vm_compute; discriminate |].
  split; [vm_compute; discriminate |].
  split; [exact Hz |].
  apply (weighted_average_zero_weights marks no_credits 5 nothing).
  - reflexivity.
  - vm_compute; discriminate.
  - vm_compute; discriminate.
  - exact Hz.
Defined.

End Weights.

(** ** [moving_average_filter] *)
Module MovingAverage.
Import Mem Neon F32 Loop Kernels Spec HoareRules SizeTFacts F32Order.
Import F32Arith RoundsFacts.

Lemma window_bounds (window_size i : N) :
  1 <= window_size ->
  window_start window_size i <= i /\
  i + 1 - window_start window_size i = N.min (i + 1) window_size.
Proof.
  intros Hw. unfold window_start. destruct (N.leb_spec window_size i); lia.
Qed.

(** With a window of at least one element the kernel ends without a
    fault, stores the mean of the window of each index below [count],
    and stores nothing else. *)
Lemma moving_average_filter_post
    (input : list F) (count window_size : N) (s : state F) :
  count < SizeT.modulus ->
  count <= N.of_nat (length input) ->
  count <= N.of_nat (length (out s)) ->
  1 <= window_size ->
  post (moving_average_filter input count window_size) s
       (fun _ s' =>
          length (out s') = length (out s) /\
          (forall i, i < count ->
             out s' !! N.to_nat i = Some (window_mean input window_size i)) /\
          (forall j, count <= j -> out s' !! N.to_nat j = out s !! N.to_nat j)).
Proof.
  intros Hc Hin Hout Hw.
  unfold moving_average_filter.
  destruct (N.eqb_spec window_size 0) as [? | _]; [lia |].
  destruct (N.eqb_spec count 0) as [-> | Hcount]; cbn [orb].
  { apply post_ret. split; [reflexivity |]. split; [intros i Hi; lia | auto]. }
  eapply post_mono.
  { apply (post_for_loop
             (fun i (_ : unit) st =>
                i <= count /\ length (out st) = length (out s) /\
                (forall k, k < i ->
                   out st !! N.to_nat k = Some (window_mean input window_size k)) /\
                (forall j, i <= j -> out st !! N.to_nat j = out s !! N.to_nat j))).
    - intros i [] st (Hi & Hl & Hdone & Hrest) Hlt.
      fold (window_start window_size i).
      destruct (window_bounds window_size i Hw) as [Hs Haw].
      set (start := window_start window_size i) in *.
      assert (SizeT.add (SizeT.sub i window_size) 1 = i - window_size + 1
              \/ (window_size <=? i) = false) as Hst.
      { destruct (N.leb_spec window_size i); [left | right; reflexivity].
        rewrite sub_small by lia. apply add_small. unfold SizeT.modulus in *. lia. }
      assert ((if window_size <=? i then SizeT.add (SizeT.sub i window_size) 1 else 0)
              = start) as ->.
      { unfold start, window_start.
        destruct (window_size <=? i); [destruct Hst; congruence | reflexivity]. }
      rewrite (add_small i 1) by (unfold SizeT.modulus in *; lia).
      rewrite (sub_small (i + 1) start) by lia.
      set (aw := i + 1 - start) in *.
      unfold not3. rewrite (land_not3 aw) by lia.
      rewrite (add_small start) by (unfold SizeT.modulus in *; lia).
      apply post_bind. eapply post_mono.
      { apply (post_for_idx
                 (fun j sum st' =>
                    out st' = out st /\ start <= j /\ j <= start + 4 * (aw / 4) /\
                    (j - start) mod 4 = 0 /\
                    rounds (fun j sum => vaddq_f32 sum (block input j))
                           (N.to_nat ((start + 4 * (aw / 4) - j) / 4)) j 4 sum
                    = rounds (fun j sum => vaddq_f32 sum (block input j))
                             (N.to_nat (aw / 4)) start 4 (vdupq_n_f32 zero))).
        - intros j sum st' (Ho & Hlo & Hhi & Hm & Hacc) Hj.
          destruct (lookup_N input j) as [x0 X0]; [lia |].
          destruct (lookup_N input (j + 1)) as [x1 X1]; [lia |].
          destruct (lookup_N input (j + 2)) as [x2 X2]; [lia |].
          destruct (lookup_N input (j + 3)) as [x3 X3]; [lia |].
          apply post_bind. eapply post_vld1q; [eassumption .. |]. intros st1 E1.
          apply post_ret.
          rewrite add_small by (unfold SizeT.modulus in *; lia).
          split; [| lia]. split; [congruence |]. split; [lia |]. split; [lia |].
          split; [lia |].
          rewrite <- Hacc.
          replace (N.to_nat ((start + 4 * (aw / 4) - j) / 4))
            with (S (N.to_nat ((start + 4 * (aw / 4) - (j + 4)) / 4))) by lia.
          cbn [rounds]. unfold block.
          rewrite (get_lookup _ _ _ X0), (get_lookup _ _ _ X1),
            (get_lookup _ _ _ X2), (get_lookup _ _ _ X3). reflexivity.
        - split; [reflexivity |]. split; [lia |]. split; [lia |]. split; [f_equal; lia |].
          f_equal. lia. }
      intros [j sum] st1 ((Ho1 & Hlo & Hhi & Hm & Hacc) & Hge). cbn [fst snd] in *.
      assert (j = start + 4 * (aw / 4)) as -> by lia.
      replace (N.to_nat ((start + 4 * (aw / 4) - (start + 4 * (aw / 4))) / 4))
        with 0%nat in Hacc by lia.
      cbn [rounds] in Hacc.
      apply post_bind. eapply post_mono.
      { apply (post_for_pure
                 (fun j total => fadd total (get input j))
                 (fun j => N.to_nat (i + 1 - j))
                 (fun st' => out st' = out st) (fun j => start + 4 * (aw / 4) <= j)).
        - intros k Hk Hlt'. unfold SizeT.modulus in *. lia.
        - intros k Hge'. lia.
        - intros k total st' Ho' Hk Hlt'.
          destruct (lookup_N input k) as [x X]; [lia |].
          apply post_bind. eapply post_ld; [exact X |].
          apply post_ret. rewrite (get_lookup _ _ _ X). split; [reflexivity | exact Ho'].
        - exact Ho1.
        - lia. }
      intros total st2 [Htot Ho2]. cbv beta.
      apply post_st_out; [rewrite Ho2; lia |].
      split; [| lia]. split; [lia |]. cbn [out]. rewrite Ho2.
      split; [rewrite length_insert; exact Hl |].
      split.
      + intros k Hk. assert (k < i \/ k = i) as [Hki | ->] by lia.
        * lookups. apply Hdone. exact Hki.
        * lookups. rewrite Htot. unfold window_mean, window_total.
          fold start. fold aw. fold (hsum sum). rewrite Hacc.
          replace (N.to_nat (i + 1 - (start + 4 * (aw / 4))))
            with (N.to_nat (aw mod 4)) by lia.
          reflexivity.
      + intros k Hk. lookups. apply Hrest. lia.
    - split; [lia |]. split; [reflexivity |]. split; [intros k Hk; lia | auto]. }
  intros [] st (i' & (Hi & Hl & Hdone & Hrest) & Hge).
  assert (i' = count) as -> by lia. auto.
Qed.

(** The window of index [i] is all that [output[i]] depends on. *)
Lemma window_mean_causal (input input' : list F) (window_size i : N) :
  (forall j, window_start window_size i <= j -> j <= i -> get input j = get input' j) ->
  window_mean input window_size i = window_mean input' window_size i.
Proof.
  intros Hagree. unfold window_mean, window_total.
  set (start := window_start window_size i) in *.
  set (aw := i + 1 - start).
  assert (start <= i + 1 -> True) as _ by auto.
  destruct (N.le_gt_cases start i) as [Hs | Hs].
  - f_equal.
    rewrite (rounds_ext (fun j sum => vaddq_f32 sum (block input j))
                        (fun j sum => vaddq_f32 sum (block input' j))).
    + apply rounds_ext. intros k acc Hk. rewrite Hagree by (unfold aw in *; lia).
      reflexivity.
    + intros k acc Hk. unfold block.
      rewrite !Hagree by (unfold aw in *; lia). reflexivity.
  - replace aw with 0 by (unfold aw; lia). reflexivity.
Qed.

Lemma window_mean_first (input : list F) (window_size : N) :
  1 <= window_size ->
  window_mean input window_size 0 = fdiv (fadd zero (get input 0)) one.
Proof.
  intros Hw. unfold window_mean, window_start.
  destruct (N.leb_spec window_size 0); [lia |]. reflexivity.
Qed.

Lemma window_mean_one (input : list F) (i : N) :
  window_mean input 1 i = fdiv (fadd zero (get input i)) one.
Proof.
  unfold window_mean.
  assert (window_start 1 i = i) as -> by (unfold window_start; destruct (N.leb_spec 1 i); lia).
  replace (i + 1 - i) with 1 by lia. unfold window_total.
  change (1 / 4) with 0. change (1 mod 4) with 1.
  cbn [rounds N.to_nat Pos.to_nat Pos.iter_op Init.Nat.add].
  replace (i + 4 * 0) with i by lia. reflexivity.
Qed.

(** The window of index [i] holds [min (i + 1) window_size] elements
    and ends at [i]. *)
Lemma window_mean_min (input : list F) (window_size i : N) :
  1 <= window_size ->
  window_mean input window_size i
  = fdiv (window_total input (i + 1 - N.min (i + 1) window_size)
            (N.min (i + 1) window_size))
         (of_N (N.min (i + 1) window_size)).
Proof.
  intros Hw. destruct (window_bounds window_size i Hw) as [Hs Haw].
  unfold window_mean. cbv zeta. rewrite Haw.
  replace (i + 1 - N.min (i + 1) window_size) with (window_start window_size i) by lia.
  reflexivity.
Qed.

Lemma plain_spec (x : F) :
  plain x = true -> is_f32 x = true /\ x <> S754_zero true.
Proof.
  unfold plain. rewrite andb_true_iff. intros [Hv Hz]. split; [exact Hv |].
  intros ->. discriminate.
Qed.

(** A check of [plain] over a prefix by evaluation. *)
Lemma plain_check (a : list F) (count : N) :
  forallb plain (take (N.to_nat count) a) = true ->
  forall i x, i < count -> a !! N.to_nat i = Some x -> plain x = true.
Proof.
  intros H. apply (prefix_Forall (fun x => plain x = true) a count).
  apply Forall_forall. intros x Hx.
  rewrite forallb_forall in H. apply H. apply list_elem_of_In. exact Hx.
Qed.

(** X11. [moving_average_filter] on readable buffers ends without a
    fault and keeps the length of the output. With [window_size = 0] it
    stores nothing. With [window_size >= 1], [output[i]] for [i < count]
    is the sum of the [n = min (i + 1) window_size] samples that end at
    index [i] (lane sums over the full groups of four, reduced, then the
    rest one by one) divided by [n]; elements at or after [count] are
    not written. *)
Theorem moving_average_filter_windows
    (input : list F) (count window_size : N) (s : state F) :
  count < SizeT.modulus ->
  count <= N.of_nat (length input) ->
  count <= N.of_nat (length (out s)) ->
  exists s',
    moving_average_filter input count window_size s = Some (tt, s') /\
    length (out s') = length (out s) /\
    (window_size = 0 -> out s' = out s) /\
    (1 <= window_size ->
     forall i, i < count ->
       let n := N.min (i + 1) window_size in
       out s' !! N.to_nat i
       = Some (fdiv (window_total input (i + 1 - n) n) (of_N n))) /\
    (forall j, count <= j -> out s' !! N.to_nat j = out s !! N.to_nat j).
Proof.
  intros Hc Hin Hout.
  destruct (N.eq_dec window_size 0) as [-> | Hw].
  - exists s. split; [reflexivity |]. split; [reflexivity |].
    split; [reflexivity |]. split; [intros H; lia | reflexivity].
  - destruct (moving_average_filter_post input count window_size s Hc Hin Hout)
      as ([] & s' & Hrun & Hl & Hv & Hf); [lia |].
    exists s'. split; [exact Hrun |]. split; [exact Hl |].
    split; [intros H; lia |]. split; [| exact Hf].
    intros Hw1 i Hi. cbv zeta. rewrite (Hv i Hi). f_equal.
    now apply window_mean_min.
Qed.

Lemma moving_average_filter_windows_witness :
  6 < SizeT.modulus /\
  6 <= N.of_nat (length samples) /\
  6 <= N.of_nat (length (out (cells 6))) /\
  exists s',
    moving_average_filter samples 6 3 (cells 6) = Some (tt, s') /\
    length (out s') = length (out (cells 6)) /\
    (3 = 0 -> out s' = out (cells 6)) /\
    (1 <= 3 ->
     forall i, i < 6 ->
       let n := N.min (i + 1) 3 in
       out s' !! N.to_nat i
       = Some (fdiv (window_total samples (i + 1 - n) n) (of_N n))) /\
    (forall j, 6 <= j -> out s' !! N.to_nat j = out (cells 6) !! N.to_nat j).
Proof.
  split; [reflexivity |].
  split; [vm_compute; discriminate |].
  split; [vm_compute; discriminate |].
  apply (moving_average_filter_windows samples 6 3 (cells 6)).
  - reflexivity.
  - vm_compute; discriminate.
  - vm_compute; discriminate.
Defined.

(** X12. The filter is causal: [output[i]] depends on the samples of
    its window only. Two inputs that agree from index
    [i + 1 - min (i + 1) window_size] to index [i] give the same
    [output[i]], whatever they hold elsewhere and whatever the output
    arrays held before. *)
Theorem moving_average_filter_causal
    (input input' : list F) (count window_size i : N) (s t : state F) :
  count < SizeT.modulus ->
  count <= N.of_nat (length input) ->
  count <= N.of_nat (length input') ->
  count <= N.of_nat (length (out s)) ->
  count <= N.of_nat (length (out t)) ->
  1 <= window_size -> i < count ->
  (forall j, i + 1 - N.min (i + 1) window_size <= j -> j <= i ->
     input !! N.to_nat j = input' !! N.to_nat j) ->
  exists s' t',
    moving_average_filter input count window_size s = Some (tt, s') /\
    moving_average_filter input' count window_size t = Some (tt, t') /\
    out s' !! N.to_nat i = out t' !! N.to_nat i.
Proof.
  intros Hc Hin Hin' Hs Ht Hw Hi Hagree.
  destruct (moving_average_filter_post input count window_size s Hc Hin Hs Hw)
    as ([] & s' & Hrun & _ & Hv & _).
  destruct (moving_average_filter_post input' count window_size t Hc Hin' Ht Hw)
    as ([] & t' & Hrun' & _ & Hv' & _).
  exists s', t'. split; [exact Hrun |]. split; [exact Hrun' |].
  rewrite (Hv i Hi), (Hv' i Hi). f_equal.
  apply window_mean_causal. intros j Hlo Hhi. unfold get.
  rewrite Hagree; [reflexivity | | exact Hhi].
  destruct (window_bounds window_size i Hw) as [_ Haw]. lia.
Qed.

Lemma moving_average_filter_causal_witness :
  6 < SizeT.modulus /\
  6 <= N.of_nat (length samples) /\
  6 <= N.of_nat (length revised) /\
  6 <= N.of_nat (length (out (cells 6))) /\
  6 <= N.of_nat (length (out (cells 8))) /\
  1 <= 3 /\ 3 < 6 /\
  (forall j, 3 + 1 - N.min (3 + 1) 3 <= j -> j <= 3 ->
     samples !! N.to_nat j = revised !! N.to_nat j) /\
  exists s' t',
    moving_average_filter samples 6 3 (cells 6) = Some (tt, s') /\
    moving_average_filter revised 6 3 (cells 8) = Some (tt, t') /\
    out s' !! N.to_nat 3 = out t' !! N.to_nat 3.
Proof.
  assert (forall j, 3 + 1 - N.min (3 + 1) 3 <= j -> j <= 3 ->
            samples !! N.to_nat j = revised !! N.to_nat j) as Hagree.
  { intros j Hlo Hhi. change (3 + 1 - N.min (3 + 1) 3) with 1 in Hlo.
    assert (j = 1 \/ j = 2 \/ j = 3) as [-> | [-> | ->]] by lia; reflexivity. }
  split; [reflexivity |].
  split; [vm_compute; discriminate |].
  split; [vm_compute; discriminate |].
  split; [vm_compute; discriminate |].
  split; [vm_compute; discriminate |].
  split; [vm_compute; discriminate |].
  split; [reflexivity |].
  split; [exact Hagree |].
  apply (moving_average_filter_causal samples revised 6 3 3 (cells 6) (cells 8)).
  - reflexivity.
  - vm_compute; discriminate.
  - vm_compute; discriminate.
  - vm_compute; discriminate.
  - vm_compute; discriminate.
  - vm_compute; discriminate.
  - reflexivity.
  - exact Hagree.
Defined.

(** X13. For every window size of at least one, the first output is the
    first sample, when that sample is a binary32 value other than
    [-0]: a sample that is not NaN comes out with its sign, exponent
    and mantissa, since the sum [+0 + x] and the division by
    [static_cast<float>(1)] are both exact; a NaN sample comes out as a
    NaN. [F] has a single NaN, so nothing is said of the payload of
    that NaN (the sum quiets a signalling one). *)
Theorem moving_average_filter_first_output
    (input : list F) (count window_size : N) (x : F) (s : state F) :
  1 <= count -> count < SizeT.modulus ->
  count <= N.of_nat (length input) ->
  count <= N.of_nat (length (out s)) ->
  1 <= window_size ->
  input !! 0%nat = Some x -> plain x = true ->
  exists s',
    moving_average_filter input count window_size s = Some (tt, s') /\
    out s' !! 0%nat = Some x.
Proof.
  intros Hpos Hc Hin Hout Hw Hx Hp.
  destruct (moving_average_filter_post input count window_size s Hc Hin Hout Hw)
    as ([] & s' & Hrun & _ & Hv & _).
  exists s'. split; [exact Hrun |].
  change 0%nat with (N.to_nat 0). rewrite (Hv 0) by lia. f_equal.
  rewrite (window_mean_first input window_size Hw).
  rewrite (get_lookup input 0 x Hx).
  destruct (plain_spec x Hp) as [Hv' Hz]. now apply mean_of_one.
Qed.

Lemma moving_average_filter_first_output_witness :
  1 <= 6 /\ 6 < SizeT.modulus /\
  6 <= N.of_nat (length samples) /\
  6 <= N.of_nat (length (out (cells 6))) /\
  1 <= 3 /\
  samples !! 0%nat = Some (of_Z 1) /\ plain (of_Z 1) = true /\
  exists s',
    moving_average_filter samples 6 3 (cells 6) = Some (tt, s') /\
    out s' !! 0%nat = Some (of_Z 1).
Proof.
  split; [vm_compute; discriminate |].
  split; [reflexivity |].
  split; [vm_compute; discriminate |].
  split; [vm_compute; discriminate |].
  split; [vm_compute; discriminate |].
  split; [reflexivity |].
  split; [reflexivity |].
  apply (moving_average_filter_first_output samples 6 3 (of_Z 1) (cells 6)).
  - vm_compute; discriminate.
  - reflexivity.
  - vm_compute; discriminate.
  - vm_compute; discriminate.
  - vm_compute; discriminate.
  - reflexivity.
  - reflexivity.
Defined.

(** X14. With [window_size = 1] the filter copies its input, when the
    samples are binary32 values other than [-0]: every sample below
    [count] that is not NaN, infinities included, is stored with its
    sign, exponent and mantissa, and a NaN sample is stored as a NaN.
    [F] has a single NaN, so nothing is said of the payload of that NaN
    (the sum quiets a signalling one). *)
Theorem moving_average_filter_window_one
    (input : list F) (count : N) (s : state F) :
  count < SizeT.modulus ->
  count <= N.of_nat (length input) ->
  count <= N.of_nat (length (out s)) ->
  (forall i x, i < count -> input !! N.to_nat i = Some x -> plain x = true) ->
  exists s',
    moving_average_filter input count 1 s = Some (tt, s') /\
    forall i, i < count -> out s' !! N.to_nat i = input !! N.to_nat i.
Proof.
  intros Hc Hin Hout Hp.
  destruct (moving_average_filter_post input count 1 s Hc Hin Hout)
    as ([] & s' & Hrun & _ & Hv & _); [lia |].
  exists s'. split; [exact Hrun |]. intros i Hi.
  destruct (lookup_N input i) as [x Hx]; [lia |].
  rewrite (Hv i Hi), Hx. f_equal.
  rewrite window_mean_one, (get_lookup _ _ _ Hx).
  destruct (plain_spec x (Hp i x Hi Hx)) as [Hv' Hz]. now apply mean_of_one.
Qed.

Lemma moving_average_filter_window_one_witness :
  6 < SizeT.modulus /\
  6 <= N.of_nat (length samples) /\
  6 <= N.of_nat (length (out (cells 6))) /\
  (forall i x, i < 6 -> samples !! N.to_nat i = Some x -> plain x = true) /\
  exists s',
    moving_average_filter samples 6 1 (cells 6) = Some (tt, s') /\
    forall i, i < 6 -> out s' !! N.to_nat i = samples !! N.to_nat i.
Proof.
  split; [reflexivity |].
  split; [vm_compute; discriminate |].
  split; [vm_compute; discriminate |].
  split; [apply plain_check; reflexivity |].
  apply (moving_average_filter_window_one samples 6 (cells 6)).
  - reflexivity.
  - vm_compute; discriminate.
  - vm_compute; discriminate.
  - apply plain_check; reflexivity.
Defined.

End MovingAverage.

(** ** [threshold_detection]: what is written, and NaN *)
Module Flags.
Import Mem Neon F32 Loop Kernels Spec HoareRules SizeTFacts F32Order.
Import F32Arith.

Lemma threshold_detection_post
    (sensor_data : list F) (threshold : F) (count : N) (s : state N) :
  count < SizeT.modulus ->
  count <= N.of_nat (length sensor_data) ->
  count <= N.of_nat (length (out s)) ->
  post (threshold_detection sensor_data count threshold) s
       (fun _ s' =>
          length (out s') = length (out s) /\
          (forall i, i < count ->
             out s' !! N.to_nat i = Some (b2n (fgt (get sensor_data i) threshold))) /\
          (forall j, count <= j -> out s' !! N.to_nat j = out s !! N.to_nat j)).
Proof.
  intros Hc Hin Hout.
  set (written (i : N) (st : state N) :=
         length (out st) = length (out s) /\
         (forall k, k < i ->
            out st !! N.to_nat k = Some (b2n (fgt (get sensor_data k) threshold))) /\
         (forall j, i <= j -> out st !! N.to_nat j = out s !! N.to_nat j)).
  unfold threshold_detection, not3. rewrite land_not3 by exact Hc.
  apply post_bind.
  eapply post_mono.
  { apply (post_for_loop
             (fun i (_ : unit) st =>
                i mod 4 = 0 /\ i <= 4 * (count / 4) /\ written i st)).
    - intros i [] st (Hm & Hle & Hl & Hw & Hf) Hlt.
      destruct (lookup_N sensor_data i) as [x0 H0]; [lia |].
      destruct (lookup_N sensor_data (i + 1)) as [x1 H1]; [lia |].
      destruct (lookup_N sensor_data (i + 2)) as [x2 H2]; [lia |].
      destruct (lookup_N sensor_data (i + 3)) as [x3 H3]; [lia |].
      apply post_bind. eapply post_vld1q; [eassumption .. |].
      intros st1 Hst1.
      destruct (Threshold.flag_lanes x0 x1 x2 x3 threshold) as (F0 & F1 & F2 & F3).
      cbv zeta in F0, F1, F2, F3. rewrite F0, F1, F2, F3.
      rewrite !add_small by (unfold SizeT.modulus in *; lia).
      apply post_bind. apply post_st_out; [rewrite Hst1; lia |].
      apply post_bind.
      apply post_st_out; [cbn [out]; rewrite length_insert, Hst1; lia |].
      apply post_bind.
      apply post_st_out; [cbn [out]; rewrite !length_insert, Hst1; lia |].
      apply post_st_out; [cbn [out]; rewrite !length_insert, Hst1; lia |].
      split; [| lia]. split; [lia |]. split; [lia |].
      unfold written. cbn [out]. rewrite Hst1.
      split; [rewrite !length_insert; exact Hl |].
      split.
      + intros k Hk.
        assert (k < i \/ k = i \/ k = i + 1 \/ k = i + 2 \/ k = i + 3)
          as [Hlo | [-> | [-> | [-> | ->]]]] by lia.
        * lookups. apply Hw; assumption.
        * lookups. rewrite (get_lookup _ _ _ H0). reflexivity.
        * lookups. rewrite (get_lookup _ _ _ H1). reflexivity.
        * lookups. rewrite (get_lookup _ _ _ H2). reflexivity.
        * lookups. rewrite (get_lookup _ _ _ H3). reflexivity.
      + intros j Hj. lookups. apply Hf. lia.
    - split; [reflexivity |]. split; [lia |]. split; [reflexivity |].
      split; [intros k Hk; lia | auto]. }
  intros [] st (i' & (Hm & Hle & Hw) & Hge). cbv beta.
  assert (i' = 4 * (count / 4)) as -> by lia.
  eapply post_mono.
  { apply (post_for_loop
             (fun i (_ : unit) st =>
                4 * (count / 4) <= i /\ i <= count /\ written i st)).
    - intros i [] st1 (Hlo & Hhi & Hl & Hw1 & Hf1) Hlt.
      destruct (lookup_N sensor_data i) as [x Hx]; [lia |].
      apply post_bind. eapply post_ld; [exact Hx |].
      apply post_st_out; [cbn [out record]; lia |].
      rewrite !add_small by (unfold SizeT.modulus in *; lia).
      split; [| lia]. split; [lia |]. split; [lia |].
      unfold written. cbn [out record].
      split; [rewrite length_insert; exact Hl |].
      split.
      + intros k Hk. assert (k < i \/ k = i) as [Hlo' | ->] by lia.
        * lookups. apply Hw1; assumption.
        * lookups. rewrite (get_lookup _ _ _ Hx).
          destruct (fgt x threshold); reflexivity.
      + intros j Hj. lookups. apply Hf1. lia.
    - split; [lia |]. split; [lia |]. exact Hw. }
  intros [] st2 (i2 & (Hlo & Hhi & Hw2) & Hge2). cbv beta.
  assert (i2 = count) as -> by lia. exact Hw2.
Qed.

(** X15. [threshold_detection] writes the first [count] flags and
    nothing else: it ends without a fault, keeps the length of
    [detections], stores 0 or 1 in each element below [count], and
    leaves every element at or after [count] as it was. *)
Theorem threshold_detection_frame
    (sensor_data : list F) (threshold : F) (count : N) (s : state N) :
  count < SizeT.modulus ->
  count <= N.of_nat (length sensor_data) ->
  count <= N.of_nat (length (out s)) ->
  exists s',
    threshold_detection sensor_data count threshold s = Some (tt, s') /\
    length (out s') = length (out s) /\
    (forall i, i < count ->
       out s' !! N.to_nat i = Some 0 \/ out s' !! N.to_nat i = Some 1) /\
    (forall j, count <= j -> out s' !! N.to_nat j = out s !! N.to_nat j).
Proof.
  intros Hc Hin Hout.
  destruct (threshold_detection_post sensor_data threshold count s Hc Hin Hout)
    as ([] & s' & Hrun & Hl & Hv & Hf).
  exists s'. split; [exact Hrun |]. split; [exact Hl |]. split; [| exact Hf].
  intros i Hi. rewrite (Hv i Hi).
  destruct (fgt (get sensor_data i) threshold); [right | left]; reflexivity.
Qed.

Lemma threshold_detection_frame_witness :
  5 < SizeT.modulus /\
  5 <= N.of_nat (length samples) /\
  5 <= N.of_nat (length (out flags0)) /\
  exists s',
    threshold_detection samples 5 (of_Z 3) flags0 = Some (tt, s') /\
    length (out s') = length (out flags0) /\
    (forall i, i < 5 ->
       out s' !! N.to_nat i = Some 0 \/ out s' !! N.to_nat i = Some 1) /\
    (forall j, 5 <= j -> out s' !! N.to_nat j = out flags0 !! N.to_nat j).
Proof.
  split; [reflexivity |].
  split; [vm_compute; discriminate |].
  split; [vm_compute; discriminate |].
  apply (threshold_detection_frame samples (of_Z 3) 5 flags0).
  - reflexivity.
  - vm_compute; discriminate.
  - vm_compute; discriminate.
Defined.

(** X16. NaN is never detected: a NaN sample gets the flag 0 whatever
    the threshold, and with a NaN threshold every flag below [count] is
    0, in the lanes and in the tail. *)
Theorem threshold_detection_nan
    (sensor_data : list F) (threshold : F) (count i : N) (s : state N) :
  count < SizeT.modulus ->
  count <= N.of_nat (length sensor_data) ->
  count <= N.of_nat (length (out s)) ->
  i < count ->
  threshold = nan \/ sensor_data !! N.to_nat i = Some nan ->
  exists s',
    threshold_detection sensor_data count threshold s = Some (tt, s') /\
    out s' !! N.to_nat i = Some 0.
Proof.
  intros Hc Hin Hout Hi Hn.
  destruct (threshold_detection_post sensor_data threshold count s Hc Hin Hout)
    as ([] & s' & Hrun & _ & Hv & _).
  exists s'. split; [exact Hrun |]. rewrite (Hv i Hi).
  destruct Hn as [-> | Hn].
  - rewrite fgt_nan_r. reflexivity.
  - rewrite (get_lookup _ _ _ Hn), fgt_nan_l. reflexivity.
Qed.

Lemma threshold_detection_nan_witness :
  4 < SizeT.modulus /\
  4 <= N.of_nat (length broken) /\
  4 <= N.of_nat (length (out flags0)) /\
  1 < 4 /\
  (of_Z 3 = nan \/ broken !! N.to_nat 1 = Some nan) /\
  exists s',
    threshold_detection broken 4 (of_Z 3) flags0 = Some (tt, s') /\
    out s' !! N.to_nat 1 = Some 0.
Proof.
  split; [reflexivity |].
  split; [vm_compute; discriminate |].
  split; [vm_compute; discriminate |].
  split; [reflexivity |].
  split; [right; reflexivity |].
  apply (threshold_detection_nan broken (of_Z 3) 4 1 flags0).
  - reflexivity.
  - vm_compute; discriminate.
  - vm_compute; discriminate.
  - reflexivity.
  - right; reflexivity.
Defined.

End Flags.

(** ** [exp_moving_average]: what is written, and NaN *)
Module Smoothing.
Import Mem Neon F32 Loop Kernels Spec HoareRules SizeTFacts F32Order.
Import F32Arith.

(** The outputs in closed form, and nothing else is stored. *)
Lemma exp_moving_average_post
    (input : list F) (count : N) (alpha : F) (s : state F) :
  1 <= count -> count < SizeT.modulus ->
  count <= N.of_nat (length input) ->
  count <= N.of_nat (length (out s)) ->
  post (exp_moving_average input count alpha) s
       (fun _ s' =>
          length (out s') = length (out s) /\
          (forall i, i < count ->
             out s' !! N.to_nat i = Some (ema alpha input (N.to_nat i))) /\
          (forall j, count <= j -> out s' !! N.to_nat j = out s !! N.to_nat j)).
Proof.
  intros Hpos Hc Hin Hout.
  unfold exp_moving_average. destruct (N.eqb_spec count 0) as [? | _]; [lia |].
  destruct (lookup_N input 0) as [x0 H0]; [lia |].
  apply post_bind. eapply post_ld; [exact H0 |].
  apply post_bind. apply post_st_out; [cbn [out record]; lia |].
  eapply post_mono.
  { apply (post_for_loop
             (fun i (_ : unit) st =>
                1 <= i /\ i <= count /\ length (out st) = length (out s) /\
                (forall k, k < i ->
                   out st !! N.to_nat k = Some (ema alpha input (N.to_nat k))) /\
                (forall j, i <= j -> out st !! N.to_nat j = out s !! N.to_nat j))).
    - intros i [] st (Hlo & Hhi & Hl & Hdone & Hrest) Hlt.
      destruct (lookup_N input i) as [x Hx]; [lia |].
      pose proof (Hdone (i - 1) ltac:(lia)) as Hp.
      apply post_bind. eapply post_ld; [exact Hx |].
      rewrite sub_small by (unfold SizeT.modulus in *; lia).
      apply post_bind. eapply post_ld_out; [exact Hp |].
      apply post_st_out; [cbn [out record]; lia |].
      rewrite add_small by (unfold SizeT.modulus in *; lia).
      split; [| lia]. split; [lia |]. split; [lia |].
      cbn [out record].
      split; [rewrite length_insert; exact Hl |].
      split.
      + intros k Hk. assert (k < i \/ k = i) as [Hki | ->] by lia.
        * lookups. apply Hdone. exact Hki.
        * lookups. f_equal.
          replace (N.to_nat i) with (S (N.to_nat (i - 1))) by lia.
          cbn [ema]. replace (N.of_nat (S (N.to_nat (i - 1)))) with i by lia.
          rewrite (get_lookup _ _ _ Hx). reflexivity.
      + intros j Hj. lookups. apply Hrest. lia.
    - split; [lia |]. split; [lia |]. cbn [out record].
      split; [rewrite length_insert; reflexivity |].
      split.
      + intros k Hk. assert (k = 0) as -> by lia.
        change (N.to_nat 0) with 0%nat. lookups. cbn [ema].
        rewrite (get_lookup _ _ _ H0). reflexivity.
      + intros j Hj. lookups. reflexivity. }
  intros [] st (i' & (Hlo & Hhi & Hf) & Hge). assert (i' = count) as -> by lia.
  exact Hf.
Qed.

Lemma fadd_nan_r (x : F) : fadd x nan = nan.
Proof. destruct x; reflexivity. Qed.
Lemma fmul_nan_r (x : F) : fmul x nan = nan.
Proof. destruct x; reflexivity. Qed.

(** From a NaN sample on, the recurrence gives NaN. *)
Lemma ema_nan_sticks (alpha : F) (input : list F) (k : nat) :
  is_nan (get input (N.of_nat k)) = true ->
  forall n, (k <= n)%nat -> is_nan (ema alpha input n) = true.
Proof.
  intros Hk n Hn. induction n as [| n IH].
  - assert (k = 0%nat) as -> by lia. exact Hk.
  - cbn [ema]. unfold ema_step.
    destruct (Nat.eq_dec k (S n)) as [-> | Hne].
    + apply WeightedAverage.fadd_nan. left.
      destruct (get input (N.of_nat (S n))); try discriminate. now rewrite fmul_nan_r.
    + apply WeightedAverage.fadd_nan. right.
      destruct (ema alpha input n) eqn:E; try (specialize (IH ltac:(lia)); discriminate).
      now rewrite fmul_nan_r.
Qed.

(** X17. [exp_moving_average] never recovers from a NaN: a NaN sample
    at index [k] makes every output from [k] to [count - 1] NaN, for
    every [alpha]. *)
Theorem exp_moving_average_nan_sticks
    (input : list F) (count : N) (alpha : F) (k : N) (s : state F) :
  count < SizeT.modulus ->
  count <= N.of_nat (length input) ->
  count <= N.of_nat (length (out s)) ->
  k < count -> input !! N.to_nat k = Some nan ->
  exists s',
    exp_moving_average input count alpha s = Some (tt, s') /\
    forall i, k <= i -> i < count -> out s' !! N.to_nat i = Some nan.
Proof.
  intros Hc Hin Hout Hk Hnan.
  destruct (exp_moving_average_post input count alpha s) as ([] & s' & Hrun & _ & Hv & _);
    [lia | exact Hc | exact Hin | exact Hout |].
  exists s'. split; [exact Hrun |]. intros i Hlo Hhi.
  rewrite (Hv i Hhi). f_equal. apply is_nan_eq.
  apply (ema_nan_sticks alpha input (N.to_nat k)); [| lia].
  rewrite N2Nat.id, (get_lookup _ _ _ Hnan). reflexivity.
Qed.

Lemma exp_moving_average_nan_sticks_witness :
  4 < SizeT.modulus /\
  4 <= N.of_nat (length broken) /\
  4 <= N.of_nat (length (out (cells 4))) /\
  1 < 4 /\ broken !! N.to_nat 1 = Some nan /\
  exists s',
    exp_moving_average broken 4 half (cells 4) = Some (tt, s') /\
    forall i, 1 <= i -> i < 4 -> out s' !! N.to_nat i = Some nan.
Proof.
  split; [reflexivity |].
  split; [vm_compute; discriminate |].
  split; [vm_compute; discriminate |].
  split; [reflexivity |].
  split; [reflexivity |].
  apply (exp_moving_average_nan_sticks broken 4 half 1 (cells 4)).
  - reflexivity.
  - vm_compute; discriminate.
  - vm_compute; discriminate.
  - reflexivity.
  - reflexivity.
Defined.

(** X18. [exp_moving_average] writes the first [count] elements of
    [output] and nothing else: it ends without a fault, keeps the
    length of the array, and leaves every element at or after [count]
    as it was. The output of one index is a function of [alpha] and of
    the samples up to that index alone. *)
Theorem exp_moving_average_frame
    (input : list F) (count : N) (alpha : F) (s : state F) :
  count < SizeT.modulus ->
  count <= N.of_nat (length input) ->
  count <= N.of_nat (length (out s)) ->
  exists s',
    exp_moving_average input count alpha s = Some (tt, s') /\
    length (out s') = length (out s) /\
    (forall i, i < count ->
       out s' !! N.to_nat i = Some (ema alpha input (N.to_nat i))) /\
    (forall j, count <= j -> out s' !! N.to_nat j = out s !! N.to_nat j).
Proof.
  intros Hc Hin Hout.
  destruct (N.eq_dec count 0) as [-> | Hpos].
  - exists s. split; [reflexivity |]. split; [reflexivity |].
    split; [intros i Hi; lia | reflexivity].
  - destruct (exp_moving_average_post input count alpha s)
      as ([] & s' & Hrun & Hw); [lia | exact Hc | exact Hin | exact Hout |].
    exists s'. split; [exact Hrun | exact Hw].
Qed.

Lemma exp_moving_average_frame_witness :
  4 < SizeT.modulus /\
  4 <= N.of_nat (length signal) /\
  4 <= N.of_nat (length (out (cells 6))) /\
  exists s',
    exp_moving_average signal 4 half (cells 6) = Some (tt, s') /\
    length (out s') = length (out (cells 6)) /\
    (forall i, i < 4 ->
       out s' !! N.to_nat i = Some (ema half signal (N.to_nat i))) /\
    (forall j, 4 <= j -> out s' !! N.to_nat j = out (cells 6) !! N.to_nat j).
Proof.
  split; [reflexivity |].
  split; [vm_compute; discriminate |].
  split; [vm_compute; discriminate |].
  apply (exp_moving_average_frame signal 4 half (cells 6)).
  - reflexivity.
  - vm_compute; discriminate.
  - vm_compute; discriminate.
Defined.

End Smoothing.

(** ** [speed]: every output *)
Module Speeds.
Import Mem Neon F32 Loop Kernels Spec HoareRules SizeTFacts F32Order.
Import F32Arith.

Lemma speed_post
    (positions_prev positions_curr : list F) (count : N) (time_delta : F)
    (s : state F) :
  count < SizeT.modulus ->
  count <= N.of_nat (length positions_prev) ->
  count <= N.of_nat (length positions_curr) ->
  count <= N.of_nat (length (out s)) ->
  post (speed positions_prev positions_curr count time_delta) s
       (fun _ s' =>
          length (out s') = length (out s) /\
          (forall i, i < count ->
             out s' !! N.to_nat i
             = Some (speed_at positions_prev positions_curr count time_delta i)) /\
          (forall j, count <= j -> out s' !! N.to_nat j = out s !! N.to_nat j)).
Proof.
  intros Hc Hp Hcu Hout.
  set (written (i : N) (st : state F) :=
         length (out st) = length (out s) /\
         (forall k, k < i ->
            out st !! N.to_nat k
            = Some (speed_at positions_prev positions_curr count time_delta k)) /\
         (forall j, i <= j -> out st !! N.to_nat j = out s !! N.to_nat j)).
  unfold speed, not3. rewrite land_not3 by exact Hc.
  apply post_bind.
  eapply post_mono.
  { apply (post_for_loop
             (fun i (_ : unit) st =>
                i mod 4 = 0 /\ i <= 4 * (count / 4) /\ written i st)).
    - intros i [] st (Hm & Hle & Hl & Hw & Hf) Hlt.
      destruct (lookup_N positions_prev i) as [p0 P0]; [lia |].
      destruct (lookup_N positions_prev (i + 1)) as [p1 P1]; [lia |].
      destruct (lookup_N positions_prev (i + 2)) as [p2 P2]; [lia |].
      destruct (lookup_N positions_prev (i + 3)) as [p3 P3]; [lia |].
      destruct (lookup_N positions_curr i) as [c0 C0]; [lia |].
      destruct (lookup_N positions_curr (i + 1)) as [c1 C1]; [lia |].
      destruct (lookup_N positions_curr (i + 2)) as [c2 C2]; [lia |].
      destruct (lookup_N positions_curr (i + 3)) as [c3 C3]; [lia |].
      apply post_bind. eapply post_vld1q; [eassumption .. |]. intros st1 H1.
      apply post_bind. eapply post_vld1q; [eassumption .. |]. intros st2 H2.
      apply post_vst1q; [rewrite H2, H1; lia |]. intros lg.
      rewrite add_small by (unfold SizeT.modulus in *; lia).
      split; [| lia]. split; [lia |]. split; [lia |].
      unfold written. cbn [out]. rewrite H2, H1.
      split; [rewrite !length_insert; exact Hl |].
      split.
      + intros k Hk.
        assert (k < i \/ k = i \/ k = i + 1 \/ k = i + 2 \/ k = i + 3)
          as [Hlo | [-> | [-> | [-> | ->]]]] by lia.
        * lookups. apply Hw; assumption.
        * lookups. unfold speed_at.
          destruct (N.ltb_spec i (4 * (count / 4))); [| lia].
          rewrite (get_lookup _ _ _ C0), (get_lookup _ _ _ P0). reflexivity.
        * lookups. unfold speed_at.
          destruct (N.ltb_spec (i + 1) (4 * (count / 4))); [| lia].
          rewrite (get_lookup _ _ _ C1), (get_lookup _ _ _ P1). reflexivity.
        * lookups. unfold speed_at.
          destruct (N.ltb_spec (i + 2) (4 * (count / 4))); [| lia].
          rewrite (get_lookup _ _ _ C2), (get_lookup _ _ _ P2). reflexivity.
        * lookups. unfold speed_at.
          destruct (N.ltb_spec (i + 3) (4 * (count / 4))); [| lia].
          rewrite (get_lookup _ _ _ C3), (get_lookup _ _ _ P3). reflexivity.
      + intros j Hj. lookups. apply Hf. lia.
    - split; [reflexivity |]. split; [lia |]. split; [reflexivity |].
      split; [intros k Hk; lia | auto]. }
  intros [] st (i' & (Hm & Hle & Hw) & Hge). cbv beta.
  assert (i' = 4 * (count / 4)) as -> by lia.
  eapply post_mono.
  { apply (post_for_loop
             (fun i (_ : unit) st =>
                4 * (count / 4) <= i /\ i <= count /\ written i st)).
    - intros i [] st1 (Hlo & Hhi & Hl & Hw1 & Hf1) Hlt.
      destruct (lookup_N positions_curr i) as [c C]; [lia |].
      destruct (lookup_N positions_prev i) as [p P]; [lia |].
      apply post_bind. eapply post_ld; [exact C |].
      apply post_bind. eapply post_ld; [exact P |].
      apply post_st_out; [cbn [out record]; lia |].
      rewrite add_small by (unfold SizeT.modulus in *; lia).
      split; [| lia]. split; [lia |]. split; [lia |].
      unfold written. cbn [out record].
      split; [rewrite length_insert; exact Hl |].
      split.
      + intros k Hk. assert (k < i \/ k = i) as [Hlo' | ->] by lia.
        * lookups. apply Hw1; assumption.
        * lookups. unfold speed_at.
          destruct (N.ltb_spec i (4 * (count / 4))); [lia |].
          rewrite (get_lookup _ _ _ C), (get_lookup _ _ _ P). reflexivity.
      + intros j Hj. lookups. apply Hf1. lia.
    - split; [lia |]. split; [lia |]. exact Hw. }
  intros [] st2 (i2 & (Hlo & Hhi & Hw2) & Hge2). cbv beta.
  assert (i2 = count) as -> by lia. exact Hw2.
Qed.

Lemma speed_at_zero_delta (positions_prev positions_curr : list F) (count i : N)
    (sz : bool) :
  inf_or_nan (speed_at positions_prev positions_curr count (S754_zero sz) i) = true.
Proof.
  unfold speed_at.
  destruct (fsub (get positions_curr i) (get positions_prev i)) as [[] | [] | | [] m e];
    destruct (i <? 4 * (count / 4)); destruct sz; reflexivity.
Qed.

(** X19. [speed] on readable buffers ends without a fault, keeps the
    length of [speeds], stores in each element below [count & ~3] the
    difference times the reciprocal of [time_delta] and in each later
    element below [count] the difference divided by [time_delta], and
    leaves every element at or after [count] as it was. *)
Theorem speed_values
    (positions_prev positions_curr : list F) (count : N) (time_delta : F)
    (s : state F) :
  count < SizeT.modulus ->
  count <= N.of_nat (length positions_prev) ->
  count <= N.of_nat (length positions_curr) ->
  count <= N.of_nat (length (out s)) ->
  exists s',
    speed positions_prev positions_curr count time_delta s = Some (tt, s') /\
    length (out s') = length (out s) /\
    (forall i p c, i < count ->
       positions_prev !! N.to_nat i = Some p ->
       positions_curr !! N.to_nat i = Some c ->
       out s' !! N.to_nat i
       = Some (if i <? 4 * (count / 4)
               then fmul (fsub c p) (fdiv one time_delta)
               else fdiv (fsub c p) time_delta)) /\
    (forall j, count <= j -> out s' !! N.to_nat j = out s !! N.to_nat j).
Proof.
  intros Hc Hp Hcu Hout.
  destruct (speed_post positions_prev positions_curr count time_delta s Hc Hp Hcu Hout)
    as ([] & s' & Hrun & Hl & Hv & Hf).
  exists s'. split; [exact Hrun |]. split; [exact Hl |]. split; [| exact Hf].
  intros i p c Hi P C. rewrite (Hv i Hi). unfold speed_at.
  rewrite (get_lookup _ _ _ P), (get_lookup _ _ _ C). reflexivity.
Qed.

Lemma speed_values_witness :
  5 < SizeT.modulus /\
  5 <= N.of_nat (length credits) /\
  5 <= N.of_nat (length marks) /\
  5 <= N.of_nat (length (out (cells 6))) /\
  exists s',
    speed credits marks 5 (of_Z 3) (cells 6) = Some (tt, s') /\
    length (out s') = length (out (cells 6)) /\
    (forall i p c, i < 5 ->
       credits !! N.to_nat i = Some p ->
       marks !! N.to_nat i = Some c ->
       out s' !! N.to_nat i
       = Some (if i <? 4 * (5 / 4)
               then fmul (fsub c p) (fdiv one (of_Z 3))
               else fdiv (fsub c p) (of_Z 3))) /\
    (forall j, 5 <= j -> out s' !! N.to_nat j = out (cells 6) !! N.to_nat j).
Proof.
  split; [reflexivity |].
  split; [vm_compute; discriminate |].
  split; [vm_compute; discriminate |].
  split; [vm_compute; discriminate |].
  apply (speed_values credits marks 5 (of_Z 3) (cells 6)).
  - reflexivity.
  - vm_compute; discriminate.
  - vm_compute; discriminate.
  - vm_compute; discriminate.
Defined.

(** X20. [time_delta] is not checked: with a zero [time_delta], of
    either sign, [speed] ends without a fault and every speed below
    [count] is an infinity or NaN, never a finite number. *)
Theorem speed_zero_delta
    (positions_prev positions_curr : list F) (count : N) (negative : bool)
    (s : state F) :
  count < SizeT.modulus ->
  count <= N.of_nat (length positions_prev) ->
  count <= N.of_nat (length positions_curr) ->
  count <= N.of_nat (length (out s)) ->
  exists s',
    speed positions_prev positions_curr count (S754_zero negative) s = Some (tt, s') /\
    forall i, i < count ->
      exists v, out s' !! N.to_nat i = Some v /\ inf_or_nan v = true.
Proof.
  intros Hc Hp Hcu Hout.
  destruct (speed_post positions_prev positions_curr count (S754_zero negative) s
              Hc Hp Hcu Hout) as ([] & s' & Hrun & _ & Hv & _).
  exists s'. split; [exact Hrun |]. intros i Hi.
  eexists. split; [apply (Hv i Hi) |]. apply speed_at_zero_delta.
Qed.

Lemma speed_zero_delta_witness :
  5 < SizeT.modulus /\
  5 <= N.of_nat (length credits) /\
  5 <= N.of_nat (length marks) /\
  5 <= N.of_nat (length (out (cells 6))) /\
  exists s',
    speed credits marks 5 (S754_zero false) (cells 6) = Some (tt, s') /\
    forall i, i < 5 ->
      exists v, out s' !! N.to_nat i = Some v /\ inf_or_nan v = true.
Proof.
  split; [reflexivity |].
  split; [vm_compute; discriminate |].
  split; [vm_compute; discriminate |].
  split; [vm_compute; discriminate |].
  apply (speed_zero_delta credits marks 5 false (cells 6)).
  - reflexivity.
  - vm_compute; discriminate.
  - vm_compute; discriminate.
  - vm_compute; discriminate.
Defined.

End Speeds.

(** ** [min_index]: NaN in front, and short arrays *)
Module ArgMin.
Import Mem Neon F32 Loop Kernels Spec HoareRules SizeTFacts F32Order MinIndex.
Import F32Arith.

(** Nothing compares below NaN: with [array[0]] NaN the first
    candidate is never replaced, in the lanes, in the pass over the
    lane candidates, or in the tail. *)
Lemma min_index_nan_first_post {T} (array : list F) (count : N) (s : state T) :
  0 < count -> count < SizeT.modulus -> count <= N.of_nat (length array) ->
  array !! 0%nat = Some nan ->
  post (min_index array count) s (fun r s' => r = 0 /\ out s' = out s).
Proof.
  intros Hpos Hc Hlen H0.
  unfold min_index. destruct (N.eqb_spec count 0) as [? | _]; [lia |].
  unfold not3. rewrite land_not3 by exact Hc.
  apply post_bind. eapply post_ld; [exact H0 |].
  apply post_bind.
  apply post_mono with (Q := fun acc s' => acc = (nan, 0) /\ out s' = out s).
  - destruct (N.leb_spec 4 (4 * (count / 4))) as [Hs | Hs]; [| apply post_ret; auto].
    destruct (lookup_N array 1) as [v1 H1]; [lia |].
    destruct (lookup_N array 2) as [v2 H2]; [lia |].
    destruct (lookup_N array 3) as [v3 H3]; [lia |].
    apply post_bind. eapply (post_vld1q _ _ 0); [eassumption .. |].
    intros s1 Hs1. apply post_bind.
    eapply post_mono.
    { apply (post_for_loop
               (fun i (acc : float32x4_t * uint32x4_t) st =>
                  out st = out s /\ i mod 4 = 0 /\ i <= 4 * (count / 4))).
      - intros i [mv iv] st (Ho & Hm & Hi) Hlt.
        destruct (lookup_N array i) as [x0 X0]; [lia |].
        destruct (lookup_N array (i + 1)) as [x1 X1]; [lia |].
        destruct (lookup_N array (i + 2)) as [x2 X2]; [lia |].
        destruct (lookup_N array (i + 3)) as [x3 X3]; [lia |].
        apply post_bind. eapply post_vld1q; [eassumption .. |].
        intros st1 Hst1. apply post_ret.
        rewrite !add_small by (unfold SizeT.modulus in *; lia).
        split; [| lia]. split; [congruence |]. split; lia.
      - split; [exact Hs1 |]. split; [reflexivity | lia]. }
    intros [mv iv] st (i' & (Ho & _) & _). apply post_ret.
    split; [| exact Ho].
    unfold collapse, collapse_body. cbn [foldl]. rewrite !flt_nan_r. reflexivity.
  - intros acc s1 [-> Ho].
    apply post_bind. eapply post_mono.
    { apply (post_for_loop
               (fun i (acc : F * N) st =>
                  acc = (nan, 0) /\ out st = out s /\ i <= count)).
      - intros i acc st (-> & Ho' & Hi) Hlt.
        destruct (lookup_N array i) as [x Hx]; [lia |].
        apply post_bind. eapply post_ld; [exact Hx |].
        rewrite flt_nan_r. apply post_ret.
        rewrite add_small by (unfold SizeT.modulus in *; lia).
        split; [| lia]. split; [reflexivity |]. split; [exact Ho' | lia].
      - split; [reflexivity |]. split; [exact Ho | lia]. }
    intros acc st (i' & (-> & Ho' & _) & _). apply post_ret. auto.
Qed.

(** An array with a minimum holds no NaN. *)
Lemma is_min_no_nan (a : list F) (count j : N) : is_min_at a count j -> no_nan a count.
Proof.
  intros (Hj & v & Lv & Hmin) k y Hk Ly.
  specialize (Hmin k y Hk Ly). destruct y; try reflexivity.
  destruct v as [[] | [] | | [] m e]; discriminate.
Qed.

Lemma before_zero (simd r : N) : before simd r 0 -> r = 0.
Proof.
  unfold before, cls.
  destruct (N.ltb_spec r simd), (N.ltb_spec 0 simd); lia.
Qed.

Lemma before_small (simd r j : N) : simd <= 4 -> before simd r j -> r <= j.
Proof.
  unfold before, cls.
  destruct (N.ltb_spec r simd), (N.ltb_spec j simd); lia.
Qed.

(** A check of a minimum by evaluation. *)
Lemma is_min_check (a : list F) (count p : N) (v : F) :
  p < count -> a !! N.to_nat p = Some v ->
  forallb (fun y => fle v y) (take (N.to_nat count) a) = true ->
  is_min_at a count p.
Proof.
  intros Hp Lv H. split; [exact Hp |]. exists v. split; [exact Lv |].
  apply (prefix_Forall (fun y => fle v y = true) a count).
  apply Forall_forall. intros x Hx.
  rewrite forallb_forall in H. apply H. apply list_elem_of_In. exact Hx.
Qed.

(** X21. When [array[0]] is NaN, [min_index] returns 0 for every
    non-empty array, whatever the other elements are: no comparison
    with NaN holds, so the first candidate stays. *)
Theorem min_index_nan_first {T} (array : list F) (count : N) (s : state T) :
  0 < count -> count < SizeT.modulus -> count <= N.of_nat (length array) ->
  array !! 0%nat = Some nan ->
  exists s', min_index array count s = Some (0, s') /\ out s' = out s.
Proof.
  intros Hpos Hc Hlen H0.
  destruct (min_index_nan_first_post array count s Hpos Hc Hlen H0)
    as (r & s' & Hrun & -> & Hout).
  exists s'. auto.
Qed.

Lemma min_index_nan_first_witness :
  0 < 5 /\ 5 < SizeT.modulus /\ 5 <= N.of_nat (length nan_first) /\
  nan_first !! 0%nat = Some nan /\
  exists s', min_index nan_first 5 nothing = Some (0, s') /\ out s' = out nothing.
Proof.
  split; [reflexivity |]. split; [reflexivity |].
  split; [vm_compute; discriminate |].
  split; [reflexivity |].
  apply (min_index_nan_first nan_first 5 nothing).
  - reflexivity.
  - reflexivity.
  - vm_compute; discriminate.
  - reflexivity.
Defined.

(** X22. When [array[0]] is a minimum of the array, [min_index]
    returns 0, for every size below [2^64]: index 0 comes first in the
    order of the lanes, and the 32-bit index lanes hold it exactly. *)
Theorem min_index_first_minimum {T} (array : list F) (count : N) (s : state T) :
  0 < count -> count < SizeT.modulus -> count <= N.of_nat (length array) ->
  is_min_at array count 0 ->
  exists s', min_index array count s = Some (0, s') /\ out s' = out s.
Proof.
  intros Hpos Hc Hlen Hmin.
  pose proof (is_min_no_nan array count 0 Hmin) as Hn.
  destruct (min_index_post array count Hpos Hc Hlen s)
    as (r & s' & Hrun & Hout & p & v & -> & Hb).
  destruct (best_is_min _ _ _ _ _ Hn Hb) as [_ Hfirst].
  rewrite (before_zero _ p (Hfirst 0 Hmin)) in Hrun.
  exists s'. split; [| exact Hout]. rewrite Hrun. f_equal. f_equal.
  unfold trunc. destruct (0 <? 4 * (count / 4)); reflexivity.
Qed.

Lemma min_index_first_minimum_witness :
  0 < 10 /\ 10 < SizeT.modulus /\ 10 <= N.of_nat (length demo_input) /\
  is_min_at demo_input 10 0 /\
  exists s', min_index demo_input 10 nothing = Some (0, s') /\ out s' = out nothing.
Proof.
  assert (is_min_at demo_input 10 0) as Hmin
    by (apply (is_min_check demo_input 10 0 (of_Z 1)); reflexivity).
  split; [reflexivity |]. split; [reflexivity |].
  split; [vm_compute; discriminate |].
  split; [exact Hmin |].
  apply (min_index_first_minimum demo_input 10 nothing).
  - reflexivity.
  - reflexivity.
  - vm_compute; discriminate.
  - exact Hmin.
Defined.

(** X23. On a non-empty array of at most seven elements without NaN,
    [min_index] returns the smallest index at which the minimum
    occurs: with at most one group of four, each lane holds one element
    and the order of the lanes is the order of the indices. *)
Theorem min_index_short_array {T} (array : list F) (count : N) (s : state T) :
  0 < count -> count <= 7 -> count <= N.of_nat (length array) ->
  no_nan array count ->
  exists r s',
    min_index array count s = Some (r, s') /\
    is_min_at array count r /\
    forall j, is_min_at array count j -> r <= j.
Proof.
  intros Hpos Hc Hlen Hn.
  assert (count < SizeT.modulus) as Hc' by (unfold SizeT.modulus; lia).
  destruct (min_index_post array count Hpos Hc' Hlen s)
    as (r & s' & Hrun & _ & p & v & -> & Hb).
  rewrite trunc_small in Hrun by lia.
  destruct (best_is_min _ _ _ _ _ Hn Hb) as [Hmin Hfirst].
  exists p, s'. split; [exact Hrun |]. split; [exact Hmin |].
  intros j Hj. apply (before_small (4 * (count / 4))); [lia |]. now apply Hfirst.
Qed.

Lemma min_index_short_array_witness :
  0 < 5 /\ 5 <= 7 /\ 5 <= N.of_nat (length credits) /\
  no_nan credits 5 /\
  exists r s',
    min_index credits 5 nothing = Some (r, s') /\
    is_min_at credits 5 r /\
    forall j, is_min_at credits 5 j -> r <= j.
Proof.
  split; [reflexivity |].
  split; [vm_compute; discriminate |].
  split; [vm_compute; discriminate |].
  split; [apply no_nan_check; reflexivity |].
  apply (min_index_short_array credits 5 nothing).
  - reflexivity.
  - vm_compute; discriminate.
  - vm_compute; discriminate.
  - apply no_nan_check; reflexivity.
Defined.

End ArgMin.

(** ** [cumulative_sum]: what is written *)
Module PrefixSum.
Import Mem Neon F32 Loop Kernels Spec HoareRules SizeTFacts.

(** X24. On every non-empty input [cumulative_sum] ends without a
    fault, keeps the length of [output], stores [input[0]] in
    [output[0]], and never stores into an element after the last full
    group of four: from index [4 * ((count - 1) / 4) + 1] on, the output
    array holds what it held before the call. *)
Theorem cumulative_sum_leaves_tail
    (input : list F) (count : N) (s : state F) :
  1 <= count -> count < SizeT.modulus ->
  count <= N.of_nat (length input) ->
  count <= N.of_nat (length (out s)) ->
  exists s',
    cumulative_sum input count s = Some (tt, s') /\
    length (out s') = length (out s) /\
    out s' !! 0%nat = input !! 0%nat /\
    forall j, 4 * ((count - 1) / 4) < j ->
      out s' !! N.to_nat j = out s !! N.to_nat j.
Proof.
  intros Hpos Hc Hin Hout.
  exact (CumulativeSum.cumulative_sum_tail_untouched input count s Hpos Hc Hin Hout).
Qed.

Lemma cumulative_sum_leaves_tail_witness :
  1 <= 10 /\ 10 < SizeT.modulus /\
  10 <= N.of_nat (length demo_input) /\
  10 <= N.of_nat (length (out (cells 10))) /\
  exists s',
    cumulative_sum demo_input 10 (cells 10) = Some (tt, s') /\
    length (out s') = length (out (cells 10)) /\
    out s' !! 0%nat = demo_input !! 0%nat /\
    forall j, 4 * ((10 - 1) / 4) < j ->
      out s' !! N.to_nat j = out (cells 10) !! N.to_nat j.
Proof.
  split; [vm_compute; discriminate |].
  split; [reflexivity |].
  split; [vm_compute; discriminate |].
  split; [vm_compute; discriminate |].
  apply (cumulative_sum_leaves_tail demo_input 10 (cells 10)).
  - vm_compute; discriminate.
  - reflexivity.
  - vm_compute; discriminate.
  - vm_compute; discriminate.
Defined.

(** X25. With one to four elements [cumulative_sum] stores
    [output[0] = input[0]] and nothing else: the output array after the
    call is the array before it with element 0 replaced. *)
Theorem cumulative_sum_up_to_four
    (input : list F) (count : N) (x : F) (s : state F) :
  1 <= count -> count <= 4 ->
  count <= N.of_nat (length input) ->
  count <= N.of_nat (length (out s)) ->
  input !! 0%nat = Some x ->
  exists s',
    cumulative_sum input count s = Some (tt, s') /\
    out s' = <[0%nat := x]> (out s).
Proof.
  intros Hpos Hc Hin Hout Hx.
  assert (count < SizeT.modulus) as Hc' by (unfold SizeT.modulus; lia).
  destruct (CumulativeSum.cumulative_sum_tail_untouched input count s Hpos Hc' Hin Hout)
    as (s' & Hrun & Hl & H0 & Hrest).
  exists s'. split; [exact Hrun |].
  apply list_eq. intros [| k].
  - rewrite H0, Hx. symmetry. apply list_lookup_insert_eq. lia.
  - rewrite list_lookup_insert_ne by lia.
    replace (S k) with (N.to_nat (N.of_nat (S k))) by lia.
    apply Hrest. lia.
Qed.

Lemma cumulative_sum_up_to_four_witness :
  1 <= 4 /\ 4 <= 4 /\
  4 <= N.of_nat (length signal) /\
  4 <= N.of_nat (length (out (cells 4))) /\
  signal !! 0%nat = Some (of_Z 10) /\
  exists s',
    cumulative_sum signal 4 (cells 4) = Some (tt, s') /\
    out s' = <[0%nat := of_Z 10]> (out (cells 4)).
Proof.
  split; [vm_compute; discriminate |].
  split; [vm_compute; discriminate |].
  split; [vm_compute; discriminate |].
  split; [vm_compute; discriminate |].
  split; [reflexivity |].
  apply (cumulative_sum_up_to_four signal 4 (of_Z 10) (cells 4)).
  - vm_compute; discriminate.
  - vm_compute; discriminate.
  - vm_compute; discriminate.
  - vm_compute; discriminate.
  - reflexivity.
Defined.

End PrefixSum.
